(** * RevSplit commission service: rule resolution, split calculation and ledger

    A shallow embedding of [CommissionService] (commission.service.ts) and
    the properties of its commission and ledger engine.

    Modelling conventions.
    - [Prisma.Decimal] amounts are exact rationals [Q], and the operations
      the service applies ([mul], [div] by 100, [minus], [add], comparisons)
      are the exact ones.  The decimal library rounds the result of an
      operation to 20 significant digits: the model and the library agree
      on every operation whose exact result has at most 20 significant
      digits ([Decimal.fits]), and the properties of sums that hold only
      without rounding are stated for calculations in which every result
      fits.
    - Dates are milliseconds since the epoch ([Z]).  Every [new Date()] and
      [Date.now()] is one reading of the clock; the world carries the
      sequence of readings and the number of readings made so far.
    - The tables are part of the world: the commission rules as the list of
      their rows, the ledger as a finite map from the primary key [id] to
      the other columns.
    - The ids of new ledger rows are generated: the world carries the
      sequence of generated ids and the number of ids generated so far.  An
      insertion fails when its id is taken (the primary key is unique), an
      update fails when no row has the id.
    - Asynchronous methods are computations in a state-and-exception monad
      over the world; [try]/[catch] and [$transaction] are combinators.
    - The queries of the persistence client return their rows: a database
      that cannot be reached is outside the model.  What is proved of the
      errors of a method is what its [catch] guarantees for whatever is
      thrown inside.
    - Logging has no effect on the results and is left out. *)

From Stdlib Require Import QArith Qminmax Lqa ZArith.
From stdpp Require Import gmap strings list fin_maps pretty.
From stdpp Require Import sorting.

Set Default Proof Using "Type".

(* ================================================================== *)
(** ** Decimals *)

Module Decimal.

Definition mul (x y : Q) : Q := (x * y)%Q.
Definition div (x y : Q) : Q := (x / y)%Q.
Definition minus (x y : Q) : Q := (x - y)%Q.
Definition sub (x y : Q) : Q := (x - y)%Q.
Definition add (x y : Q) : Q := (x + y)%Q.
Definition lessThan (x y : Q) : bool := negb (Qle_bool y x).
Definition greaterThan (x y : Q) : bool := negb (Qle_bool x y).
Definition equals (x y : Q) : bool := Qeq_bool x y.

(** The number of significant digits the library keeps. *)
Definition precision : nat := 20.

(** A decimal of at most [precision] significant digits: [m * 10^u / 10^d]
    for an integer [m] of at most [precision] digits.  An operation whose
    exact result fits returns it as it is; any other result is rounded. *)
Definition fits (x : Q) : Prop :=
  exists (m : Z) (u d : nat),
    (Z.abs m < 10 ^ Z.of_nat precision)%Z
    /\ (x * inject_Z (10 ^ Z.of_nat d) == inject_Z (m * 10 ^ Z.of_nat u))%Q.

(** A decimal of at most [dp] decimal places whose digits, read as an
    integer, are at most [bound] in absolute value: 12.34 is within 2
    decimal places and the bound 1234. *)
Definition within (dp : nat) (bound : Z) (x : Q) : Prop :=
  exists m : Z,
    (Z.abs m <= bound)%Z
    /\ (x * inject_Z (10 ^ Z.of_nat dp) == inject_Z m)%Q.

End Decimal.

(* ================================================================== *)
(** ** Enumerations *)

Inductive CommissionRuleType := CAMPAIGN | SKU | PRODUCT | DEFAULT.

Inductive LedgerEntryType :=
  SALE | COMMISSION | PLATFORM_FEE | PAYMENT_FEE | PAYOUT | REFUND | ADJUSTMENT.

Inductive LedgerEntryStatus := RESERVED | CLEARED | PAID | CANCELLED.

#[global] Instance CommissionRuleType_eq_dec : EqDecision CommissionRuleType.
Proof. solve_decision. Defined.
#[global] Instance LedgerEntryType_eq_dec : EqDecision LedgerEntryType.
Proof. solve_decision. Defined.
#[global] Instance LedgerEntryStatus_eq_dec : EqDecision LedgerEntryStatus.
Proof. solve_decision. Defined.

(** The string value of each member of the [CommissionRuleType] enum. *)
Definition CommissionRuleType_value (t : CommissionRuleType) : string :=
  match t with
  | CAMPAIGN => "CAMPAIGN"
  | SKU => "SKU"
  | PRODUCT => "PRODUCT"
  | DEFAULT => "DEFAULT"
  end.

(* ================================================================== *)
(** ** Errors (utils/errors.ts) *)

Inductive ErrorClass :=
  | BadRequestError | ValidationError | UnauthorizedError | ForbiddenError
  | NotFoundError | ConflictError | RateLimitError | InternalServerError
  | ExternalServiceError | ServiceUnavailableError.

#[global] Instance ErrorClass_eq_dec : EqDecision ErrorClass.
Proof. solve_decision. Defined.

(** What a method can throw: an application error with its class and error
    code, an error of the persistence client with its code ([P2025]: the
    record to update does not exist; [P2002]: unique constraint), or a
    [TypeError] of the language with its message. *)
Inductive Exn :=
  | AppError (cls : ErrorClass) (errorCode : string)
  | PrismaError (code : string)
  | TypeError (message : string).

Definition statusCode (c : ErrorClass) : Z :=
  match c with
  | BadRequestError | ValidationError => 400
  | UnauthorizedError => 401
  | ForbiddenError => 403
  | NotFoundError => 404
  | ConflictError => 409
  | RateLimitError => 429
  | InternalServerError => 500
  | ExternalServiceError => 502
  | ServiceUnavailableError => 503
  end.

Definition isConflict (e : Exn) : bool :=
  match e with
  | AppError ConflictError _ => true
  | _ => false
  end.

(* ================================================================== *)
(** ** Records *)

Module CommissionRule.
(** A row of the commission rule table.  The scope references and the
    validity dates are nullable columns (the seed creates rules without
    an end date). *)
Record t := mk {
  id : string;
  organizationId : string;
  type : CommissionRuleType;
  campaignId : option string;
  skuId : option string;
  productId : option string;
  creatorPercent : Q;
  platformFeePercent : Q;
  minCommission : option Q;
  maxCommission : option Q;
  currency : string;
  isActive : bool;
  startDate : option Z;
  endDate : option Z
}.
End CommissionRule.

Module OrderItemRow.
(** An order item as the order query includes it, with the product id of
    its SKU selected. *)
Record t := mk {
  id : string;
  skuId : string;
  subtotal : Q;
  sku_productId : string
}.
End OrderItemRow.

Module Order.
Record t := mk {
  id : string;
  organizationId : string;
  currency : string;
  orderItems : list OrderItemRow.t
}.
End Order.

Module OrderItem.
(** [OrderItem & { order: Order; sku: { productId: string } }] *)
Record t := mk {
  id : string;
  skuId : string;
  subtotal : Q;
  order : Order.t;
  sku_productId : string
}.

(** [{ ...item, order }] *)
Definition withOrder (item : OrderItemRow.t) (order : Order.t) : t :=
  {| id := OrderItemRow.id item;
     skuId := OrderItemRow.skuId item;
     subtotal := OrderItemRow.subtotal item;
     order := order;
     sku_productId := OrderItemRow.sku_productId item |}.
End OrderItem.

Module Campaign.
Record t := mk {
  creatorId : string
}.
End Campaign.

Module CommissionCalculation.
Record t := mk {
  orderItemId : string;
  subtotal : Q;
  platformFee : Q;
  creatorCommission : Q;
  paymentFee : Q;
  sellerTake : Q;
  currency : string;
  appliedRuleId : string;
  appliedRuleType : string
}.
End CommissionCalculation.

(** Values stored in the JSON metadata of a ledger entry.  The two strings
    the service builds from a clock reading are kept symbolic:
    [MCalcId t] is [`calc_${t}`] and [MIsoDate t] is the ISO rendering of
    the date [t]. *)
Inductive MetaValue :=
  | MString (s : string)
  | MCalcId (t : Z)
  | MIsoDate (t : Z).

Module LedgerEntry.
(** The columns of a ledger row other than its primary key. *)
Record t := mk {
  organizationId : string;
  orderId : string;
  orderItemId : option string;
  payoutId : option string;
  entryType : LedgerEntryType;
  amount : Q;
  currency : string;
  description : option string;
  status : LedgerEntryStatus;
  metadata : gmap string MetaValue;
  createdAt : Z;
  clearedAt : option Z;
  paidAt : option Z
}.
End LedgerEntry.

(** A ledger row as the client returns it: the [id] and the columns. *)
Abbreviation LedgerRow := (string * LedgerEntry.t)%type.

Module LedgerEntryCreateInput.
(** The [data] of [ledgerEntry.create] as the service fills it; the other
    columns take their defaults. *)
Record t := mk {
  organizationId : string;
  orderId : string;
  orderItemId : option string;
  entryType : LedgerEntryType;
  amount : Q;
  currency : string;
  description : option string;
  status : LedgerEntryStatus;
  metadata : gmap string MetaValue
}.

(** The row that is inserted: [createdAt] is the time of the insertion,
    the payout link and the lifecycle timestamps start empty. *)
Definition row (data : t) (now : Z) : LedgerEntry.t :=
  {| LedgerEntry.organizationId := organizationId data;
     LedgerEntry.orderId := orderId data;
     LedgerEntry.orderItemId := orderItemId data;
     LedgerEntry.payoutId := None;
     LedgerEntry.entryType := entryType data;
     LedgerEntry.amount := amount data;
     LedgerEntry.currency := currency data;
     LedgerEntry.description := description data;
     LedgerEntry.status := status data;
     LedgerEntry.metadata := metadata data;
     LedgerEntry.createdAt := now;
     LedgerEntry.clearedAt := None;
     LedgerEntry.paidAt := None |}.
End LedgerEntryCreateInput.

Module LedgerEntryUpdateInput.
(** The [data] of [ledgerEntry.update]: every column may be given; a
    column that is not given keeps its value. *)
Record t := mk {
  entryType : option LedgerEntryType;
  amount : option Q;
  currency : option string;
  description : option (option string);
  status : option LedgerEntryStatus;
  metadata : option (gmap string MetaValue);
  payoutId : option (option string);
  clearedAt : option (option Z);
  paidAt : option (option Z)
}.

Definition apply (d : t) (e : LedgerEntry.t) : LedgerEntry.t :=
  {| LedgerEntry.organizationId := LedgerEntry.organizationId e;
     LedgerEntry.orderId := LedgerEntry.orderId e;
     LedgerEntry.orderItemId := LedgerEntry.orderItemId e;
     LedgerEntry.payoutId := default (LedgerEntry.payoutId e) (payoutId d);
     LedgerEntry.entryType := default (LedgerEntry.entryType e) (entryType d);
     LedgerEntry.amount := default (LedgerEntry.amount e) (amount d);
     LedgerEntry.currency := default (LedgerEntry.currency e) (currency d);
     LedgerEntry.description :=
       default (LedgerEntry.description e) (description d);
     LedgerEntry.status := default (LedgerEntry.status e) (status d);
     LedgerEntry.metadata := default (LedgerEntry.metadata e) (metadata d);
     LedgerEntry.createdAt := LedgerEntry.createdAt e;
     LedgerEntry.clearedAt := default (LedgerEntry.clearedAt e) (clearedAt d);
     LedgerEntry.paidAt := default (LedgerEntry.paidAt e) (paidAt d) |}.
End LedgerEntryUpdateInput.

(* ================================================================== *)
(** ** The world and the monad of the service's methods *)

Record World := mkWorld {
  commissionRule : list CommissionRule.t;   (* rule table, in table order *)
  order : gmap string Order.t;              (* order table, by id *)
  campaign : gmap string Campaign.t;        (* campaign table, by id *)
  ledgerEntry : gmap string LedgerEntry.t;  (* ledger table, by id *)
  clock : nat -> Z;                         (* successive clock readings *)
  ticks : nat;                              (* readings made so far *)
  cuid : nat -> string;                     (* successive generated ids *)
  issued : nat                              (* ids generated so far *)
}.

Definition setLedger (l : gmap string LedgerEntry.t) (w : World) : World :=
  mkWorld (commissionRule w) (order w) (campaign w) l (clock w) (ticks w)
          (cuid w) (issued w).

Definition tick (w : World) : World :=
  mkWorld (commissionRule w) (order w) (campaign w) (ledgerEntry w) (clock w)
          (S (ticks w)) (cuid w) (issued w).

Definition issue (w : World) : World :=
  mkWorld (commissionRule w) (order w) (campaign w) (ledgerEntry w) (clock w)
          (ticks w) (cuid w) (S (issued w)).

Inductive Result (A : Type) :=
  | Ok (a : A)
  | Err (e : Exn).
Arguments Ok {A} a.
Arguments Err {A} e.

Definition M (A : Type) : Type := World -> Result A * World.

Definition ret {A} (a : A) : M A := fun w => (Ok a, w).

Definition bind {A B} (m : M A) (k : A -> M B) : M B :=
  fun w =>
    match m w with
    | (Ok a, w') => k a w'
    | (Err e, w') => (Err e, w')
    end.

Definition throw {A} (e : Exn) : M A := fun w => (Err e, w).

Definition try_catch {A} (m : M A) (handler : Exn -> M A) : M A :=
  fun w =>
    match m w with
    | (Ok a, w') => (Ok a, w')
    | (Err e, w') => handler e w'
    end.

Notation "x <- c ;; k" := (bind c (fun x => k))
  (at level 100, c at next level, right associativity).

(** A list of operations run one after the other, in order. *)
Fixpoint sequence {A} (ops : list (M A)) : M (list A) :=
  match ops with
  | [] => ret []
  | op :: ops' =>
      a <- op ;;
      rest <- sequence ops' ;;
      ret (a :: rest)
  end.

(** [array.map(f)] where [f] has effects: the calls happen in order. *)
Fixpoint mapM {A B} (f : A -> M B) (l : list A) : M (list B) :=
  match l with
  | [] => ret []
  | a :: l' =>
      b <- f a ;;
      rest <- mapM f l' ;;
      ret (b :: rest)
  end.

(** [new Date()] / [Date.now()]: the next clock reading. *)
Definition newDate : M Z :=
  fun w => (Ok (clock w (ticks w)), tick w).

(* ------------------------------------------------------------------ *)
(** *** The persistence client *)

(** [$transaction]: the operations run in order; when one throws, the
    writes made so far are rolled back and the error is thrown on.  Time
    that has passed and ids that were generated are not given back. *)
Definition transaction {A} (m : M A) : M A :=
  fun w =>
    match m w with
    | (Ok a, w') => (Ok a, w')
    | (Err e, w') => (Err e, setLedger (ledgerEntry w) w')
    end.

(** [commissionRule.findFirst({ where })]: the first row that matches. *)
Definition commissionRule_findFirst (where_ : CommissionRule.t -> bool)
  : M (option CommissionRule.t) :=
  fun w => (Ok (List.find where_ (commissionRule w)), w).

(** [order.findUnique({ where: { id }, include })] *)
Definition order_findUnique (id : string) : M (option Order.t) :=
  fun w => (Ok (order w !! id), w).

(** [campaign.findUnique({ where: { id }, select: { creatorId } })] *)
Definition campaign_findUnique (id : string) : M (option Campaign.t) :=
  fun w => (Ok (campaign w !! id), w).

(** [ledgerEntry.findMany({ where })]: the rows that match, in the order
    the table lists them. *)
Definition ledgerEntry_findMany (where_ : LedgerEntry.t -> bool)
  : M (list LedgerRow) :=
  fun w =>
    (Ok (List.filter (fun r : LedgerRow => where_ r.2)
           (map_to_list (ledgerEntry w))), w).

(** [ledgerEntry.update({ where: { id }, data })]: throws when no row has
    the id. *)
Definition ledgerEntry_update (id : string) (data : LedgerEntryUpdateInput.t)
  : M LedgerRow :=
  fun w =>
    match ledgerEntry w !! id with
    | Some e =>
        let e' := LedgerEntryUpdateInput.apply data e in
        (Ok (id, e'), setLedger (<[id := e']> (ledgerEntry w)) w)
    | None => (Err (PrismaError "P2025"), w)
    end.

(** [ledgerEntry.create({ data })]: the id is generated and the row is
    inserted at the current time.  The insertion throws when the id is
    taken. *)
Definition ledgerEntry_create (data : LedgerEntryCreateInput.t)
  : M LedgerRow :=
  fun w =>
    let id := cuid w (issued w) in
    let now := clock w (ticks w) in
    let w1 := issue (tick w) in
    match ledgerEntry w !! id with
    | Some _ => (Err (PrismaError "P2002"), w1)
    | None =>
        let e := LedgerEntryCreateInput.row data now in
        (Ok (id, e), setLedger (<[id := e]> (ledgerEntry w)) w1)
    end.

(* ================================================================== *)
(** ** CommissionService *)

(** Truthiness of an optional string argument: [undefined] and the empty
    string are falsy. *)
Definition truthy (s : option string) : bool :=
  match s with
  | Some v => negb (bool_decide (v = ""))
  | None => false
  end.

(** Date filters of a [where] clause; a null column matches neither. *)
Definition lte (col : option Z) (t : Z) : bool :=
  match col with
  | Some d => (d <=? t)%Z
  | None => false
  end.

Definition gte (col : option Z) (t : Z) : bool :=
  match col with
  | Some d => (t <=? d)%Z
  | None => false
  end.

(** The four [where] clauses of [findApplicableCommissionRule]; [t1] and
    [t2] are the two dates each clause is built with. *)
Definition campaignRuleWhere (organizationId campaignId : string) (t1 t2 : Z)
    (r : CommissionRule.t) : bool :=
  bool_decide (CommissionRule.organizationId r = organizationId)
  && bool_decide (CommissionRule.campaignId r = Some campaignId)
  && bool_decide (CommissionRule.type r = CAMPAIGN)
  && CommissionRule.isActive r
  && lte (CommissionRule.startDate r) t1
  && gte (CommissionRule.endDate r) t2.

Definition skuRuleWhere (organizationId skuId : string) (t1 t2 : Z)
    (r : CommissionRule.t) : bool :=
  bool_decide (CommissionRule.organizationId r = organizationId)
  && bool_decide (CommissionRule.skuId r = Some skuId)
  && bool_decide (CommissionRule.type r = SKU)
  && CommissionRule.isActive r
  && lte (CommissionRule.startDate r) t1
  && gte (CommissionRule.endDate r) t2.

Definition productRuleWhere (organizationId productId : string) (t1 t2 : Z)
    (r : CommissionRule.t) : bool :=
  bool_decide (CommissionRule.organizationId r = organizationId)
  && bool_decide (CommissionRule.productId r = Some productId)
  && bool_decide (CommissionRule.type r = PRODUCT)
  && CommissionRule.isActive r
  && lte (CommissionRule.startDate r) t1
  && gte (CommissionRule.endDate r) t2.

Definition defaultRuleWhere (organizationId : string) (t1 t2 : Z)
    (r : CommissionRule.t) : bool :=
  bool_decide (CommissionRule.organizationId r = organizationId)
  && bool_decide (CommissionRule.type r = DEFAULT)
  && CommissionRule.isActive r
  && lte (CommissionRule.startDate r) t1
  && gte (CommissionRule.endDate r) t2.

(** Find the applicable commission rule for an order item.
    Priority: Campaign > SKU > Product > Default. *)
Definition findApplicableCommissionRule (orderItem : OrderItem.t)
    (campaignId : option string) : M CommissionRule.t :=
  let organizationId := Order.organizationId (OrderItem.order orderItem) in
  let productId := OrderItem.sku_productId orderItem in
  (* Step 1: a campaign-specific rule if campaignId is provided *)
  campaignRule <-
    (if truthy campaignId then
       t1 <- newDate ;;
       t2 <- newDate ;;
       commissionRule_findFirst
         (campaignRuleWhere organizationId (default "" campaignId) t1 t2)
     else ret None) ;;
  match campaignRule with
  | Some rule => ret rule
  | None =>
      (* Step 2: an SKU-specific rule *)
      t1 <- newDate ;;
      t2 <- newDate ;;
      skuRule <- commissionRule_findFirst
                   (skuRuleWhere organizationId (OrderItem.skuId orderItem)
                      t1 t2) ;;
      match skuRule with
      | Some rule => ret rule
      | None =>
          (* Step 3: a product-specific rule *)
          t1 <- newDate ;;
          t2 <- newDate ;;
          productRule <- commissionRule_findFirst
                           (productRuleWhere organizationId productId t1 t2) ;;
          match productRule with
          | Some rule => ret rule
          | None =>
              (* Step 4: fall back to the default rule *)
              t1 <- newDate ;;
              t2 <- newDate ;;
              defaultRule <- commissionRule_findFirst
                               (defaultRuleWhere organizationId t1 t2) ;;
              match defaultRule with
              | Some rule => ret rule
              | None =>
                  throw (AppError NotFoundError "COMMISSION_RULE_NOT_FOUND")
              end
          end
      end
  end.

(** The tiers [findApplicableCommissionRule] queries, in the order it
    queries them: the campaign tier only for a truthy [campaignId]. *)
Definition tiersQueried (campaignId : option string) : list CommissionRuleType :=
  (if truthy campaignId then [CAMPAIGN] else []) ++ [SKU; PRODUCT; DEFAULT].

(** The [where] clause of the query of a tier. *)
Definition tierWhere (tier : CommissionRuleType) (orderItem : OrderItem.t)
    (campaignId : option string) (t1 t2 : Z) : CommissionRule.t -> bool :=
  let organizationId := Order.organizationId (OrderItem.order orderItem) in
  match tier with
  | CAMPAIGN =>
      campaignRuleWhere organizationId (default "" campaignId) t1 t2
  | SKU => skuRuleWhere organizationId (OrderItem.skuId orderItem) t1 t2
  | PRODUCT =>
      productRuleWhere organizationId (OrderItem.sku_productId orderItem) t1 t2
  | DEFAULT => defaultRuleWhere organizationId t1 t2
  end.

(** No rule of the table matches the query of any tier, each query taken at
    the two clock readings it is built with: the [k]-th query made from the
    world [w] reads the clock at [2 * k + ticks w] and at the next tick. *)
Definition noRuleMatches (w : World) (orderItem : OrderItem.t)
    (campaignId : option string) : Prop :=
  forall (k : nat) (tier : CommissionRuleType) (r : CommissionRule.t),
    tiersQueried campaignId !! k = Some tier ->
    r ∈ commissionRule w ->
    tierWhere tier orderItem campaignId
      (clock w (2 * k + ticks w)) (clock w (S (2 * k + ticks w))) r = false.

(** The seller take as first computed, before the negative case is
    handled: [subtotal - platformFee - creatorCommission - paymentFee]. *)
Definition naiveSellerTake (subtotal platformFee creatorCommission paymentFee : Q)
  : Q :=
  Decimal.minus
    (Decimal.minus (Decimal.minus subtotal platformFee) creatorCommission)
    paymentFee.

(** The commission after the minimum and the maximum cap of the rule. *)
Definition cappedCommission (rule : CommissionRule.t) (subtotal : Q) : Q :=
  let creatorCommission :=
    Decimal.div (Decimal.mul subtotal (CommissionRule.creatorPercent rule)) 100 in
  let creatorCommission :=
    match CommissionRule.minCommission rule with
    | Some minCommission =>
        if Decimal.lessThan creatorCommission minCommission
        then minCommission else creatorCommission
    | None => creatorCommission
    end in
  match CommissionRule.maxCommission rule with
  | Some maxCommission =>
      if Decimal.greaterThan creatorCommission maxCommission
      then maxCommission else creatorCommission
  | None => creatorCommission
  end.

(** The body of [calculateCommission] once the rule is resolved. *)
Definition commissionSplit (orderItem : OrderItem.t) (rule : CommissionRule.t)
    (paymentFeePercent : Q) : CommissionCalculation.t :=
  let subtotal := OrderItem.subtotal orderItem in
  let platformFee :=
    Decimal.div (Decimal.mul subtotal (CommissionRule.platformFeePercent rule))
      100 in
  let creatorCommission := cappedCommission rule subtotal in
  let paymentFee := Decimal.mul subtotal paymentFeePercent in
  let sellerTake :=
    naiveSellerTake subtotal platformFee creatorCommission paymentFee in
  (* Ensure seller take is not negative *)
  let creatorCommission :=
    if Decimal.lessThan sellerTake 0 then
      let adjusted :=
        Decimal.minus (Decimal.minus subtotal platformFee) paymentFee in
      if Decimal.lessThan adjusted 0 then 0%Q else adjusted
    else creatorCommission in
  {| CommissionCalculation.orderItemId := OrderItem.id orderItem;
     CommissionCalculation.subtotal := subtotal;
     CommissionCalculation.platformFee := platformFee;
     CommissionCalculation.creatorCommission := creatorCommission;
     CommissionCalculation.paymentFee := paymentFee;
     CommissionCalculation.sellerTake :=
       if Decimal.lessThan sellerTake 0 then 0%Q else sellerTake;
     CommissionCalculation.currency :=
       Order.currency (OrderItem.order orderItem);
     CommissionCalculation.appliedRuleId := CommissionRule.id rule;
     CommissionCalculation.appliedRuleType :=
       CommissionRuleType_value (CommissionRule.type rule) |}.

(** Calculate commission for an order item.  The payment fee percentage
    defaults to 0.029 (2.9%); an error of the rule lookup is logged and
    thrown on. *)
Definition calculateCommission (orderItem : OrderItem.t)
    (paymentFeePercent : option Q) (campaignId : option string)
  : M CommissionCalculation.t :=
  try_catch
    (rule <- findApplicableCommissionRule orderItem campaignId ;;
     ret (commissionSplit orderItem rule (default 0.029%Q paymentFeePercent)))
    (fun error => throw error).

(** The [data] of the four entries of a split; [now] is the [Date.now()] of
    the calculation id. *)
Definition splitEntryData (calculation : CommissionCalculation.t)
    (order : Order.t) (entryType : LedgerEntryType) (amount : Q)
    (label : string) (extra : gmap string MetaValue) (now : Z)
  : LedgerEntryCreateInput.t :=
  {| LedgerEntryCreateInput.organizationId := Order.organizationId order;
     LedgerEntryCreateInput.orderId := Order.id order;
     LedgerEntryCreateInput.orderItemId :=
       Some (CommissionCalculation.orderItemId calculation);
     LedgerEntryCreateInput.entryType := entryType;
     LedgerEntryCreateInput.amount := amount;
     LedgerEntryCreateInput.currency :=
       CommissionCalculation.currency calculation;
     LedgerEntryCreateInput.description :=
       Some (label +:+ " for order item "
             +:+ CommissionCalculation.orderItemId calculation);
     LedgerEntryCreateInput.status := RESERVED;
     LedgerEntryCreateInput.metadata :=
       extra ∪
       {[ "calculationId" := MCalcId now;
          "appliedRuleId" :=
            MString (CommissionCalculation.appliedRuleId calculation);
          "appliedRuleType" :=
            MString (CommissionCalculation.appliedRuleType calculation) ]} |}.

(** Create ledger entries for an order item commission calculation, in one
    transaction. *)
Definition createLedgerEntries (calculation : CommissionCalculation.t)
    (order : Order.t) (creatorId : string) : M (list LedgerRow) :=
  try_catch
    (transaction
       ((* 1. SALE entry *)
        now <- newDate ;;
        saleEntry <-
          ledgerEntry_create
            (splitEntryData calculation order SALE
               (CommissionCalculation.subtotal calculation)
               "Sale revenue" ∅ now) ;;
        (* 2. PLATFORM_FEE entry *)
        now <- newDate ;;
        platformFeeEntry <-
          ledgerEntry_create
            (splitEntryData calculation order PLATFORM_FEE
               (CommissionCalculation.platformFee calculation)
               "Platform fee" ∅ now) ;;
        (* 3. COMMISSION entry *)
        now <- newDate ;;
        commissionEntry <-
          ledgerEntry_create
            (splitEntryData calculation order COMMISSION
               (CommissionCalculation.creatorCommission calculation)
               "Creator commission" {[ "creatorId" := MString creatorId ]}
               now) ;;
        (* 4. PAYMENT_FEE entry *)
        now <- newDate ;;
        paymentFeeEntry <-
          ledgerEntry_create
            (splitEntryData calculation order PAYMENT_FEE
               (CommissionCalculation.paymentFee calculation)
               "Payment processing fee" ∅ now) ;;
        ret [saleEntry; platformFeeEntry; commissionEntry; paymentFeeEntry]))
    (fun error =>
       throw (AppError InternalServerError "LEDGER_ENTRY_CREATION_FAILED")).

(** The loop of [processOrderCommissions] over the items of the order. *)
Fixpoint processOrderItems (order : Order.t) (campaignId : option string)
    (creatorId : string) (items : list OrderItemRow.t)
    (calculations : list CommissionCalculation.t)
    (ledgerEntries : list LedgerRow)
  : M (list CommissionCalculation.t * list LedgerRow) :=
  match items with
  | [] => ret (calculations, ledgerEntries)
  | item :: items' =>
      calculation <-
        calculateCommission (OrderItem.withOrder item order) (Some 0.029%Q)
          campaignId ;;
      entries <- createLedgerEntries calculation order creatorId ;;
      processOrderItems order campaignId creatorId items'
        (calculations ++ [calculation]) (ledgerEntries ++ entries)
  end.

(** Process commission for a complete order. *)
Definition processOrderCommissions (orderId : string)
    (campaignId creatorId : option string)
  : M (list CommissionCalculation.t * list LedgerRow) :=
  try_catch
    (order <- order_findUnique orderId ;;
     match order with
     | None => throw (AppError NotFoundError "ORDER_NOT_FOUND")
     | Some order =>
         creatorId <-
           (if negb (truthy creatorId) && truthy campaignId then
              campaign <- campaign_findUnique (default "" campaignId) ;;
              match campaign with
              | Some campaign => ret (Some (Campaign.creatorId campaign))
              | None => ret creatorId
              end
            else ret creatorId) ;;
         if negb (truthy creatorId) then
           throw (AppError ValidationError "CREATOR_ID_REQUIRED")
         else
           processOrderItems order campaignId (default "" creatorId)
             (Order.orderItems order) [] []
     end)
    (fun error => throw error).

(** The [data] of the three status updates. *)
Definition clearedData (now : Z) : LedgerEntryUpdateInput.t :=
  {| LedgerEntryUpdateInput.entryType := None;
     LedgerEntryUpdateInput.amount := None;
     LedgerEntryUpdateInput.currency := None;
     LedgerEntryUpdateInput.description := None;
     LedgerEntryUpdateInput.status := Some CLEARED;
     LedgerEntryUpdateInput.metadata := None;
     LedgerEntryUpdateInput.payoutId := None;
     LedgerEntryUpdateInput.clearedAt := Some (Some now);
     LedgerEntryUpdateInput.paidAt := None |}.

Definition cancelledData (entry : LedgerEntry.t) (reason : string) (now : Z)
  : LedgerEntryUpdateInput.t :=
  {| LedgerEntryUpdateInput.entryType := None;
     LedgerEntryUpdateInput.amount := None;
     LedgerEntryUpdateInput.currency := None;
     LedgerEntryUpdateInput.description := None;
     LedgerEntryUpdateInput.status := Some CANCELLED;
     LedgerEntryUpdateInput.metadata :=
       Some (<["cancelledAt" := MIsoDate now]>
               (<["cancellationReason" := MString reason]>
                  (LedgerEntry.metadata entry)));
     LedgerEntryUpdateInput.payoutId := None;
     LedgerEntryUpdateInput.clearedAt := None;
     LedgerEntryUpdateInput.paidAt := None |}.

Definition paidData (payoutId : string) (now : Z) : LedgerEntryUpdateInput.t :=
  {| LedgerEntryUpdateInput.entryType := None;
     LedgerEntryUpdateInput.amount := None;
     LedgerEntryUpdateInput.currency := None;
     LedgerEntryUpdateInput.description := None;
     LedgerEntryUpdateInput.status := Some PAID;
     LedgerEntryUpdateInput.metadata := None;
     LedgerEntryUpdateInput.payoutId := Some (Some payoutId);
     LedgerEntryUpdateInput.clearedAt := None;
     LedgerEntryUpdateInput.paidAt := Some (Some now) |}.

(** The [where] clauses of the ledger queries. *)
Definition reservedWhere (orderId : string) (e : LedgerEntry.t) : bool :=
  bool_decide (LedgerEntry.orderId e = orderId)
  && bool_decide (LedgerEntry.status e = RESERVED).

Definition notCancelledWhere (orderId : string) (e : LedgerEntry.t) : bool :=
  bool_decide (LedgerEntry.orderId e = orderId)
  && negb (bool_decide (LedgerEntry.status e ∈ [CANCELLED])).

Definition commissionsWhere (organizationId : string) (startDate endDate : Z)
    (e : LedgerEntry.t) : bool :=
  bool_decide (LedgerEntry.organizationId e = organizationId)
  && bool_decide (LedgerEntry.entryType e = COMMISSION)
  && (startDate <=? LedgerEntry.createdAt e)%Z
  && (LedgerEntry.createdAt e <=? endDate)%Z.

(** Clear reserved ledger entries after order confirmation: the update
    operations are built first, one [new Date()] each, then run in one
    transaction. *)
Definition clearLedgerEntries (orderId : string) : M (list LedgerRow) :=
  try_catch
    (reservedEntries <-
       ledgerEntry_findMany (reservedWhere orderId) ;;
     if (length reservedEntries =? 0)%nat then ret []
     else
       updates <-
         mapM (fun entry : LedgerRow =>
                 now <- newDate ;;
                 ret (ledgerEntry_update entry.1 (clearedData now)))
              reservedEntries ;;
       clearedEntries <- transaction (sequence updates) ;;
       ret clearedEntries)
    (fun error =>
       throw (AppError InternalServerError "LEDGER_ENTRY_CLEARING_FAILED")).

(** Cancel ledger entries for an order (e.g., refund, cancellation). *)
Definition cancelLedgerEntries (orderId reason : string) : M (list LedgerRow) :=
  try_catch
    (activeEntries <-
       ledgerEntry_findMany (notCancelledWhere orderId) ;;
     if (length activeEntries =? 0)%nat then ret []
     else
       updates <-
         mapM (fun entry : LedgerRow =>
                 now <- newDate ;;
                 ret (ledgerEntry_update entry.1
                        (cancelledData entry.2 reason now)))
              activeEntries ;;
       cancelledEntries <- transaction (sequence updates) ;;
       ret cancelledEntries)
    (fun error =>
       throw (AppError InternalServerError "LEDGER_ENTRY_CANCELLATION_FAILED")).

(** Mark commissions as paid when a payout is processed. *)
Definition markCommissionsAsPaid (commissionIds : list string)
    (payoutId : string) : M (list LedgerRow) :=
  try_catch
    (updates <-
       mapM (fun id : string =>
               now <- newDate ;;
               ret (ledgerEntry_update id (paidData payoutId now)))
            commissionIds ;;
     paidEntries <- transaction (sequence updates) ;;
     ret paidEntries)
    (fun error =>
       throw (AppError InternalServerError "COMMISSION_PAYMENT_UPDATE_FAILED")).

Inductive ReconciliationStatus := BALANCED | DISCREPANCY.

Module Reconciliation.
Record t := mk {
  totalCommissions : Q;
  totalPaid : Q;
  totalPending : Q;
  reconciliationStatus : ReconciliationStatus;
  discrepancyAmount : option Q
}.
End Reconciliation.

(** [entries.reduce((sum, entry) => sum.add(entry.amount), 0)] *)
Definition sumAmounts (entries : list LedgerRow) : Q :=
  fold_left (fun sum (entry : LedgerRow) =>
               Decimal.add sum (LedgerEntry.amount entry.2))
            entries 0%Q.

(** Reconcile commissions with actual payouts. *)
Definition reconcileCommissions (organizationId : string)
    (startDate endDate : Z) : M Reconciliation.t :=
  try_catch
    (commissions <-
       ledgerEntry_findMany
         (commissionsWhere organizationId startDate endDate) ;;
     let totalCommissions := sumAmounts commissions in
     let paidCommissions :=
       List.filter
         (fun entry : LedgerRow =>
            bool_decide (LedgerEntry.status entry.2 = PAID))
         commissions in
     let totalPaid := sumAmounts paidCommissions in
     let pendingCommissions :=
       List.filter
         (fun entry : LedgerRow =>
            bool_decide (LedgerEntry.status entry.2 = CLEARED)
            || bool_decide (LedgerEntry.status entry.2 = RESERVED))
         commissions in
     let totalPending := sumAmounts pendingCommissions in
     let expectedBalance := Decimal.add totalPaid totalPending in
     let discrepancyAmount := Decimal.sub totalCommissions expectedBalance in
     let reconciliationStatus :=
       if Decimal.equals discrepancyAmount 0 then BALANCED else DISCREPANCY in
     ret {| Reconciliation.totalCommissions := totalCommissions;
            Reconciliation.totalPaid := totalPaid;
            Reconciliation.totalPending := totalPending;
            Reconciliation.reconciliationStatus := reconciliationStatus;
            Reconciliation.discrepancyAmount :=
              match reconciliationStatus with
              | DISCREPANCY => Some discrepancyAmount
              | BALANCED => None
              end |})
    (fun error =>
       throw (AppError InternalServerError "COMMISSION_RECONCILIATION_FAILED")).

(* ================================================================== *)
(** ** Definitions used to state the properties of the ledger *)

(** A run of updates on the ledger table alone: the rows returned when every
    update finds its row ([None] otherwise) and the table after the run. *)
Fixpoint applyUpdates (updates : list (string * LedgerEntryUpdateInput.t))
    (ledger : gmap string LedgerEntry.t)
  : option (list LedgerRow) * gmap string LedgerEntry.t :=
  match updates with
  | [] => (Some [], ledger)
  | (id, data) :: updates' =>
      match ledger !! id with
      | Some e =>
          let e' := LedgerEntryUpdateInput.apply data e in
          let (rows, ledger') := applyUpdates updates' (<[id := e']> ledger) in
          (cons (id, e') <$> rows, ledger')
      | None => (None, ledger)
      end
  end.

(** The rows of the ledger that a [where] clause selects. *)
Definition foundRows (where_ : LedgerEntry.t -> bool) (w : World)
  : list LedgerRow :=
  List.filter (fun r : LedgerRow => where_ r.2) (map_to_list (ledgerEntry w)).

(** The found rows after their update: the [k]-th row is updated with the
    data built from the [k]-th clock reading made from [w]. *)
Definition updatedRows (mk : LedgerRow -> Z -> LedgerEntryUpdateInput.t)
    (found : list LedgerRow) (w : World) : list LedgerRow :=
  imap (fun k r =>
          (r.1, LedgerEntryUpdateInput.apply
                  (mk r (clock w (ticks w + k))) r.2))
       found.

(** The columns of a ledger row that are written once, at creation: the
    amount and the currency, and with them the references, the entry type,
    the description and the creation date. *)
Definition sameWriteOnceColumns (e e' : LedgerEntry.t) : Prop :=
  LedgerEntry.amount e' = LedgerEntry.amount e
  /\ LedgerEntry.currency e' = LedgerEntry.currency e
  /\ LedgerEntry.organizationId e' = LedgerEntry.organizationId e
  /\ LedgerEntry.orderId e' = LedgerEntry.orderId e
  /\ LedgerEntry.orderItemId e' = LedgerEntry.orderItemId e
  /\ LedgerEntry.entryType e' = LedgerEntry.entryType e
  /\ LedgerEntry.description e' = LedgerEntry.description e
  /\ LedgerEntry.createdAt e' = LedgerEntry.createdAt e.

(** The ids the next [n] insertions generate. *)
Definition nextIds (w : World) (n : nat) : list string :=
  cuid w <$> seq (issued w) n.

(** Ids that are distinct and not taken in the ledger. *)
Definition idsFree (w : World) (ids : list string) : Prop :=
  NoDup ids /\ forall id, id ∈ ids -> ledgerEntry w !! id = None.

(** What the four entries of a split have in common. *)
Definition splitEntry (calculation : CommissionCalculation.t) (ord : Order.t)
    (e : LedgerEntry.t) : Prop :=
  LedgerEntry.status e = RESERVED
  /\ LedgerEntry.organizationId e = Order.organizationId ord
  /\ LedgerEntry.orderId e = Order.id ord
  /\ LedgerEntry.orderItemId e
     = Some (CommissionCalculation.orderItemId calculation)
  /\ LedgerEntry.currency e = CommissionCalculation.currency calculation
  /\ LedgerEntry.metadata e !! "appliedRuleId"
     = Some (MString (CommissionCalculation.appliedRuleId calculation))
  /\ LedgerEntry.metadata e !! "appliedRuleType"
     = Some (MString (CommissionCalculation.appliedRuleType calculation))
  /\ LedgerEntry.payoutId e = None
  /\ LedgerEntry.clearedAt e = None
  /\ LedgerEntry.paidAt e = None.

(** The total of the amounts of a list of rows. *)
Fixpoint amountsTotal (rows : list LedgerRow) : Q :=
  match rows with
  | [] => 0%Q
  | r :: rows' => (LedgerEntry.amount r.2 + amountsTotal rows')%Q
  end.

(** The rows of a list whose status is one of the given ones. *)
Definition withStatus (statuses : list LedgerEntryStatus)
    (rows : list LedgerRow) : list LedgerRow :=
  List.filter
    (fun r : LedgerRow => bool_decide (LedgerEntry.status r.2 ∈ statuses)) rows.

(** No operation of the calculation of an item with a rule rounds: every
    product, quotient and difference [calculateCommission] computes fits.
    The difference of the adjustment is computed only when the seller take
    as first computed is negative. *)
Definition exactSplit (orderItem : OrderItem.t) (rule : CommissionRule.t)
    (paymentFeePercent : Q) : Prop :=
  let subtotal := OrderItem.subtotal orderItem in
  let platformFee :=
    Decimal.div (Decimal.mul subtotal (CommissionRule.platformFeePercent rule))
      100 in
  let creatorCommission := cappedCommission rule subtotal in
  let paymentFee := Decimal.mul subtotal paymentFeePercent in
  let sellerTake :=
    naiveSellerTake subtotal platformFee creatorCommission paymentFee in
  Decimal.fits (Decimal.mul subtotal (CommissionRule.platformFeePercent rule))
  /\ Decimal.fits platformFee
  /\ Decimal.fits (Decimal.mul subtotal (CommissionRule.creatorPercent rule))
  /\ Decimal.fits
       (Decimal.div (Decimal.mul subtotal (CommissionRule.creatorPercent rule))
          100)
  /\ Decimal.fits paymentFee
  /\ Decimal.fits (Decimal.minus subtotal platformFee)
  /\ Decimal.fits
       (Decimal.minus (Decimal.minus subtotal platformFee) creatorCommission)
  /\ Decimal.fits sellerTake
  /\ (Decimal.lessThan sellerTake 0 = true ->
      Decimal.fits
        (Decimal.minus (Decimal.minus subtotal platformFee) paymentFee)).

(** No addition of [sumAmounts] over the entries rounds, in whatever order
    the query lists the entries: the running total after each entry
    fits. *)
Definition exactSum (entries : list LedgerRow) : Prop :=
  forall (listed : list LedgerRow) (k : nat),
    listed ≡ₚ entries -> Decimal.fits (sumAmounts (take k listed)).

(** No operation of the reconciliation of the commissions found rounds: the
    three sums, the expected balance and the difference. *)
Definition exactReconciliation (commissions : list LedgerRow) : Prop :=
  let paidCommissions := withStatus [PAID] commissions in
  let pendingCommissions := withStatus [RESERVED; CLEARED] commissions in
  let expectedBalance :=
    Decimal.add (sumAmounts paidCommissions) (sumAmounts pendingCommissions) in
  exactSum commissions
  /\ exactSum paidCommissions
  /\ exactSum pendingCommissions
  /\ Decimal.fits expectedBalance
  /\ Decimal.fits (Decimal.sub (sumAmounts commissions) expectedBalance).

(* ================================================================== *)
(** ** Concrete worlds used in the examples *)

Module Examples.

(** An active rule of organization [org1], valid from 0 to 1000. *)
Definition rule (id : string) (type : CommissionRuleType)
    (campaignId skuId productId : option string)
    (creatorPercent platformFeePercent : Q)
    (minCommission maxCommission : option Q) : CommissionRule.t :=
  {| CommissionRule.id := id;
     CommissionRule.organizationId := "org1";
     CommissionRule.type := type;
     CommissionRule.campaignId := campaignId;
     CommissionRule.skuId := skuId;
     CommissionRule.productId := productId;
     CommissionRule.creatorPercent := creatorPercent;
     CommissionRule.platformFeePercent := platformFeePercent;
     CommissionRule.minCommission := minCommission;
     CommissionRule.maxCommission := maxCommission;
     CommissionRule.currency := "USD";
     CommissionRule.isActive := true;
     CommissionRule.startDate := Some 0%Z;
     CommissionRule.endDate := Some 1000%Z |}.

Definition defaultRule (creatorPercent platformFeePercent : Q)
    (minCommission maxCommission : option Q) : CommissionRule.t :=
  rule "rule-default" DEFAULT None None None creatorPercent
    platformFeePercent minCommission maxCommission.

(** The clock reads 500, 501, 502, ...; the generated ids are [new0],
    [new1], ... *)
Definition world (rules : list CommissionRule.t)
    (ledger : gmap string LedgerEntry.t) : World :=
  {| commissionRule := rules;
     order := ∅;
     campaign := ∅;
     ledgerEntry := ledger;
     clock := fun n => (500 + Z.of_nat n)%Z;
     ticks := 0;
     cuid := fun n => "new" +:+ pretty n;
     issued := 0 |}.

Definition worldScenarioA : World :=
  world [defaultRule 10 5 None None] ∅.

Definition worldScenarioB : World :=
  world [defaultRule 60 50 None None] ∅.

(** Creator 10% with a minimum commission of 6, platform fee 50%. *)
Definition worldMinCommission : World :=
  world [defaultRule 10 50 (Some 6%Q) None] ∅.

(** A platform fee of 100%. *)
Definition worldFullFee : World :=
  world [defaultRule 10 100 None None] ∅.

Definition campaignRule1 : CommissionRule.t :=
  rule "rule-campaign" CAMPAIGN (Some "campaign1") None None 15 5 None None.

Definition skuRule1 : CommissionRule.t :=
  rule "rule-sku" SKU None (Some "sku1") None 20 5 None None.

(** The DEFAULT rule comes first in table order. *)
Definition worldThreeRules : World :=
  world [defaultRule 10 5 None None; skuRule1; campaignRule1] ∅.

(** An active CAMPAIGN rule of [campaign1] that started at 0 and has no end
    date. *)
Definition openEndedCampaignRule : CommissionRule.t :=
  {| CommissionRule.id := "rule-campaign-open";
     CommissionRule.organizationId := "org1";
     CommissionRule.type := CAMPAIGN;
     CommissionRule.campaignId := Some "campaign1";
     CommissionRule.skuId := None;
     CommissionRule.productId := None;
     CommissionRule.creatorPercent := 15;
     CommissionRule.platformFeePercent := 5;
     CommissionRule.minCommission := None;
     CommissionRule.maxCommission := None;
     CommissionRule.currency := "USD";
     CommissionRule.isActive := true;
     CommissionRule.startDate := Some 0%Z;
     CommissionRule.endDate := None |}.

(** The open-ended CAMPAIGN rule and a DEFAULT rule valid from 0 to 1000. *)
Definition worldOpenEndedCampaign : World :=
  world [openEndedCampaignRule; defaultRule 10 5 None None] ∅.

(** A DEFAULT rule that is switched off and an SKU rule that ended at
    time 100, before the first clock reading. *)
Definition worldNoActiveRule : World :=
  world
    [ {| CommissionRule.id := "rule-off";
         CommissionRule.organizationId := "org1";
         CommissionRule.type := DEFAULT;
         CommissionRule.campaignId := None;
         CommissionRule.skuId := None;
         CommissionRule.productId := None;
         CommissionRule.creatorPercent := 10;
         CommissionRule.platformFeePercent := 5;
         CommissionRule.minCommission := None;
         CommissionRule.maxCommission := None;
         CommissionRule.currency := "USD";
         CommissionRule.isActive := false;
         CommissionRule.startDate := Some 0%Z;
         CommissionRule.endDate := Some 1000%Z |};
      {| CommissionRule.id := "rule-ended";
         CommissionRule.organizationId := "org1";
         CommissionRule.type := SKU;
         CommissionRule.campaignId := None;
         CommissionRule.skuId := Some "sku1";
         CommissionRule.productId := None;
         CommissionRule.creatorPercent := 20;
         CommissionRule.platformFeePercent := 5;
         CommissionRule.minCommission := None;
         CommissionRule.maxCommission := None;
         CommissionRule.currency := "USD";
         CommissionRule.isActive := true;
         CommissionRule.startDate := Some 0%Z;
         CommissionRule.endDate := Some 100%Z |} ] ∅.

Definition order1 : Order.t :=
  {| Order.id := "order1";
     Order.organizationId := "org1";
     Order.currency := "USD";
     Order.orderItems := [] |}.

Definition item (subtotal : Q) : OrderItem.t :=
  {| OrderItem.id := "item1";
     OrderItem.skuId := "sku1";
     OrderItem.subtotal := subtotal;
     OrderItem.order := order1;
     OrderItem.sku_productId := "product1" |}.

Definition entry (orderId : string) (entryType : LedgerEntryType)
    (amount : Q) (status : LedgerEntryStatus) (createdAt : Z)
  : LedgerEntry.t :=
  {| LedgerEntry.organizationId := "org1";
     LedgerEntry.orderId := orderId;
     LedgerEntry.orderItemId := Some "item1";
     LedgerEntry.payoutId := None;
     LedgerEntry.entryType := entryType;
     LedgerEntry.amount := amount;
     LedgerEntry.currency := "USD";
     LedgerEntry.description := None;
     LedgerEntry.status := status;
     LedgerEntry.metadata := ∅;
     LedgerEntry.createdAt := createdAt;
     LedgerEntry.clearedAt := None;
     LedgerEntry.paidAt := None |}.

(** Two RESERVED entries of [order1], one PAID entry of [order1] and one
    RESERVED entry of another order. *)
Definition ledger1 : gmap string LedgerEntry.t :=
  {[ "e1" := entry "order1" SALE 100 RESERVED 10;
     "e2" := entry "order1" COMMISSION 10 RESERVED 10;
     "e3" := entry "order1" COMMISSION 7 PAID 5;
     "e4" := entry "order2" COMMISSION 3 RESERVED 20 ]}.

Definition worldLedger1 : World := world [] ledger1.

(** Commission entries of [org1]: one PAID, one CLEARED and one
    CANCELLED. *)
Definition ledger2 : gmap string LedgerEntry.t :=
  {[ "c1" := entry "order1" COMMISSION 7 PAID 10;
     "c2" := entry "order2" COMMISSION 3 CLEARED 20;
     "c3" := entry "order3" COMMISSION 5 CANCELLED 30 ]}.

Definition worldLedger2 : World := world [] ledger2.

(** The calculation of scenario A. *)
Definition calculationA : CommissionCalculation.t :=
  commissionSplit (item 100) (defaultRule 10 5 None None) 0.029%Q.

(** A ledger in which the third id to be generated, [new2], is taken. *)
Definition worldIdTaken : World :=
  world [] {[ "new2" := entry "order0" SALE 1 PAID 1 ]}.

End Examples.

(* ================================================================== *)
(** ** Pending commissions of a creator *)

#[global] Instance MetaValue_eq_dec : EqDecision MetaValue.
Proof. solve_decision. Defined.

Module PendingCommissions.
Record t := mk {
  totalAmount : Q;
  currency : string;
  commissions : list LedgerRow
}.
End PendingCommissions.

(** [orderBy: { createdAt: 'asc' }] *)
Definition createdAtAsc (a b : LedgerRow) : Prop :=
  (LedgerEntry.createdAt a.2 <= LedgerEntry.createdAt b.2)%Z.

#[global] Instance createdAtAsc_dec (a b : LedgerRow) : Decision (createdAtAsc a b).
Proof. unfold createdAtAsc. apply _. Defined.

(** [ledgerEntry.findMany({ where, orderBy: { createdAt: 'asc' } })] *)
Definition ledgerEntry_findManyOrderByCreatedAt
    (where_ : LedgerEntry.t -> bool) : M (list LedgerRow) :=
  fun w =>
    (Ok (merge_sort createdAtAsc
           (List.filter (fun r : LedgerRow => where_ r.2)
              (map_to_list (ledgerEntry w)))), w).

(** The [where] clause of [getPendingCreatorCommissions]: the CLEARED
    commission entries whose metadata names the creator, in the given
    currency when one is given.  Under [creatorId] the service stores the
    creator id as a plain string. *)
Definition pendingWhere (creatorId : string) (currency : option string)
    (e : LedgerEntry.t) : bool :=
  bool_decide (LedgerEntry.entryType e = COMMISSION)
  && bool_decide (LedgerEntry.status e = CLEARED)
  && bool_decide (LedgerEntry.metadata e !! "creatorId"
                  = Some (MString creatorId))
  && (if truthy currency
      then bool_decide (LedgerEntry.currency e = default "" currency)
      else true).

(** The names every object inherits from [Object.prototype]. *)
Definition objectPrototypeKeys : list string :=
  [ "constructor"; "__defineGetter__"; "__defineSetter__"; "hasOwnProperty";
    "__lookupGetter__"; "__lookupSetter__"; "isPrototypeOf";
    "propertyIsEnumerable"; "toString"; "valueOf"; "__proto__";
    "toLocaleString" ].

(** One step of the grouping by currency.  The accumulator is an object
    that starts as [{}], kept as the list of its own properties in the
    order they were created.  The group of the currency is created at 0
    when [acc[currency]] is falsy, then the amount is added to it.  For a
    currency that is a name inherited from [Object.prototype], [acc[currency]]
    is the inherited value, which is truthy and has no [add] method: the
    call of [add] throws a [TypeError] ([None]). *)
Fixpoint addToCurrencyGroup (acc : list (string * Q)) (currency : string)
    (amount : Q) : option (list (string * Q)) :=
  match acc with
  | [] =>
      if bool_decide (currency ∈ objectPrototypeKeys) then None
      else Some [(currency, Decimal.add 0 amount)]
  | (c, total) :: acc' =>
      if bool_decide (c = currency)
      then Some ((c, Decimal.add total amount) :: acc')
      else cons (c, total) <$> addToCurrencyGroup acc' currency amount
  end.

(** The [reduce] that groups the commissions by currency: [None] when a
    step throws. *)
Definition currencyGroups (commissions : list LedgerRow)
  : option (list (string * Q)) :=
  fold_left
    (fun acc (entry : LedgerRow) =>
       acc ≫= fun acc =>
         addToCurrencyGroup acc (LedgerEntry.currency entry.2)
           (LedgerEntry.amount entry.2))
    commissions (Some []).

(** The value of a string of decimal digits, after the digits already
    read; [None] when a character is not a digit. *)
Fixpoint decimalValue (s : string) (read : N) : option N :=
  match s with
  | String a r =>
      let a := Ascii.N_of_ascii a in
      if (48 <=? a)%N && (a <=? 57)%N then decimalValue r (10 * read + (a - 48))
      else None
  | EmptyString => Some read
  end.

(** The array index a property key is, if it is one: the key is the
    decimal representation, without leading zeros, of an integer below
    [2^32 - 1]. *)
Definition arrayIndex (key : string) : option N :=
  match decimalValue key 0 with
  | Some n =>
      if bool_decide (pretty n = key) && (n <? 4294967295)%N then Some n
      else None
  | None => None
  end.

(** Keys that are array indices, by ascending index. *)
Definition indexAsc (a b : string * Q) : Prop :=
  (default 0 (arrayIndex a.1) <= default 0 (arrayIndex b.1))%N.

#[global] Instance indexAsc_dec (a b : string * Q) : Decision (indexAsc a b).
Proof. unfold indexAsc. apply _. Defined.

(** [Object.entries]: the own properties whose keys are array indices, by
    ascending index, then the other own properties in the order they were
    created. *)
Definition objectEntries (own : list (string * Q)) : list (string * Q) :=
  merge_sort indexAsc
    (List.filter (fun p : string * Q => bool_decide (is_Some (arrayIndex p.1)))
       own)
  ++ List.filter
       (fun p : string * Q => negb (bool_decide (is_Some (arrayIndex p.1))))
       own.

(** [commissions[0]?.currency || 'USD'] *)
Definition firstCurrencyOrUSD (commissions : list LedgerRow) : string :=
  match commissions with
  | entry :: _ =>
      if bool_decide (LedgerEntry.currency entry.2 = "") then "USD"
      else LedgerEntry.currency entry.2
  | [] => "USD"
  end.

Section CurrencyService.

(** [currencyService.convert(amount, fromCurrency, toCurrency)]: the
    currency service is not part of the sources, its conversion is a
    parameter. *)
Variable convert : Q -> string -> string -> M Q.

(** The loop that converts every group to the target currency and sums. *)
Fixpoint convertCurrencyGroups (targetCurrency : string)
    (groups : list (string * Q)) (convertedTotal : Q) : M Q :=
  match groups with
  | [] => ret convertedTotal
  | (fromCurrency, amount) :: groups' =>
      if bool_decide (fromCurrency = targetCurrency) then
        convertCurrencyGroups targetCurrency groups'
          (Decimal.add convertedTotal amount)
      else
        convertedAmount <- convert amount fromCurrency targetCurrency ;;
        convertCurrencyGroups targetCurrency groups'
          (Decimal.add convertedTotal convertedAmount)
  end.

(** Get pending commissions for a creator: all CLEARED commissions that
    have not been paid out.  Whatever is thrown inside, by the grouping or
    by the currency service, is caught and thrown as the internal error
    [COMMISSION_FETCH_FAILED]. *)
Definition getPendingCreatorCommissions (creatorId : string)
    (currency : option string) : M PendingCommissions.t :=
  try_catch
    (commissions <-
       ledgerEntry_findManyOrderByCreatedAt (pendingWhere creatorId currency) ;;
     let totalAmount := sumAmounts commissions in
     let targetCurrency :=
       if truthy currency then default "" currency
       else firstCurrencyOrUSD commissions in
     if negb (truthy currency)
        && existsb (fun entry : LedgerRow =>
                      negb (bool_decide
                              (LedgerEntry.currency entry.2 = targetCurrency)))
             commissions
     then
       match currencyGroups commissions with
       | None => throw (TypeError "acc[entry.currency].add is not a function")
       | Some currencyGroups =>
           convertedTotal <-
             convertCurrencyGroups targetCurrency
               (objectEntries currencyGroups) 0%Q ;;
           ret {| PendingCommissions.totalAmount := convertedTotal;
                  PendingCommissions.currency := targetCurrency;
                  PendingCommissions.commissions := commissions |}
       end
     else
       ret {| PendingCommissions.totalAmount := totalAmount;
              PendingCommissions.currency := targetCurrency;
              PendingCommissions.commissions := commissions |})
    (fun error =>
       throw (AppError InternalServerError "COMMISSION_FETCH_FAILED")).

End CurrencyService.

(** A currency service that converts at fixed rates and never fails. *)
Definition convertAtRates (rate : string -> string -> Q)
  : Q -> string -> string -> M Q :=
  fun amount fromCurrency toCurrency =>
    ret (amount * rate fromCurrency toCurrency)%Q.

(* ================================================================== *)
(** ** Further concrete worlds *)

Module Scenarios.

(** A commission entry of [org1] with the creator id in its metadata. *)
Definition commission (orderId : string) (amount : Q) (currency : string)
    (status : LedgerEntryStatus) (createdAt : Z) (creatorId : string)
  : LedgerEntry.t :=
  {| LedgerEntry.organizationId := "org1";
     LedgerEntry.orderId := orderId;
     LedgerEntry.orderItemId := Some "item1";
     LedgerEntry.payoutId := None;
     LedgerEntry.entryType := COMMISSION;
     LedgerEntry.amount := amount;
     LedgerEntry.currency := currency;
     LedgerEntry.description := None;
     LedgerEntry.status := status;
     LedgerEntry.metadata := {[ "creatorId" := MString creatorId ]};
     LedgerEntry.createdAt := createdAt;
     LedgerEntry.clearedAt := None;
     LedgerEntry.paidAt := None |}.

(** Three CLEARED commissions of [creator1] of 10, 20 and 30 USD, created
    at 30, 10 and 20; one CLEARED commission of [creator2]; one RESERVED
    commission of [creator1]. *)
Definition ledgerPending : gmap string LedgerEntry.t :=
  {[ "p1" := commission "order1" 10 "USD" CLEARED 30 "creator1";
     "p2" := commission "order2" 20 "USD" CLEARED 10 "creator1";
     "p3" := commission "order3" 30 "USD" CLEARED 20 "creator1";
     "p4" := commission "order4" 40 "USD" CLEARED 15 "creator2";
     "p5" := commission "order5" 50 "USD" RESERVED 5 "creator1" ]}.

Definition worldPending : World := Examples.world [] ledgerPending.

(** CLEARED commissions of [creator1] in two currencies: 10 USD created at
    10, then 100 and 50 MYR. *)
Definition ledgerMixed : gmap string LedgerEntry.t :=
  {[ "m1" := commission "order1" 10 "USD" CLEARED 10 "creator1";
     "m2" := commission "order2" 100 "MYR" CLEARED 20 "creator1";
     "m3" := commission "order3" 50 "MYR" CLEARED 30 "creator1" ]}.

Definition worldMixed : World := Examples.world [] ledgerMixed.

(** CLEARED commissions of [creator1] in USD and in a currency whose code
    is the name of an inherited property. *)
Definition ledgerInherited : gmap string LedgerEntry.t :=
  {[ "i1" := commission "order1" 10 "USD" CLEARED 10 "creator1";
     "i2" := commission "order2" 5 "constructor" CLEARED 20 "creator1" ]}.

Definition worldInherited : World := Examples.world [] ledgerInherited.

(** CLEARED commissions of [creator1] in USD, then in MYR, then in the
    currencies of numeric codes 840 and 36. *)
Definition ledgerNumeric : gmap string LedgerEntry.t :=
  {[ "n1" := commission "order1" 10 "USD" CLEARED 10 "creator1";
     "n2" := commission "order2" 100 "MYR" CLEARED 20 "creator1";
     "n3" := commission "order3" 7 "840" CLEARED 30 "creator1";
     "n4" := commission "order4" 3 "36" CLEARED 40 "creator1" ]}.

Definition worldNumeric : World := Examples.world [] ledgerNumeric.

(** A quarter of a dollar for a ringgit. *)
Definition rates (fromCurrency toCurrency : string) : Q :=
  if bool_decide (fromCurrency = "MYR") && bool_decide (toCurrency = "USD")
  then 0.25%Q else 1%Q.

(** An order of two items: the first of SKU [sku1], the second of SKU
    [sku2]. *)
Definition itemRow1 : OrderItemRow.t :=
  {| OrderItemRow.id := "item1";
     OrderItemRow.skuId := "sku1";
     OrderItemRow.subtotal := 100;
     OrderItemRow.sku_productId := "product1" |}.

Definition itemRow2 : OrderItemRow.t :=
  {| OrderItemRow.id := "item2";
     OrderItemRow.skuId := "sku2";
     OrderItemRow.subtotal := 50;
     OrderItemRow.sku_productId := "product2" |}.

Definition orderOfTwo : Order.t :=
  {| Order.id := "order1";
     Order.organizationId := "org1";
     Order.currency := "USD";
     Order.orderItems := [itemRow1; itemRow2] |}.

(** The item of SKU [sku2] as the resolver receives it. *)
Definition item2 : OrderItem.t := OrderItem.withOrder itemRow2 orderOfTwo.

Definition worldOfOrder (rules : list CommissionRule.t) : World :=
  {| commissionRule := rules;
     order := {[ "order1" := orderOfTwo ]};
     campaign := {[ "campaign1" := {| Campaign.creatorId := "creator1" |} ]};
     ledgerEntry := ∅;
     clock := fun n => (500 + Z.of_nat n)%Z;
     ticks := 0;
     cuid := fun n => "new" +:+ pretty n;
     issued := 0 |}.

(** The order with a DEFAULT rule: both items resolve. *)
Definition worldOrderDefault : World :=
  worldOfOrder [Examples.defaultRule 10 5 None None].

(** The order with an SKU rule for [sku1] only: the second item has no
    rule. *)
Definition worldOrderSkuOnly : World :=
  worldOfOrder [Examples.skuRule1].

(** Creator 60% capped at a maximum commission of 3, platform fee 5%. *)
Definition worldMaxCommission : World :=
  Examples.world [Examples.defaultRule 60 5 None (Some 3%Q)] ∅.

End Scenarios.

(* ================================================================== *)
(** ** Definitions used to state further properties *)

(** A scan of a list of tiers in order: the first match of the first tier
    that has one, and the number of tiers queried.  The query of a tier is
    built with the next two clock readings, starting from reading [n]. *)
Fixpoint scanTiers (w : World) (orderItem : OrderItem.t)
    (campaignId : option string) (tiers : list CommissionRuleType) (n : nat)
  : option CommissionRule.t * nat :=
  match tiers with
  | [] => (None, 0)
  | tier :: tiers' =>
      match List.find
              (tierWhere tier orderItem campaignId (clock w n) (clock w (S n)))
              (commissionRule w) with
      | Some rule => (Some rule, 1)
      | None =>
          let (found, queried) :=
            scanTiers w orderItem campaignId tiers' (S (S n)) in
          (found, S queried)
      end
  end.

(** The scope reference of a rule that a tier compares. *)
Definition scopeMatches (tier : CommissionRuleType) (orderItem : OrderItem.t)
    (campaignId : option string) (rule : CommissionRule.t) : Prop :=
  match tier with
  | CAMPAIGN => CommissionRule.campaignId rule = Some (default "" campaignId)
  | SKU => CommissionRule.skuId rule = Some (OrderItem.skuId orderItem)
  | PRODUCT =>
      CommissionRule.productId rule = Some (OrderItem.sku_productId orderItem)
  | DEFAULT => True
  end.

(** The tables other than the ledger, the clock and the id generator are
    the same in two worlds. *)
Definition sameTables (w w' : World) : Prop :=
  commissionRule w' = commissionRule w
  /\ order w' = order w
  /\ campaign w' = campaign w
  /\ clock w' = clock w
  /\ cuid w' = cuid w.

(** A new entry of a split of the order, present in the ledger [ledger']
    and absent from the ledger [ledger]: it is RESERVED, carries the id, the
    organization and the currency of the order and, when it is the
    COMMISSION entry, the creator id in its metadata. *)
Definition newSplitEntry (ord : Order.t) (creatorId : string)
    (ledger ledger' : gmap string LedgerEntry.t) (r : LedgerRow) : Prop :=
  ledger' !! r.1 = Some r.2
  /\ ledger !! r.1 = None
  /\ LedgerEntry.status r.2 = RESERVED
  /\ LedgerEntry.orderId r.2 = Order.id ord
  /\ LedgerEntry.organizationId r.2 = Order.organizationId ord
  /\ LedgerEntry.currency r.2 = Order.currency ord
  /\ (LedgerEntry.entryType r.2 = COMMISSION ->
      LedgerEntry.metadata r.2 !! "creatorId" = Some (MString creatorId)).

(** The entry types and amounts of the four entries of a calculation. *)
Definition splitAmounts (calculation : CommissionCalculation.t)
  : list (LedgerEntryType * Q) :=
  [ (SALE, CommissionCalculation.subtotal calculation);
    (PLATFORM_FEE, CommissionCalculation.platformFee calculation);
    (COMMISSION, CommissionCalculation.creatorCommission calculation);
    (PAYMENT_FEE, CommissionCalculation.paymentFee calculation) ].

(** The entry type and the amount of a row. *)
Definition typeAndAmount (r : LedgerRow) : LedgerEntryType * Q :=
  (LedgerEntry.entryType r.2, LedgerEntry.amount r.2).

(** The percentages of a rule and its maximum commission, when it has one,
    are not negative. *)
Definition nonNegativeRule (rule : CommissionRule.t) : Prop :=
  (0 <= CommissionRule.platformFeePercent rule)%Q
  /\ (0 <= CommissionRule.creatorPercent rule)%Q
  /\ (forall maxCommission,
        CommissionRule.maxCommission rule = Some maxCommission ->
        (0 <= maxCommission)%Q).

(** The sum of the four amounts a calculation distributes. *)
Definition distributed (calc : CommissionCalculation.t) : Q :=
  (CommissionCalculation.platformFee calc
   + CommissionCalculation.creatorCommission calc
   + CommissionCalculation.paymentFee calc
   + CommissionCalculation.sellerTake calc)%Q.

(** The ledgers before and after hold the same ids, and each entry has the
    columns that are written once as before. *)
Definition sameEntries (ledger ledger' : gmap string LedgerEntry.t) : Prop :=
  forall id,
    option_Forall2 sameWriteOnceColumns (ledger !! id) (ledger' !! id).

(* ================================================================== *)
(** ** Error objects (utils/errors.ts) *)

(** The values that are put in the [details] of an error. *)
#[warnings="-register-all"] Inductive Json :=
  | JUndefined
  | JString (s : string)
  | JObject (fields : list (string * Json))
  | JArray (items : list Json).

Module ErrorObject.
(** An instance of [AppError]; [cls] is the subclass that built it, [None]
    for an instance of the base class itself. *)
Record t := mk {
  cls : option ErrorClass;
  message : string;
  statusCode : Z;
  errorCode : option string;
  details : Json;
  isOperational : bool
}.
End ErrorObject.

(** The default message of each subclass constructor. *)
Definition defaultMessage (c : ErrorClass) : string :=
  match c with
  | BadRequestError => "Bad request"
  | ValidationError => "Validation failed"
  | UnauthorizedError => "Authentication required"
  | ForbiddenError => "Permission denied"
  | NotFoundError => "Resource not found"
  | ConflictError => "Resource conflict"
  | RateLimitError => "Too many requests"
  | InternalServerError => "Internal server error"
  | ExternalServiceError => "External service error"
  | ServiceUnavailableError => "Service temporarily unavailable"
  end.

(** The error code each subclass constructor falls back to. *)
Definition defaultErrorCode (c : ErrorClass) : string :=
  match c with
  | BadRequestError => "BAD_REQUEST"
  | ValidationError => "VALIDATION_ERROR"
  | UnauthorizedError => "UNAUTHORIZED"
  | ForbiddenError => "FORBIDDEN"
  | NotFoundError => "NOT_FOUND"
  | ConflictError => "CONFLICT"
  | RateLimitError => "RATE_LIMIT"
  | InternalServerError => "INTERNAL_SERVER_ERROR"
  | ExternalServiceError => "EXTERNAL_SERVICE_ERROR"
  | ServiceUnavailableError => "SERVICE_UNAVAILABLE"
  end.

(** The [isOperational] argument each subclass constructor passes on: the
    three server errors pass [false], the others leave the default. *)
Definition isOperationalArgument (c : ErrorClass) : option bool :=
  match c with
  | InternalServerError | ExternalServiceError | ServiceUnavailableError =>
      Some false
  | _ => None
  end.

(** The constructor of [AppError]; [isOperational] defaults to [true]. *)
Definition newAppError (message : string) (statusCode : Z)
    (errorCode : option string) (details : Json) (isOperational : option bool)
  : ErrorObject.t :=
  {| ErrorObject.cls := None;
     ErrorObject.message := message;
     ErrorObject.statusCode := statusCode;
     ErrorObject.errorCode := errorCode;
     ErrorObject.details := details;
     ErrorObject.isOperational := default true isOperational |}.

(** The constructor of a subclass:
    [super(message, status, errorCode || code, details)] with the default
    message of the class when none is given. *)
Definition newError (c : ErrorClass) (message errorCode : option string)
    (details : Json) : ErrorObject.t :=
  let super :=
    newAppError (default (defaultMessage c) message) (statusCode c)
      (Some (if truthy errorCode then default "" errorCode
             else defaultErrorCode c))
      details (isOperationalArgument c) in
  {| ErrorObject.cls := Some c;
     ErrorObject.message := ErrorObject.message super;
     ErrorObject.statusCode := ErrorObject.statusCode super;
     ErrorObject.errorCode := ErrorObject.errorCode super;
     ErrorObject.details := ErrorObject.details super;
     ErrorObject.isOperational := ErrorObject.isOperational super |}.

Module ZodIssue.
Inductive PathElement := Key (k : string) | Index (i : N).
Record t := mk {
  path : list PathElement;
  message : string;
  code : string
}.
End ZodIssue.

Module Thrown.
(** What a request handler can throw: an [AppError], a known request error
    of the persistence client with its code and the [target] of its
    [meta], a [ZodError] with its issues, or any other [Error]. *)
Inductive Kind :=
  | OfAppError (e : ErrorObject.t)
  | OfPrismaClientKnownRequestError (code : string)
      (target : option (list string)) (message : string)
  | OfZodError (issues : list ZodIssue.t) (message : string)
  | OfError (message : string).

Record t := mk {
  kind : Kind;
  stack : option string
}.

(** [err.message] *)
Definition message (err : t) : string :=
  match kind err with
  | OfAppError e => ErrorObject.message e
  | OfPrismaClientKnownRequestError _ _ message => message
  | OfZodError _ message => message
  | OfError message => message
  end.
End Thrown.

(** [isAppError]: [error instanceof AppError]. *)
Definition isAppError (err : Thrown.t) : bool :=
  match Thrown.kind err with
  | Thrown.OfAppError _ => true
  | _ => false
  end.

(** [toAppError], for a thrown value that may not be an [Error] at all
    ([None]). *)
Definition toAppError (error : option Thrown.t) : ErrorObject.t :=
  match error with
  | Some err =>
      match Thrown.kind err with
      | Thrown.OfAppError e => e
      | _ =>
          newError InternalServerError (Some (Thrown.message err)) None
            JUndefined
      end
  | None =>
      newError InternalServerError (Some "An unknown error occurred") None
        JUndefined
  end.

(* ================================================================== *)
(** ** The error middleware *)

(** [a || b] on strings that may be undefined. *)
Definition orElse (a : option string) (b : string) : string :=
  if truthy a then default "" a else b.

(** [{ field, code }] *)
Definition fieldAndCode (field : option string) (code : string) : Json :=
  JObject [("field", from_option JString JUndefined field);
           ("code", JString code)].

(** Handles database errors and converts them to application errors. *)
Definition handlePrismaError (code : string) (target : option (list string))
  : ErrorObject.t :=
  let target := default [] target in
  let field := head target in
  if bool_decide (code = "P2002") then
    newError ConflictError
      (Some ("A record with this " +:+ orElse field "value"
             +:+ " already exists."))
      (Some "UNIQUE_CONSTRAINT_VIOLATION") (fieldAndCode field code)
  else if bool_decide (code = "P2025") then
    newError NotFoundError (Some "The requested record was not found.")
      (Some "RECORD_NOT_FOUND") (JObject [("code", JString code)])
  else if bool_decide (code = "P2003") then
    newError ValidationError
      (Some ("Invalid reference to " +:+ orElse field "related record"
             +:+ "."))
      (Some "FOREIGN_KEY_VIOLATION") (fieldAndCode field code)
  else if bool_decide (code = "P2000") then
    newError ValidationError
      (Some ("The provided value for " +:+ orElse field "a field"
             +:+ " is too long."))
      (Some "VALUE_TOO_LONG") (fieldAndCode field code)
  else if bool_decide (code = "P2004") then
    newError ValidationError
      (Some ("A required field " +:+ orElse field "" +:+ " is missing."))
      (Some "REQUIRED_FIELD_MISSING") (fieldAndCode field code)
  else
    newError InternalServerError (Some "A database error occurred.")
      (Some "DATABASE_ERROR") (JObject [("code", JString code)]).

(** [path.join('.')] *)
Definition joinPath (path : list ZodIssue.PathElement) : string :=
  let show (p : ZodIssue.PathElement) : string :=
    match p with
    | ZodIssue.Key k => k
    | ZodIssue.Index i => pretty i
    end in
  match path with
  | [] => ""
  | p :: path' =>
      fold_left (fun joined q => joined +:+ "." +:+ show q) path' (show p)
  end.

(** Handles validation errors of the schema library. *)
Definition handleZodError (issues : list ZodIssue.t) : ErrorObject.t :=
  let formattedErrors :=
    (fun err =>
       JObject [("path", JString (joinPath (ZodIssue.path err)));
                ("message", JString (ZodIssue.message err));
                ("code", JString (ZodIssue.code err))]) <$> issues in
  newError ValidationError (Some "Validation failed") (Some "VALIDATION_ERROR")
    (JArray formattedErrors).

Inductive LogLevel := LogError | LogWarn.

Module ErrorResponse.
(** The body of the response as it is serialised: a key whose value is
    undefined is not part of the JSON that is sent, like a key that was
    never set. *)
Record t := mk {
  status : string;
  statusCode : Z;
  errorId : string;
  message : string;
  code : option string;
  requestId : option string;
  details : Json;
  stack : option string
}.
End ErrorResponse.

Module Handled.
(** What the handler does with an error: the level it logs at, the status
    of the response and its body. *)
Record t := mk {
  logLevel : LogLevel;
  status : Z;
  json : ErrorResponse.t
}.
End Handled.

(** The main error handler.  [nodeEnv] is [process.env.NODE_ENV], [errorId]
    the identifier generated for the error, [requestId] the [x-request-id]
    header of the request. *)
Definition errorHandler (nodeEnv : option string) (errorId : string)
    (err : Thrown.t) (requestId : option string) : Handled.t :=
  let appError :=
    match Thrown.kind err with
    | Thrown.OfAppError e => e
    | Thrown.OfPrismaClientKnownRequestError code target _ =>
        handlePrismaError code target
    | Thrown.OfZodError issues _ => handleZodError issues
    | Thrown.OfError message =>
        newError InternalServerError
          (Some (orElse (Some message) "An unexpected error occurred"))
          (Some "INTERNAL_SERVER_ERROR") JUndefined
    end in
  let logLevel :=
    if (500 <=? ErrorObject.statusCode appError)%Z then LogError else LogWarn in
  let notProduction := negb (bool_decide (nodeEnv = Some "production")) in
  {| Handled.logLevel := logLevel;
     Handled.status := ErrorObject.statusCode appError;
     Handled.json :=
       {| ErrorResponse.status := "error";
          ErrorResponse.statusCode := ErrorObject.statusCode appError;
          ErrorResponse.errorId := errorId;
          ErrorResponse.message := ErrorObject.message appError;
          ErrorResponse.code := ErrorObject.errorCode appError;
          ErrorResponse.requestId :=
            if truthy requestId then requestId else None;
          ErrorResponse.details :=
            if notProduction
               || bool_decide (ErrorObject.cls appError = Some ValidationError)
            then ErrorObject.details appError else JUndefined;
          ErrorResponse.stack :=
            if notProduction then Thrown.stack err else None |} |}.

(** The error object a method of the service throws for a failure of the
    model, with the message, the details and the stack it is given. *)
Definition thrown (e : Exn) (message : string) (details : Json)
    (stack : option string) : Thrown.t :=
  {| Thrown.kind :=
       match e with
       | AppError cls errorCode =>
           Thrown.OfAppError
             (newError cls (Some message) (Some errorCode) details)
       | PrismaError code =>
           Thrown.OfPrismaClientKnownRequestError code None message
       | TypeError typeMessage => Thrown.OfError typeMessage
       end;
     Thrown.stack := stack |}.

(** A failure of one of the six methods whose body is a [try] with a
    [catch] that throws the error of the method: the method, called with
    some arguments in some world, throws the error. *)
Inductive serviceFailure (convert : Q -> string -> string -> M Q)
  : Exn -> Prop :=
  | createLedgerEntries_fails calculation ord creatorId w e w' :
      createLedgerEntries calculation ord creatorId w = (Err e, w') ->
      serviceFailure convert e
  | clearLedgerEntries_fails orderId w e w' :
      clearLedgerEntries orderId w = (Err e, w') ->
      serviceFailure convert e
  | cancelLedgerEntries_fails orderId reason w e w' :
      cancelLedgerEntries orderId reason w = (Err e, w') ->
      serviceFailure convert e
  | getPendingCreatorCommissions_fails creatorId currency w e w' :
      getPendingCreatorCommissions convert creatorId currency w = (Err e, w') ->
      serviceFailure convert e
  | markCommissionsAsPaid_fails commissionIds payoutId w e w' :
      markCommissionsAsPaid commissionIds payoutId w = (Err e, w') ->
      serviceFailure convert e
  | reconcileCommissions_fails organizationId startDate endDate w e w' :
      reconcileCommissions organizationId startDate endDate w = (Err e, w') ->
      serviceFailure convert e.

(** The error codes of the six methods; the class of each is
    [InternalServerError]. *)
Definition serviceErrorCodes : list string :=
  [ "LEDGER_ENTRY_CREATION_FAILED";
    "LEDGER_ENTRY_CLEARING_FAILED";
    "LEDGER_ENTRY_CANCELLATION_FAILED";
    "COMMISSION_FETCH_FAILED";
    "COMMISSION_PAYMENT_UPDATE_FAILED";
    "COMMISSION_RECONCILIATION_FAILED" ].

(* ================================================================== *)
(** ** Environment validation (utils/validateEnv.ts) *)

Definition requiredEnvVars : list string :=
  ["DATABASE_URL"; "REDIS_URL"; "NODE_ENV"; "API_PORT"; "LOG_LEVEL"].

Definition optionalEnvVars : list string :=
  ["ENCRYPTION_KEY"; "CORS_ALLOWED_ORIGINS"; "RATE_LIMIT_WINDOW_MS";
   "RATE_LIMIT_MAX"; "ENABLE_SWAGGER"; "FEATURE_USE_MOCK_CONNECTORS"].

(** How a check at start-up ends: it returns, or the process exits with a
    status after an error was logged with its arguments. *)
Inductive Startup (A : Type) :=
  | Returns (a : A)
  | Exits (status : Z) (logged : string) (arguments : list string).
Arguments Returns {A} a.
Arguments Exits {A} status logged arguments.

(** What comes next runs only when the process has not exited. *)
Definition andThen {A B} (check : Startup A) (next : A -> Startup B)
  : Startup B :=
  match check with
  | Returns a => next a
  | Exits status logged arguments => Exits status logged arguments
  end.

(** [s.startsWith(prefix)] *)
Definition startsWith (s prefix : string) : bool := String.prefix prefix s.

(** The white space and line terminators that [parseInt] skips, on the
    bytes of the UTF-8 encoding: the bytes after the first code point when
    it is one of U+0009 to U+000D, U+0020, U+00A0, U+1680, U+2000 to
    U+200A, U+2028, U+2029, U+202F, U+205F, U+3000 and U+FEFF. *)
Definition afterWhiteSpace (s : string) : option string :=
  match s with
  | String a r =>
      let a := Ascii.N_of_ascii a in
      if bool_decide (a ∈ [9; 10; 11; 12; 13; 32]%N) then Some r
      else
        match r with
        | String b r' =>
            let b := Ascii.N_of_ascii b in
            if bool_decide (a = 194 /\ b = 160)%N then Some r'
            else
              match r' with
              | String c r'' =>
                  let c := Ascii.N_of_ascii c in
                  if bool_decide
                       ((a = 225 /\ b = 154 /\ c = 128)
                        \/ (a = 226 /\ b = 128
                            /\ (128 <= c <= 138 \/ c = 168 \/ c = 169
                                \/ c = 175))
                        \/ (a = 226 /\ b = 129 /\ c = 159)
                        \/ (a = 227 /\ b = 128 /\ c = 128)
                        \/ (a = 239 /\ b = 187 /\ c = 191))%N
                  then Some r'' else None
              | EmptyString => None
              end
        | EmptyString => None
        end
  | EmptyString => None
  end.

(** The string without its leading white space; [fuel] bounds the number
    of code points skipped. *)
Fixpoint trimStart (fuel : nat) (s : string) : string :=
  match fuel with
  | O => s
  | S fuel' =>
      match afterWhiteSpace s with
      | Some r => trimStart fuel' r
      | None => s
      end
  end.

Definition isDigit (a : Ascii.ascii) : bool :=
  (48 <=? Ascii.N_of_ascii a)%N && (Ascii.N_of_ascii a <=? 57)%N.

(** The value of the leading decimal digits of a string, after the digits
    already read. *)
Fixpoint digitsValue (s : string) (read : N) : N :=
  match s with
  | String a r =>
      if isDigit a then digitsValue r (10 * read + (Ascii.N_of_ascii a - 48))
      else read
  | EmptyString => read
  end.

(** [Number.parseInt(s, 10)]: a sign (code 45 or 43) and decimal digits
    after the leading white space; [None] is NaN.  The value is the exact
    integer: where the number parsed is a rounded one, it is far above
    every bound it is compared with here. *)
Definition parseInt10 (s : string) : option Z :=
  let s := trimStart (String.length s) s in
  let '(sign, s) :=
    match s with
    | String a r =>
        if bool_decide (Ascii.N_of_ascii a = 45%N) then ((-1)%Z, r)
        else if bool_decide (Ascii.N_of_ascii a = 43%N) then (1%Z, r)
        else (1%Z, s)
    | EmptyString => (1%Z, s)
    end in
  match s with
  | String a _ =>
      if isDigit a then Some (sign * Z.of_N (digitsValue s 0))%Z else None
  | EmptyString => None
  end.

Definition validateDatabaseUrl (url : string) : Startup unit :=
  if negb (startsWith url "postgresql://")
     && negb (startsWith url "postgres://")
  then Exits 1 "DATABASE_URL must be a valid PostgreSQL connection string" []
  else Returns ().

Definition validateRedisUrl (url : string) : Startup unit :=
  if negb (startsWith url "redis://") && negb (startsWith url "rediss://")
  then Exits 1 "REDIS_URL must be a valid Redis connection string" []
  else Returns ().

Definition validatePort (port : string) : Startup unit :=
  match parseInt10 port with
  | Some portNum =>
      if (portNum <? 1)%Z || (65535 <? portNum)%Z
      then Exits 1 "API_PORT must be a valid port number (1-65535)" []
      else Returns ()
  | None => Exits 1 "API_PORT must be a valid port number (1-65535)" []
  end.

(** The body of the loop over the required variables: a variable that is
    not set or empty is missing, the others go to the configuration. *)
Definition checkRequired (env : gmap string string)
    (state : list string * gmap string string) (envVar : string)
  : list string * gmap string string :=
  let '(missingVars, config) := state in
  let value := env !! envVar in
  if negb (truthy value) then (missingVars ++ [envVar], config)
  else (missingVars, <[envVar := default "" value]> config).

(** The body of the loop over the optional variables. *)
Definition checkOptional (env : gmap string string)
    (config : gmap string string) (envVar : string) : gmap string string :=
  let value := env !! envVar in
  if truthy value then <[envVar := default "" value]> config else config.

(** Validates the environment [env] ([process.env]) at start-up and returns
    the configuration. *)
Definition validateEnv (env : gmap string string)
  : Startup (gmap string string) :=
  let '(missingVars, config) :=
    fold_left (checkRequired env) requiredEnvVars ([], ∅) in
  let config := fold_left (checkOptional env) optionalEnvVars config in
  if (0 <? length missingVars)%nat then
    Exits 1 "Missing required environment variables:" missingVars
  else
    andThen (validateDatabaseUrl (default "" (config !! "DATABASE_URL")))
      (fun _ =>
    andThen (validateRedisUrl (default "" (config !! "REDIS_URL")))
      (fun _ =>
    andThen (validatePort (default "" (config !! "API_PORT")))
      (fun _ => Returns config))).

(** The variables the configuration can hold. *)
Definition knownEnvVars : list string := requiredEnvVars ++ optionalEnvVars.

(** The required variables that are not set or empty, in the order they
    are declared in. *)
Definition missingVarsOf (env : gmap string string) : list string :=
  List.filter (fun envVar => negb (truthy (env !! envVar))) requiredEnvVars.

(** The environment restricted to the known variables that are not empty. *)
Definition configOf (env : gmap string string) : gmap string string :=
  filter (fun kv : string * string => kv.1 ∈ knownEnvVars /\ kv.2 <> "") env.

(** The value of a variable of the environment, empty when it is not set. *)
Definition valueOf (env : gmap string string) (envVar : string) : string :=
  default "" (env !! envVar).

(** The first character of a string, if any, is not a decimal digit. *)
Definition noDigitFirst (s : string) : Prop :=
  match s with
  | String a _ => isDigit a = false
  | EmptyString => True
  end.

Module Environments.

(** A complete environment, with a port followed by a comment. *)
Definition complete : gmap string string :=
  {[ "DATABASE_URL" := "postgres://localhost/colink";
     "REDIS_URL" := "redis://localhost:6379";
     "NODE_ENV" := "development";
     "API_PORT" := "4000 # api";
     "LOG_LEVEL" := "info";
     "ENABLE_SWAGGER" := "true";
     "RATE_LIMIT_MAX" := "";
     "HOME" := "/root" ]}.

(** No Redis URL, an empty log level and a database URL of another kind. *)
Definition incomplete : gmap string string :=
  {[ "DATABASE_URL" := "mysql://localhost/colink";
     "NODE_ENV" := "development";
     "API_PORT" := "4000";
     "LOG_LEVEL" := "" ]}.

End Environments.

(* ================================================================== *)
(** * Properties *)

(** ** Decimal comparisons *)

Lemma lessThan_true (x y : Q) : Decimal.lessThan x y = true <-> (x < y)%Q.
Proof.
  unfold Decimal.lessThan. rewrite negb_true_iff. split.
  - intros H. apply Qnot_le_lt. intros Hle.
    apply Qle_bool_iff in Hle. congruence.
  - intros H. destruct (Qle_bool y x) eqn:E; [|done].
    apply Qle_bool_iff in E. lra.
Qed.

Lemma lessThan_false (x y : Q) : Decimal.lessThan x y = false <-> (y <= x)%Q.
Proof.
  unfold Decimal.lessThan. rewrite negb_false_iff. apply Qle_bool_iff.
Qed.

Lemma greaterThan_true (x y : Q) : Decimal.greaterThan x y = true <-> (y < x)%Q.
Proof. apply (lessThan_true y x). Qed.

Lemma greaterThan_false (x y : Q) :
  Decimal.greaterThan x y = false <-> (x <= y)%Q.
Proof. apply (lessThan_false y x). Qed.

Ltac case_lessThan a b :=
  let E := fresh "Hlt" in
  destruct (Decimal.lessThan a b) eqn:E;
  [apply lessThan_true in E | apply lessThan_false in E].

Ltac case_all_lessThan :=
  repeat match goal with
         | |- context [Decimal.lessThan ?a ?b] => case_lessThan a b
         end.

(** ** Decimals that fit the precision *)

Lemma inject_Z_pow10_pos (n : nat) : (0 < inject_Z (10 ^ Z.of_nat n))%Q.
Proof.
  change 0%Q with (inject_Z 0). rewrite <- Zlt_Qlt. apply Z.pow_pos_nonneg; lia.
Qed.

Lemma within_proper dp bound x y :
  (x == y)%Q -> Decimal.within dp bound x -> Decimal.within dp bound y.
Proof. intros Hxy (m & Hm & Hx). exists m. split; [done|]. by rewrite <- Hxy. Qed.

Lemma within_le dp bound bound' x :
  (bound <= bound')%Z -> Decimal.within dp bound x -> Decimal.within dp bound' x.
Proof. intros Hle (m & Hm & Hx). exists m. split; [lia|done]. Qed.

Lemma within_fits dp bound x :
  (bound < 10 ^ Z.of_nat Decimal.precision)%Z ->
  Decimal.within dp bound x -> Decimal.fits x.
Proof.
  intros Hb (m & Hm & Hx). exists m, 0, dp. split; [lia|].
  rewrite Hx. by rewrite Z.mul_1_r.
Qed.

Lemma within_0 dp : Decimal.within dp 0 0.
Proof. exists 0%Z. split; [done|]. by rewrite Qmult_0_l. Qed.

Lemma within_add dp b1 b2 x y :
  Decimal.within dp b1 x -> Decimal.within dp b2 y ->
  Decimal.within dp (b1 + b2) (Decimal.add x y).
Proof.
  intros (m1 & Hm1 & Hx) (m2 & Hm2 & Hy). exists (m1 + m2)%Z. split; [lia|].
  unfold Decimal.add. rewrite inject_Z_plus, <- Hx, <- Hy. ring.
Qed.

Lemma within_minus dp b1 b2 x y :
  Decimal.within dp b1 x -> Decimal.within dp b2 y ->
  Decimal.within dp (b1 + b2) (Decimal.minus x y).
Proof.
  intros (m1 & Hm1 & Hx) (m2 & Hm2 & Hy). exists (m1 - m2)%Z. split; [lia|].
  unfold Decimal.minus, Z.sub. rewrite inject_Z_plus, inject_Z_opp, <- Hx, <- Hy.
  ring.
Qed.

Lemma within_mul d1 d2 b1 b2 x y :
  Decimal.within d1 b1 x -> Decimal.within d2 b2 y ->
  Decimal.within (d1 + d2) (b1 * b2) (Decimal.mul x y).
Proof.
  intros (m1 & Hm1 & Hx) (m2 & Hm2 & Hy). exists (m1 * m2)%Z. split.
  - rewrite Z.abs_mul. apply Z.mul_le_mono_nonneg; lia.
  - unfold Decimal.mul.
    rewrite Nat2Z.inj_add, Z.pow_add_r, !inject_Z_mult, <- Hx, <- Hy by lia.
    ring.
Qed.

(** More decimal places: the digits are followed by zeros. *)
Lemma within_scale k dp bound x :
  Decimal.within dp bound x ->
  Decimal.within (dp + k) (bound * 10 ^ Z.of_nat k) x.
Proof.
  intros (m & Hm & Hx). exists (m * 10 ^ Z.of_nat k)%Z. split.
  - rewrite Z.abs_mul, (Z.abs_eq (10 ^ _)) by lia.
    apply Z.mul_le_mono_nonneg_r; lia.
  - rewrite Nat2Z.inj_add, Z.pow_add_r, !inject_Z_mult, <- Hx by lia. ring.
Qed.

Lemma within_div_100 dp bound x :
  Decimal.within dp bound x ->
  Decimal.within (dp + 2) bound (Decimal.div x 100).
Proof.
  intros (m & Hm & Hx). exists m. split; [done|].
  unfold Decimal.div.
  rewrite Nat2Z.inj_add, Z.pow_add_r, inject_Z_mult, <- Hx by lia.
  change (inject_Z (10 ^ Z.of_nat 2)) with 100%Q. field.
Qed.

Lemma within_nonneg dp bound x : Decimal.within dp bound x -> (0 <= bound)%Z.
Proof. intros (m & Hm & _). lia. Qed.

Lemma cappedCommission_within dp bound rule subtotal :
  Decimal.within dp bound
    (Decimal.div (Decimal.mul subtotal (CommissionRule.creatorPercent rule)) 100) ->
  (forall m, CommissionRule.minCommission rule = Some m ->
             Decimal.within dp bound m) ->
  (forall m, CommissionRule.maxCommission rule = Some m ->
             Decimal.within dp bound m) ->
  Decimal.within dp bound (cappedCommission rule subtotal).
Proof.
  intros Hbase Hmin Hmax. unfold cappedCommission.
  destruct (CommissionRule.minCommission rule) as [minCommission|];
    destruct (CommissionRule.maxCommission rule) as [maxCommission|];
    repeat match goal with
           | |- context [if ?b then _ else _] => destruct b
           end; auto.
Qed.

(** Amounts in cents and percentages of two decimal places, a payment fee
    percentage of four, caps of six: no operation of the calculation rounds
    as long as the digits stay below the precision. *)
Lemma exactSplit_within (a p c f b : Z) orderItem rule pct :
  Decimal.within 2 a (OrderItem.subtotal orderItem) ->
  Decimal.within 2 p (CommissionRule.platformFeePercent rule) ->
  Decimal.within 2 c (CommissionRule.creatorPercent rule) ->
  Decimal.within 4 f pct ->
  (forall m, CommissionRule.minCommission rule = Some m ->
             Decimal.within 6 b m) ->
  (forall m, CommissionRule.maxCommission rule = Some m ->
             Decimal.within 6 b m) ->
  (a * c <= b)%Z ->
  (a * (10000 + p + f) + b < 10 ^ Z.of_nat Decimal.precision)%Z ->
  exactSplit orderItem rule pct.
Proof.
  intros Hs Hp Hc Hf Hmin Hmax Hac Hbound.
  pose proof (within_nonneg _ _ _ Hs) as Ha.
  pose proof (within_nonneg _ _ _ Hp) as Hp0.
  pose proof (within_nonneg _ _ _ Hc) as Hc0.
  pose proof (within_nonneg _ _ _ Hf) as Hf0.
  set (s := OrderItem.subtotal orderItem) in *.
  pose proof (within_mul _ _ _ _ _ _ Hs Hp) as Hsp.
  pose proof (within_div_100 _ _ _ Hsp) as Hpf.
  pose proof (within_mul _ _ _ _ _ _ Hs Hc) as Hsc.
  pose proof (within_div_100 _ _ _ Hsc) as Hbase.
  pose proof (within_mul _ _ _ _ _ _ Hs Hf) as Hpay.
  pose proof (within_scale 4 _ _ _ Hs) as Hs6.
  cbn [Nat.add] in Hsp, Hpf, Hsc, Hbase, Hpay, Hs6.
  assert (Hcapped : Decimal.within 6 b (cappedCommission rule s)).
  { apply cappedCommission_within; [|done|done].
    by apply (within_le _ (a * c)). }
  pose proof (within_minus _ _ _ _ _ Hs6 Hpf) as H1.
  pose proof (within_minus _ _ _ _ _ H1 Hcapped) as H2.
  pose proof (within_minus _ _ _ _ _ H2 Hpay) as H3.
  pose proof (within_minus _ _ _ _ _ H1 Hpay) as H4.
  change (10 ^ Z.of_nat 4)%Z with 10000%Z in *.
  unfold exactSplit. cbv zeta. fold s. unfold naiveSellerTake.
  repeat apply conj; try intros _;
    match goal with
    | H : Decimal.within _ _ ?x |- Decimal.fits ?x =>
        refine (within_fits _ _ _ _ H)
    end;
    set (limit := (10 ^ Z.of_nat Decimal.precision)%Z) in *; nia.
Qed.

Lemma fold_add_within dp b (rows : list LedgerRow) :
  (forall r, r ∈ rows -> Decimal.within dp b (LedgerEntry.amount r.2)) ->
  forall bound sum,
    Decimal.within dp bound sum ->
    Decimal.within dp (bound + Z.of_nat (length rows) * b)
      (fold_left (fun sum (entry : LedgerRow) =>
                    Decimal.add sum (LedgerEntry.amount entry.2))
         rows sum).
Proof.
  induction rows as [|r rows IH]; intros Hall bound sum Hsum;
    cbn [fold_left length].
  - by rewrite Z.mul_0_l, Z.add_0_r.
  - replace (bound + Z.of_nat (S (length rows)) * b)%Z
      with ((bound + b) + Z.of_nat (length rows) * b)%Z by lia.
    apply IH.
    + intros r' Hr'. apply Hall. by apply list_elem_of_further.
    + apply within_add; [done|]. apply Hall, list_elem_of_here.
Qed.

Lemma sumAmounts_within dp b n (rows : list LedgerRow) :
  (forall r, r ∈ rows -> Decimal.within dp b (LedgerEntry.amount r.2)) ->
  length rows <= n ->
  (0 <= b)%Z ->
  Decimal.within dp (Z.of_nat n * b) (sumAmounts rows).
Proof.
  intros Hall Hlen Hb.
  apply (within_le _ (0 + Z.of_nat (length rows) * b)); [nia|].
  apply fold_add_within; [done|apply within_0].
Qed.

Lemma exactSum_within dp b n (rows : list LedgerRow) :
  (forall r, r ∈ rows -> Decimal.within dp b (LedgerEntry.amount r.2)) ->
  length rows <= n ->
  (0 <= b)%Z ->
  (Z.of_nat n * b < 10 ^ Z.of_nat Decimal.precision)%Z ->
  exactSum rows.
Proof.
  intros Hall Hlen Hb Hbound listed k Hlisted.
  apply (within_fits dp (Z.of_nat n * b)); [done|].
  apply sumAmounts_within; [|rewrite length_take, Hlisted; lia|done].
  intros r Hr. apply Hall. rewrite <- Hlisted. by eapply subseteq_take.
Qed.

(** Amounts of at most [dp] decimal places: no operation of the
    reconciliation rounds as long as three times the number of entries
    times the largest amount stays below the precision. *)
Lemma exactReconciliation_within dp b (commissions : list LedgerRow) :
  (forall r, r ∈ commissions -> Decimal.within dp b (LedgerEntry.amount r.2)) ->
  (0 <= b)%Z ->
  (3 * Z.of_nat (length commissions) * b < 10 ^ Z.of_nat Decimal.precision)%Z ->
  exactReconciliation commissions.
Proof.
  intros Hall Hb Hbound. set (n := length commissions) in *.
  assert (Hsub : forall statuses r,
             r ∈ withStatus statuses commissions ->
             Decimal.within dp b (LedgerEntry.amount r.2)).
  { intros statuses r Hr. apply Hall. unfold withStatus in Hr.
    apply list_elem_of_In, filter_In in Hr as [Hr _]. by apply list_elem_of_In. }
  assert (Hlen : forall statuses, length (withStatus statuses commissions) <= n).
  { intros statuses. unfold withStatus. apply List.filter_length_le. }
  pose proof (sumAmounts_within dp b n commissions Hall (le_n _) Hb) as Htotal.
  pose proof (sumAmounts_within dp b n _ (Hsub [PAID]) (Hlen _) Hb) as Hpaid.
  pose proof (sumAmounts_within dp b n _ (Hsub [RESERVED; CLEARED]) (Hlen _) Hb)
    as Hpending.
  pose proof (within_add _ _ _ _ _ Hpaid Hpending) as Hexpected.
  pose proof (within_minus _ _ _ _ _ Htotal Hexpected) as Hdelta.
  unfold exactReconciliation. cbv zeta.
  split; [apply (exactSum_within dp b n); [done|done|done|lia]|].
  split; [apply (exactSum_within dp b n); [apply Hsub|apply Hlen|done|lia]|].
  split; [apply (exactSum_within dp b n); [apply Hsub|apply Hlen|done|lia]|].
  split; [refine (within_fits _ _ _ _ Hexpected); lia|].
  refine (within_fits _ _ _ _ Hdelta); lia.
Qed.

(** ** The calculation *)

Lemma calculateCommission_resolved w w' orderItem pct campaignId rule :
  findApplicableCommissionRule orderItem campaignId w = (Ok rule, w') ->
  calculateCommission orderItem pct campaignId w
  = (Ok (commissionSplit orderItem rule (default 0.029%Q pct)), w').
Proof.
  intros H. unfold calculateCommission, try_catch, bind. rewrite H. done.
Qed.

Lemma calculateCommission_failed w w' orderItem pct campaignId e :
  findApplicableCommissionRule orderItem campaignId w = (Err e, w') ->
  calculateCommission orderItem pct campaignId w = (Err e, w').
Proof.
  intros H. unfold calculateCommission, try_catch, bind. rewrite H. done.
Qed.

Section Split.

Variables (orderItem : OrderItem.t) (rule : CommissionRule.t) (pct : Q).

Let subtotal := OrderItem.subtotal orderItem.
Let platformFee := (subtotal * CommissionRule.platformFeePercent rule / 100)%Q.
Let paymentFee := (subtotal * pct)%Q.
Let capped := cappedCommission rule subtotal.
Let naive := naiveSellerTake subtotal platformFee capped paymentFee.
Let calc := commissionSplit orderItem rule pct.

Lemma split_fees :
  CommissionCalculation.subtotal calc = subtotal
  /\ CommissionCalculation.platformFee calc = platformFee
  /\ CommissionCalculation.paymentFee calc = paymentFee.
Proof. done. Qed.

Lemma naive_sum : (platformFee + capped + paymentFee + naive == subtotal)%Q.
Proof.
  unfold naive, naiveSellerTake, Decimal.minus. lra.
Qed.

Lemma split_creatorCommission :
  CommissionCalculation.creatorCommission calc
  = if Decimal.lessThan naive 0
    then if Decimal.lessThan (subtotal - platformFee - paymentFee)%Q 0
         then 0%Q else (subtotal - platformFee - paymentFee)%Q
    else capped.
Proof. reflexivity. Qed.

Lemma split_sellerTake :
  CommissionCalculation.sellerTake calc
  = if Decimal.lessThan naive 0 then 0%Q else naive.
Proof. reflexivity. Qed.

(** The seller take is not negative: nothing is adjusted. *)
Lemma split_unadjusted :
  (0 <= naive)%Q ->
  CommissionCalculation.creatorCommission calc = capped
  /\ CommissionCalculation.sellerTake calc = naive.
Proof.
  intros H. apply lessThan_false in H.
  rewrite split_creatorCommission, split_sellerTake. by rewrite H.
Qed.

(** The seller take is negative: the commission becomes what is left
    after the fees, or 0 if nothing is left, and the seller take is 0. *)
Lemma split_adjusted :
  (naive < 0)%Q ->
  (CommissionCalculation.creatorCommission calc
   == Qmax 0 (subtotal - platformFee - paymentFee))%Q
  /\ CommissionCalculation.sellerTake calc = 0%Q.
Proof.
  intros H. apply lessThan_true in H.
  rewrite split_creatorCommission, split_sellerTake. rewrite H.
  split; [|done].
  case_lessThan (subtotal - platformFee - paymentFee)%Q 0%Q.
  - symmetry. apply Q.max_l. lra.
  - symmetry. apply Q.max_r. lra.
Qed.

End Split.

(** C5.  Once the rule is resolved, [calculateCommission] returns a
    calculation and raises nothing.  Whenever the seller take as first
    computed is negative, the returned commission is
    [max(0, subtotal - platformFee - paymentFee)] and the returned seller
    take is [max(0, subtotal - platformFee - creatorCommission - paymentFee)].
    Scenario B (subtotal 10.00, platform fee 50%, creator 60%, payment fee
    2.9%) gives commission 4.71 and seller take 0; scenario A (subtotal
    100.00, platform fee 5%, creator 10%) is not adjusted and gives 5.00,
    10.00, 2.90 and 82.10. *)
Theorem calculateCommission_negative_seller_take
    (w w' : World) (orderItem : OrderItem.t) (paymentFeePercent : option Q)
    (campaignId : option string) (rule : CommissionRule.t) :
  findApplicableCommissionRule orderItem campaignId w = (Ok rule, w') ->
  let subtotal := OrderItem.subtotal orderItem in
  let pct := default 0.029%Q paymentFeePercent in
  let platformFee :=
    (subtotal * CommissionRule.platformFeePercent rule / 100)%Q in
  let paymentFee := (subtotal * pct)%Q in
  exists calc : CommissionCalculation.t,
    calculateCommission orderItem paymentFeePercent campaignId w = (Ok calc, w')
    /\ CommissionCalculation.platformFee calc = platformFee
    /\ CommissionCalculation.paymentFee calc = paymentFee
    /\ ((naiveSellerTake subtotal platformFee (cappedCommission rule subtotal)
           paymentFee < 0)%Q ->
        (CommissionCalculation.creatorCommission calc
         == Qmax 0 (subtotal - platformFee - paymentFee))%Q
        /\ (CommissionCalculation.sellerTake calc
            == Qmax 0 (subtotal - platformFee
                       - CommissionCalculation.creatorCommission calc
                       - paymentFee))%Q)
    /\ ((subtotal == 10)%Q ->
        (CommissionRule.platformFeePercent rule == 50)%Q ->
        (CommissionRule.creatorPercent rule == 60)%Q ->
        CommissionRule.minCommission rule = None ->
        CommissionRule.maxCommission rule = None ->
        (pct == 0.029)%Q ->
        (CommissionCalculation.creatorCommission calc == 4.71)%Q
        /\ (CommissionCalculation.sellerTake calc == 0)%Q)
    /\ ((subtotal == 100)%Q ->
        (CommissionRule.platformFeePercent rule == 5)%Q ->
        (CommissionRule.creatorPercent rule == 10)%Q ->
        CommissionRule.minCommission rule = None ->
        CommissionRule.maxCommission rule = None ->
        (pct == 0.029)%Q ->
        (CommissionCalculation.platformFee calc == 5)%Q
        /\ (CommissionCalculation.creatorCommission calc == 10)%Q
        /\ (CommissionCalculation.paymentFee calc == 2.9)%Q
        /\ (CommissionCalculation.sellerTake calc == 82.1)%Q).
Proof.
  intros Hrule subtotal pct platformFee paymentFee.
  exists (commissionSplit orderItem rule pct).
  split; [by apply calculateCommission_resolved|].
  split; [done|]. split; [done|].
  split; [|split].
  - intros Hneg.
    destruct (split_adjusted orderItem rule pct Hneg) as [Hc Hs].
    fold subtotal platformFee paymentFee in Hc.
    split; [exact Hc|]. rewrite Hs, Hc. symmetry. apply Q.max_l.
    pose proof (Q.le_max_r 0 (subtotal - platformFee - paymentFee)). lra.
  - intros Hs Hp Hc Hmin Hmax Hpct.
    rewrite split_creatorCommission, split_sellerTake.
    fold subtotal platformFee paymentFee.
    unfold cappedCommission, naiveSellerTake, Decimal.minus, Decimal.div,
      Decimal.mul.
    rewrite Hmin, Hmax. fold subtotal.
    assert (H1 : (platformFee == 5)%Q)
      by (unfold platformFee; rewrite Hs, Hp; reflexivity).
    assert (H2 : (subtotal * CommissionRule.creatorPercent rule / 100 == 6)%Q)
      by (rewrite Hs, Hc; reflexivity).
    assert (H3 : (paymentFee == 0.29)%Q)
      by (unfold paymentFee; rewrite Hs, Hpct; reflexivity).
    case_all_lessThan; split; lra.
  - intros Hs Hp Hc Hmin Hmax Hpct.
    rewrite split_creatorCommission, split_sellerTake.
    change (CommissionCalculation.platformFee _) with platformFee.
    change (CommissionCalculation.paymentFee _) with paymentFee.
    fold subtotal platformFee paymentFee.
    unfold cappedCommission, naiveSellerTake, Decimal.minus, Decimal.div,
      Decimal.mul.
    rewrite Hmin, Hmax. fold subtotal.
    assert (H1 : (platformFee == 5)%Q)
      by (unfold platformFee; rewrite Hs, Hp; reflexivity).
    assert (H2 : (subtotal * CommissionRule.creatorPercent rule / 100 == 10)%Q)
      by (rewrite Hs, Hc; reflexivity).
    assert (H3 : (paymentFee == 2.9)%Q)
      by (unfold paymentFee; rewrite Hs, Hpct; reflexivity).
    case_all_lessThan; repeat split; lra.
Qed.

Lemma calculateCommission_negative_seller_take_witness :
  exists calc w',
    calculateCommission (Examples.item 10) None None Examples.worldScenarioB
    = (Ok calc, w')
    /\ (CommissionCalculation.creatorCommission calc == 4.71)%Q
    /\ (CommissionCalculation.sellerTake calc == 0)%Q.
Proof.
  pose (w := Examples.worldScenarioB).
  pose (w' := (findApplicableCommissionRule (Examples.item 10) None w).2).
  assert (Hrule : findApplicableCommissionRule (Examples.item 10) None w
                  = (Ok (Examples.defaultRule 60 50 None None), w'))
    by (vm_compute; reflexivity).
  destruct (calculateCommission_negative_seller_take
              w w' (Examples.item 10) None None _ Hrule)
    as (calc & Hcalc & _ & _ & Hneg & HB & _).
  exists calc, w'. split; [exact Hcalc|].
  apply HB; reflexivity.
Defined.

(** C10.  The minimum commission is not applied again after the
    adjustment for a negative seller take: when the capped commission makes
    the seller take negative and the rule's positive [minCommission]
    exceeds [subtotal - platformFee - paymentFee], the returned commission
    is strictly below [minCommission]. *)
Theorem calculateCommission_below_minCommission
    (w w' : World) (orderItem : OrderItem.t) (paymentFeePercent : option Q)
    (campaignId : option string) (rule : CommissionRule.t) (minCommission : Q) :
  findApplicableCommissionRule orderItem campaignId w = (Ok rule, w') ->
  CommissionRule.minCommission rule = Some minCommission ->
  let subtotal := OrderItem.subtotal orderItem in
  let platformFee :=
    (subtotal * CommissionRule.platformFeePercent rule / 100)%Q in
  let paymentFee := (subtotal * default 0.029%Q paymentFeePercent)%Q in
  (naiveSellerTake subtotal platformFee (cappedCommission rule subtotal)
     paymentFee < 0)%Q ->
  (0 < minCommission)%Q ->
  (subtotal - platformFee - paymentFee < minCommission)%Q ->
  exists calc : CommissionCalculation.t,
    calculateCommission orderItem paymentFeePercent campaignId w = (Ok calc, w')
    /\ (CommissionCalculation.creatorCommission calc < minCommission)%Q.
Proof.
  intros Hrule Hmin subtotal platformFee paymentFee Hneg Hpos Hbelow.
  exists (commissionSplit orderItem rule (default 0.029%Q paymentFeePercent)).
  split; [by apply calculateCommission_resolved|].
  destruct (split_adjusted orderItem rule _ Hneg) as [Hc _].
  rewrite Hc. fold subtotal platformFee paymentFee.
  apply Q.max_lub_lt; assumption.
Qed.

Lemma calculateCommission_below_minCommission_witness :
  exists calc w',
    calculateCommission (Examples.item 10) None None
      Examples.worldMinCommission = (Ok calc, w')
    /\ CommissionRule.minCommission
         (Examples.defaultRule 10 50 (Some 6%Q) None) = Some 6%Q
    /\ (CommissionCalculation.creatorCommission calc < 6)%Q.
Proof.
  pose (rule := Examples.defaultRule 10 50 (Some 6%Q) None).
  pose (w := Examples.worldMinCommission).
  pose (w' := (findApplicableCommissionRule (Examples.item 10) None w).2).
  assert (Hrule : findApplicableCommissionRule (Examples.item 10) None w
                  = (Ok rule, w'))
    by (vm_compute; reflexivity).
  destruct (calculateCommission_below_minCommission
              w w' (Examples.item 10) None None rule 6%Q Hrule eq_refl)
    as (calc & Hcalc & Hlt); try reflexivity.
  exists calc, w'. split; [exact Hcalc|]. split; [reflexivity|exact Hlt].
Defined.

(** The three scenarios evaluated: the DEFAULT rule is found at the fourth
    query, after six clock readings. *)
Example calculateCommission_scenario_A :
  exists calc w',
    calculateCommission (Examples.item 100) None None Examples.worldScenarioA
    = (Ok calc, w')
    /\ ticks w' = 6
    /\ (CommissionCalculation.platformFee calc == 5)%Q
    /\ (CommissionCalculation.creatorCommission calc == 10)%Q
    /\ (CommissionCalculation.paymentFee calc == 2.9)%Q
    /\ (CommissionCalculation.sellerTake calc == 82.1)%Q.
Proof.
  eexists. eexists. split; [vm_compute; reflexivity|]. by repeat split.
Qed.

Example calculateCommission_scenario_B :
  exists calc w',
    calculateCommission (Examples.item 10) None None Examples.worldScenarioB
    = (Ok calc, w')
    /\ (CommissionCalculation.platformFee calc == 5)%Q
    /\ (CommissionCalculation.creatorCommission calc == 4.71)%Q
    /\ (CommissionCalculation.paymentFee calc == 0.29)%Q
    /\ (CommissionCalculation.sellerTake calc == 0)%Q.
Proof.
  eexists. eexists. split; [vm_compute; reflexivity|]. by repeat split.
Qed.

Example calculateCommission_minCommission_6 :
  exists calc w',
    calculateCommission (Examples.item 10) None None
      Examples.worldMinCommission = (Ok calc, w')
    /\ (cappedCommission (Examples.defaultRule 10 50 (Some 6%Q) None) 10 == 6)%Q
    /\ (CommissionCalculation.creatorCommission calc == 4.71)%Q
    /\ (CommissionCalculation.sellerTake calc == 0)%Q.
Proof.
  eexists. eexists. split; [vm_compute; reflexivity|]. by repeat split.
Qed.

(** A rule with a platform fee of 100%: the fees alone exceed the subtotal,
    the commission and the seller take are both floored at 0 and the four
    amounts add up to 10.29 for a subtotal of 10. *)
Lemma calculateCommission_sum_counterexample :
  exists calc w',
    calculateCommission (Examples.item 10) None None Examples.worldFullFee
    = (Ok calc, w')
    /\ (CommissionCalculation.platformFee calc == 10)%Q
    /\ (CommissionCalculation.creatorCommission calc == 0)%Q
    /\ (CommissionCalculation.paymentFee calc == 0.29)%Q
    /\ (CommissionCalculation.sellerTake calc == 0)%Q
    /\ ~ (CommissionCalculation.platformFee calc
          + CommissionCalculation.creatorCommission calc
          + CommissionCalculation.paymentFee calc
          + CommissionCalculation.sellerTake calc
          == CommissionCalculation.subtotal calc)%Q.
Proof.
  eexists. eexists.
  split; [vm_compute; reflexivity|].
  repeat split; try reflexivity.
  vm_compute. discriminate.
Qed.

(** C1 (amended).  Once the rule is resolved, and as long as no operation
    of the calculation rounds (every product, quotient and difference it
    computes has at most 20 significant digits), the amounts as first
    computed (with the capped commission) add up to the subtotal exactly.
    The returned amounts add up to the subtotal exactly whenever the seller
    take as first computed is not negative, and also whenever
    [platformFee + paymentFee <= subtotal].  Otherwise the commission and
    the seller take are both 0 and the returned amounts add up to
    [platformFee + paymentFee]. *)
Theorem calculateCommission_sum
    (w w' : World) (orderItem : OrderItem.t) (paymentFeePercent : option Q)
    (campaignId : option string) (rule : CommissionRule.t) :
  findApplicableCommissionRule orderItem campaignId w = (Ok rule, w') ->
  exactSplit orderItem rule (default 0.029%Q paymentFeePercent) ->
  let subtotal := OrderItem.subtotal orderItem in
  let platformFee :=
    (subtotal * CommissionRule.platformFeePercent rule / 100)%Q in
  let paymentFee := (subtotal * default 0.029%Q paymentFeePercent)%Q in
  let capped := cappedCommission rule subtotal in
  let naive := naiveSellerTake subtotal platformFee capped paymentFee in
  exists calc : CommissionCalculation.t,
    calculateCommission orderItem paymentFeePercent campaignId w = (Ok calc, w')
    /\ CommissionCalculation.subtotal calc = subtotal
    /\ CommissionCalculation.platformFee calc = platformFee
    /\ CommissionCalculation.paymentFee calc = paymentFee
    /\ (platformFee + capped + paymentFee + naive == subtotal)%Q
    /\ let total :=
         (CommissionCalculation.platformFee calc
          + CommissionCalculation.creatorCommission calc
          + CommissionCalculation.paymentFee calc
          + CommissionCalculation.sellerTake calc)%Q in
       ((0 <= naive)%Q -> (total == subtotal)%Q)
       /\ ((platformFee + paymentFee <= subtotal)%Q -> (total == subtotal)%Q)
       /\ ((naive < 0)%Q -> (subtotal < platformFee + paymentFee)%Q ->
           (CommissionCalculation.creatorCommission calc == 0)%Q
           /\ (CommissionCalculation.sellerTake calc == 0)%Q
           /\ (total == platformFee + paymentFee)%Q).
Proof.
  intros Hrule _ subtotal platformFee paymentFee capped naive.
  exists (commissionSplit orderItem rule (default 0.029%Q paymentFeePercent)).
  split; [by apply calculateCommission_resolved|].
  do 3 (split; [done|]).
  split; [apply naive_sum|].
  intros total. unfold total.
  rewrite split_creatorCommission, split_sellerTake.
  change (CommissionCalculation.platformFee _) with platformFee.
  change (CommissionCalculation.paymentFee _) with paymentFee.
  fold subtotal platformFee paymentFee capped naive.
  pose proof (naive_sum orderItem rule (default 0.029%Q paymentFeePercent))
    as Hsum.
  fold subtotal platformFee paymentFee capped naive in Hsum.
  repeat split; intros; case_all_lessThan; lra.
Qed.

Lemma calculateCommission_sum_witness :
  exists calc w',
    calculateCommission (Examples.item 100) None None Examples.worldScenarioA
    = (Ok calc, w')
    /\ (CommissionCalculation.platformFee calc
        + CommissionCalculation.creatorCommission calc
        + CommissionCalculation.paymentFee calc
        + CommissionCalculation.sellerTake calc
        == 100)%Q.
Proof.
  pose (w := Examples.worldScenarioA).
  pose (w' := (findApplicableCommissionRule (Examples.item 100) None w).2).
  assert (Hrule : findApplicableCommissionRule (Examples.item 100) None w
                  = (Ok (Examples.defaultRule 10 5 None None), w'))
    by (vm_compute; reflexivity).
  assert (Hexact : exactSplit (Examples.item 100)
                     (Examples.defaultRule 10 5 None None) 0.029%Q).
  { apply (exactSplit_within 10000 500 1000 290 10000000).
    - exists 10000%Z. split; [lia|reflexivity].
    - exists 500%Z. split; [lia|reflexivity].
    - exists 1000%Z. split; [lia|reflexivity].
    - exists 290%Z. split; [lia|reflexivity].
    - intros m Hm. discriminate Hm.
    - intros m Hm. discriminate Hm.
    - lia.
    - change (Z.of_nat Decimal.precision) with 20%Z. lia. }
  destruct (calculateCommission_sum
              w w' (Examples.item 100) None None _ Hrule Hexact)
    as (calc & Hcalc & _ & _ & _ & _ & Hnonneg & _).
  exists calc, w'. split; [exact Hcalc|].
  apply Hnonneg. vm_compute. discriminate.
Defined.

(** ** Rule resolution *)

Lemma find_first_elem {A} (f : A -> bool) (l : list A) (a : A) :
  a ∈ l -> f a = true ->
  exists a', List.find f l = Some a' /\ a' ∈ l /\ f a' = true.
Proof.
  intros Hin Hf. destruct (List.find f l) as [a'|] eqn:E.
  - apply find_some in E as [Hin' Hf']. exists a'.
    by rewrite list_elem_of_In.
  - apply list_elem_of_In in Hin.
    pose proof (find_none f l E a Hin). congruence.
Qed.

Lemma find_none_all {A} (f : A -> bool) (l : list A) :
  (forall a, a ∈ l -> f a = false) -> List.find f l = None.
Proof.
  intros H. induction l as [|a l IH]; [done|]. simpl.
  rewrite (H a) by apply list_elem_of_here.
  apply IH. intros b Hb. apply H. by apply list_elem_of_further.
Qed.

Lemma resolve_campaign w orderItem campaignId rule :
  truthy campaignId = true ->
  List.find
    (tierWhere CAMPAIGN orderItem campaignId
       (clock w (ticks w)) (clock w (S (ticks w))))
    (commissionRule w) = Some rule ->
  findApplicableCommissionRule orderItem campaignId w
  = (Ok rule, tick (tick w)).
Proof.
  intros Ht Hfind.
  unfold findApplicableCommissionRule, bind, newDate, commissionRule_findFirst.
  rewrite Ht. cbn. unfold tierWhere in Hfind. rewrite Hfind. done.
Qed.

Lemma resolve_sku w orderItem campaignId rule :
  truthy campaignId = false ->
  List.find
    (tierWhere SKU orderItem campaignId
       (clock w (ticks w)) (clock w (S (ticks w))))
    (commissionRule w) = Some rule ->
  findApplicableCommissionRule orderItem campaignId w
  = (Ok rule, tick (tick w)).
Proof.
  intros Ht Hfind.
  unfold findApplicableCommissionRule, bind, newDate, commissionRule_findFirst.
  rewrite Ht. cbn. unfold tierWhere in Hfind. rewrite Hfind. done.
Qed.

Lemma resolve_none w orderItem campaignId :
  noRuleMatches w orderItem campaignId ->
  findApplicableCommissionRule orderItem campaignId w
  = (Err (AppError NotFoundError "COMMISSION_RULE_NOT_FOUND"),
     Nat.iter (2 * length (tiersQueried campaignId)) tick w).
Proof.
  intros Hno. unfold noRuleMatches, tiersQueried in Hno.
  unfold findApplicableCommissionRule, bind, newDate, commissionRule_findFirst, tiersQueried.
  destruct (truthy campaignId) eqn:Ht; cbn.
  - pose proof (find_none_all _ _ (fun r => Hno 0 CAMPAIGN r eq_refl)) as H0.
    pose proof (find_none_all _ _ (fun r => Hno 1 SKU r eq_refl)) as H1.
    pose proof (find_none_all _ _ (fun r => Hno 2 PRODUCT r eq_refl)) as H2.
    pose proof (find_none_all _ _ (fun r => Hno 3 DEFAULT r eq_refl)) as H3.
    cbn in H0, H1, H2, H3.
    rewrite H0; cbn. rewrite H1; cbn. rewrite H2; cbn. rewrite H3. done.
  - pose proof (find_none_all _ _ (fun r => Hno 0 SKU r eq_refl)) as H0.
    pose proof (find_none_all _ _ (fun r => Hno 1 PRODUCT r eq_refl)) as H1.
    pose proof (find_none_all _ _ (fun r => Hno 2 DEFAULT r eq_refl)) as H2.
    cbn in H0, H1, H2.
    rewrite H0; cbn. rewrite H1; cbn. rewrite H2. done.
Qed.

Lemma iter_tick_ledgerEntry (n : nat) (w : World) :
  ledgerEntry (Nat.iter n tick w) = ledgerEntry w.
Proof. induction n as [|n IH]; [done|]. simpl. exact IH. Qed.

(** The resolution as a scan of the tiers. *)

Lemma tierWhere_true tier orderItem campaignId t1 t2 rule :
  tierWhere tier orderItem campaignId t1 t2 rule = true
  <-> CommissionRule.organizationId rule
      = Order.organizationId (OrderItem.order orderItem)
      /\ CommissionRule.type rule = tier
      /\ scopeMatches tier orderItem campaignId rule
      /\ CommissionRule.isActive rule = true
      /\ (exists startDate, CommissionRule.startDate rule = Some startDate
                            /\ (startDate <= t1)%Z)
      /\ (exists endDate, CommissionRule.endDate rule = Some endDate
                          /\ (t2 <= endDate)%Z).
Proof.
  assert (Hlte : forall col t, lte col t = true
                               <-> exists d, col = Some d /\ (d <= t)%Z).
  { intros [d|] t; cbn.
    - rewrite Z.leb_le. split; [eauto|]. by intros (? & [= <-] & ?).
    - split; [done|]. by intros (? & ? & _). }
  assert (Hgte : forall col t, gte col t = true
                               <-> exists d, col = Some d /\ (t <= d)%Z).
  { intros [d|] t; cbn.
    - rewrite Z.leb_le. split; [eauto|]. by intros (? & [= <-] & ?).
    - split; [done|]. by intros (? & ? & _). }
  destruct tier; cbn [tierWhere scopeMatches];
    unfold campaignRuleWhere, skuRuleWhere, productRuleWhere, defaultRuleWhere;
    rewrite !andb_true_iff, !bool_decide_eq_true, Hlte, Hgte; tauto.
Qed.

(** The nested queries of [findApplicableCommissionRule] are a scan of the
    tiers it queries. *)
Lemma findApplicableCommissionRule_scan
    (w : World) (orderItem : OrderItem.t) (campaignId : option string) :
  findApplicableCommissionRule orderItem campaignId w
  = let (found, queried) :=
      scanTiers w orderItem campaignId (tiersQueried campaignId) (ticks w) in
    (match found with
     | Some rule => Ok rule
     | None => Err (AppError NotFoundError "COMMISSION_RULE_NOT_FOUND")
     end,
     Nat.iter (2 * queried) tick w).
Proof.
  unfold findApplicableCommissionRule, tiersQueried, bind, newDate,
    commissionRule_findFirst, ret, throw.
  destruct (truthy campaignId); cbn;
    repeat (match goal with
            | |- context [List.find ?f ?l] => destruct (List.find f l)
            end; cbn; [reflexivity|]);
    reflexivity.
Qed.

Lemma scanTiers_found w orderItem campaignId tiers n rule queried :
  scanTiers w orderItem campaignId tiers n = (Some rule, queried) ->
  exists k tier,
    queried = S k
    /\ tiers !! k = Some tier
    /\ List.find
         (tierWhere tier orderItem campaignId
            (clock w (2 * k + n)) (clock w (S (2 * k + n))))
         (commissionRule w) = Some rule
    /\ forall j tier' r,
         j < k -> tiers !! j = Some tier' -> r ∈ commissionRule w ->
         tierWhere tier' orderItem campaignId
           (clock w (2 * j + n)) (clock w (S (2 * j + n))) r = false.
Proof.
  revert n queried. induction tiers as [|tier tiers IH]; intros n queried;
    cbn [scanTiers]; [done|].
  destruct (List.find _ (commissionRule w)) as [r0|] eqn:Hfind.
  - intros [= -> <-]. exists 0, tier. cbn. split; [done|]. split; [done|].
    split; [done|]. intros j ? ? Hj. lia.
  - destruct (scanTiers w orderItem campaignId tiers (S (S n)))
      as [found q] eqn:Hrest.
    intros [= -> <-]. destruct (IH _ _ Hrest) as (k & tier0 & -> & Hk & Hf & Hno).
    exists (S k), tier0. split; [done|]. split; [done|].
    replace (2 * S k + n) with (2 * k + S (S n)) by lia. split; [done|].
    intros [|j] tier' r Hj Hl Hr.
    + cbn in Hl. injection Hl as <-. cbn.
      apply list_elem_of_In in Hr. by apply (find_none _ _ Hfind).
    + cbn in Hl. replace (2 * S j + n) with (2 * j + S (S n)) by lia.
      apply (Hno j); [lia|done|done].
Qed.

Lemma scanTiers_none w orderItem campaignId tiers n queried :
  scanTiers w orderItem campaignId tiers n = (None, queried) ->
  queried = length tiers
  /\ forall k tier r,
       tiers !! k = Some tier -> r ∈ commissionRule w ->
       tierWhere tier orderItem campaignId
         (clock w (2 * k + n)) (clock w (S (2 * k + n))) r = false.
Proof.
  revert n queried. induction tiers as [|tier tiers IH]; intros n queried;
    cbn [scanTiers].
  - intros [= <-]. split; [done|]. intros k ? ? Hk. done.
  - destruct (List.find _ (commissionRule w)) as [r0|] eqn:Hfind; [done|].
    destruct (scanTiers w orderItem campaignId tiers (S (S n)))
      as [found q] eqn:Hrest.
    intros [= -> <-]. destruct (IH _ _ Hrest) as (-> & Hno).
    split; [done|]. intros [|k] tier' r Hl Hr.
    + cbn in Hl. injection Hl as <-. cbn.
      apply list_elem_of_In in Hr. by apply (find_none _ _ Hfind).
    + cbn in Hl. replace (2 * S k + n) with (2 * k + S (S n)) by lia.
      by apply (Hno k).
Qed.

Lemma scanTiers_first w orderItem campaignId tiers n k tier rule :
  tiers !! k = Some tier ->
  (forall j tier' r,
      j < k -> tiers !! j = Some tier' -> r ∈ commissionRule w ->
      tierWhere tier' orderItem campaignId
        (clock w (2 * j + n)) (clock w (S (2 * j + n))) r = false) ->
  List.find
    (tierWhere tier orderItem campaignId
       (clock w (2 * k + n)) (clock w (S (2 * k + n))))
    (commissionRule w) = Some rule ->
  scanTiers w orderItem campaignId tiers n = (Some rule, S k).
Proof.
  revert n k. induction tiers as [|tier0 tiers IH]; intros n k Hk Hno Hfind;
    [done|].
  cbn [scanTiers]. destruct k as [|k].
  - cbn in Hk, Hfind. injection Hk as ->. by rewrite Hfind.
  - cbn in Hk.
    pose proof (find_none_all _ _
                  (fun r => Hno 0 tier0 r (Nat.lt_0_succ k) eq_refl)) as H0.
    cbn in H0. rewrite H0.
    rewrite (IH (S (S n)) k Hk).
    + done.
    + intros j tier' r Hj Hl Hr.
      replace (2 * j + S (S n)) with (2 * S j + n) by lia.
      apply (Hno (S j)); [lia|done|done].
    + by replace (2 * k + S (S n)) with (2 * S k + n) by lia.
Qed.

(** An active CAMPAIGN rule of the organization that has started, has no
    end date and carries the campaign id of the call, next to a DEFAULT
    rule: the CAMPAIGN rule matches no query, and the DEFAULT rule is
    returned after the four tiers were queried. *)
Lemma findApplicableCommissionRule_priority_counterexample :
  let campaignRule := Examples.openEndedCampaignRule in
  campaignRule ∈ commissionRule Examples.worldOpenEndedCampaign
  /\ CommissionRule.organizationId campaignRule
     = Order.organizationId (OrderItem.order (Examples.item 100))
  /\ CommissionRule.type campaignRule = CAMPAIGN
  /\ CommissionRule.campaignId campaignRule = Some "campaign1"
  /\ CommissionRule.isActive campaignRule = true
  /\ CommissionRule.startDate campaignRule = Some 0%Z
  /\ CommissionRule.endDate campaignRule = None
  /\ exists rule,
       findApplicableCommissionRule (Examples.item 100) (Some "campaign1")
         Examples.worldOpenEndedCampaign
       = (Ok rule, Nat.iter 8 tick Examples.worldOpenEndedCampaign)
       /\ CommissionRule.type rule = DEFAULT
       /\ rule <> campaignRule.
Proof.
  cbv zeta. split; [apply list_elem_of_here|]. do 6 (split; [reflexivity|]).
  eexists. split; [vm_compute; reflexivity|]. split; [reflexivity|discriminate].
Qed.

(** C3 (amended).  The tiers are queried in the fixed order CAMPAIGN (only
    for a supplied campaign id), SKU, PRODUCT, DEFAULT, each with two clock
    readings of its own, and the first tier that has a matching rule gives
    the result.  A rule matches a tier only when it is of the type of the
    tier, is active and has a start date and an end date that enclose the
    readings of the query: a rule without a start date or without an end
    date matches no tier.  When a [campaignId] is supplied and a CAMPAIGN
    rule of the organization matches, the result is such a CAMPAIGN rule,
    whatever other rules the table holds; when no [campaignId] is supplied
    and an SKU rule matches the item's SKU, the result is such an SKU rule;
    at every tier, when the tiers queried before it have no matching rule
    and the tier has one, the result is a rule matching this tier.  The
    result is the given rule itself when it is the only match of its
    tier. *)
Theorem findApplicableCommissionRule_priority
    (w : World) (orderItem : OrderItem.t) :
  let organizationId := Order.organizationId (OrderItem.order orderItem) in
  let t1 := clock w (ticks w) in
  let t2 := clock w (S (ticks w)) in
  (forall (campaignId : string) (campaignRule : CommissionRule.t),
      campaignId <> "" ->
      campaignRule ∈ commissionRule w ->
      campaignRuleWhere organizationId campaignId t1 t2 campaignRule = true ->
      exists rule,
        findApplicableCommissionRule orderItem (Some campaignId) w
        = (Ok rule, tick (tick w))
        /\ rule ∈ commissionRule w
        /\ campaignRuleWhere organizationId campaignId t1 t2 rule = true
        /\ CommissionRule.type rule = CAMPAIGN
        /\ CommissionRule.campaignId rule = Some campaignId
        /\ ((forall r, r ∈ commissionRule w ->
                       campaignRuleWhere organizationId campaignId t1 t2 r = true ->
                       r = campaignRule) ->
            rule = campaignRule))
  /\ (forall skuRule : CommissionRule.t,
        skuRule ∈ commissionRule w ->
        skuRuleWhere organizationId (OrderItem.skuId orderItem) t1 t2 skuRule
        = true ->
        exists rule,
          findApplicableCommissionRule orderItem None w
          = (Ok rule, tick (tick w))
          /\ rule ∈ commissionRule w
          /\ skuRuleWhere organizationId (OrderItem.skuId orderItem) t1 t2 rule
             = true
          /\ CommissionRule.type rule = SKU
          /\ CommissionRule.skuId rule = Some (OrderItem.skuId orderItem)
          /\ ((forall r, r ∈ commissionRule w ->
                         skuRuleWhere organizationId
                           (OrderItem.skuId orderItem) t1 t2 r = true ->
                         r = skuRule) ->
              rule = skuRule))
  /\ (forall campaignId : option string,
        tiersQueried campaignId
        = if truthy campaignId then [CAMPAIGN; SKU; PRODUCT; DEFAULT]
          else [SKU; PRODUCT; DEFAULT])
  /\ (forall (campaignId : option string) (k : nat)
             (tier : CommissionRuleType) (given : CommissionRule.t),
        let now1 := clock w (2 * k + ticks w) in
        let now2 := clock w (S (2 * k + ticks w)) in
        tiersQueried campaignId !! k = Some tier ->
        (forall j tier' r,
            j < k -> tiersQueried campaignId !! j = Some tier' ->
            r ∈ commissionRule w ->
            tierWhere tier' orderItem campaignId
              (clock w (2 * j + ticks w)) (clock w (S (2 * j + ticks w))) r
            = false) ->
        given ∈ commissionRule w ->
        tierWhere tier orderItem campaignId now1 now2 given = true ->
        exists rule,
          findApplicableCommissionRule orderItem campaignId w
          = (Ok rule, Nat.iter (2 * S k) tick w)
          /\ rule ∈ commissionRule w
          /\ tierWhere tier orderItem campaignId now1 now2 rule = true
          /\ CommissionRule.type rule = tier
          /\ ((forall r, r ∈ commissionRule w ->
                         tierWhere tier orderItem campaignId now1 now2 r = true ->
                         r = given) ->
              rule = given))
  /\ (forall (campaignId : option string) (tier : CommissionRuleType)
             (now1 now2 : Z) (rule : CommissionRule.t),
        tierWhere tier orderItem campaignId now1 now2 rule = true ->
        CommissionRule.organizationId rule = organizationId
        /\ CommissionRule.type rule = tier
        /\ scopeMatches tier orderItem campaignId rule
        /\ CommissionRule.isActive rule = true
        /\ exists startDate endDate,
             CommissionRule.startDate rule = Some startDate
             /\ CommissionRule.endDate rule = Some endDate
             /\ (startDate <= now1)%Z
             /\ (now2 <= endDate)%Z).
Proof.
  intros organizationId t1 t2.
  split; [|split; [|split; [|split]]].
  - intros campaignId campaignRule Hne Hin Hwhere.
    destruct (find_first_elem _ _ _ Hin Hwhere) as (rule & Hfind & Hin' & Hw').
    exists rule. split.
    { apply resolve_campaign; [|exact Hfind].
      cbn. by rewrite bool_decide_eq_false_2. }
    split; [exact Hin'|]. split; [exact Hw'|].
    pose proof Hw' as Hfields. unfold campaignRuleWhere in Hfields.
    repeat (apply andb_prop in Hfields as [Hfields ?]).
    repeat match goal with
           | H : bool_decide _ = true |- _ => apply bool_decide_eq_true_1 in H
           end.
    split; [done|]. split; [done|]. intros Huniq. by apply Huniq.
  - intros skuRule Hin Hwhere.
    destruct (find_first_elem _ _ _ Hin Hwhere) as (rule & Hfind & Hin' & Hw').
    exists rule. split.
    { apply resolve_sku; [done|exact Hfind]. }
    split; [exact Hin'|]. split; [exact Hw'|].
    pose proof Hw' as Hfields. unfold skuRuleWhere in Hfields.
    repeat (apply andb_prop in Hfields as [Hfields ?]).
    repeat match goal with
           | H : bool_decide _ = true |- _ => apply bool_decide_eq_true_1 in H
           end.
    split; [done|]. split; [done|]. intros Huniq. by apply Huniq.
  - intros campaignId. unfold tiersQueried. by destruct (truthy campaignId).
  - intros campaignId k tier given now1 now2 Hk Hno Hin Hwhere.
    destruct (find_first_elem _ _ _ Hin Hwhere) as (rule & Hfind & Hin' & Hw').
    exists rule. split.
    { rewrite findApplicableCommissionRule_scan.
      by rewrite (scanTiers_first _ _ _ _ _ k tier rule Hk Hno Hfind). }
    split; [exact Hin'|]. split; [exact Hw'|]. split.
    + by apply tierWhere_true in Hw' as (_ & Htype & _).
    + intros Huniq. by apply Huniq.
  - intros campaignId tier now1 now2 rule Hwhere.
    apply tierWhere_true in Hwhere
      as (Horg & Htype & Hscope & Hactive & (s & Hs & Hs') & (e & He & He')).
    do 4 (split; [done|]). by exists s, e.
Qed.

Lemma findApplicableCommissionRule_priority_witness :
  findApplicableCommissionRule (Examples.item 100) (Some "campaign1")
    Examples.worldThreeRules
  = (Ok Examples.campaignRule1, tick (tick Examples.worldThreeRules))
  /\ findApplicableCommissionRule (Examples.item 100) None
       Examples.worldThreeRules
     = (Ok Examples.skuRule1, tick (tick Examples.worldThreeRules)).
Proof.
  destruct (findApplicableCommissionRule_priority
              Examples.worldThreeRules (Examples.item 100))
    as (Hc & Hs & _).
  split.
  - destruct (Hc "campaign1" Examples.campaignRule1) as (rule & Hres & _ & _ & _ & _ & Huniq).
    + discriminate.
    + cbn. set_solver.
    + reflexivity.
    + rewrite Hres. f_equal. f_equal. apply Huniq.
      intros r Hr Hw. cbn in Hr.
      repeat (apply elem_of_cons in Hr as [->|Hr]);
        [discriminate Hw|discriminate Hw|reflexivity|].
      by apply elem_of_nil in Hr.
  - destruct (Hs Examples.skuRule1) as (rule & Hres & _ & _ & _ & _ & Huniq).
    + cbn. set_solver.
    + reflexivity.
    + rewrite Hres. f_equal. f_equal. apply Huniq.
      intros r Hr Hw. cbn in Hr.
      repeat (apply elem_of_cons in Hr as [->|Hr]);
        [discriminate Hw|reflexivity|discriminate Hw|].
      by apply elem_of_nil in Hr.
Defined.

(** C8.  When no rule of the table matches the query of any tier that is
    tried (CAMPAIGN for a supplied campaign id, SKU, PRODUCT, DEFAULT),
    [findApplicableCommissionRule] throws the NotFound error
    [COMMISSION_RULE_NOT_FOUND] and returns no rule.  The error is fatal for
    the order item: [calculateCommission] throws it on and returns no
    calculation, the loop over the order's items stops at this item with the
    same error, and the ledger is left as it was. *)
Theorem findApplicableCommissionRule_not_found
    (w : World) (orderItem : OrderItem.t) (campaignId : option string) :
  noRuleMatches w orderItem campaignId ->
  let notFound := AppError NotFoundError "COMMISSION_RULE_NOT_FOUND" in
  let w' := Nat.iter (2 * length (tiersQueried campaignId)) tick w in
  findApplicableCommissionRule orderItem campaignId w = (Err notFound, w')
  /\ (forall paymentFeePercent,
        calculateCommission orderItem paymentFeePercent campaignId w
        = (Err notFound, w'))
  /\ (forall ord item items creatorId calculations ledgerEntries,
        orderItem = OrderItem.withOrder item ord ->
        processOrderItems ord campaignId creatorId (item :: items)
          calculations ledgerEntries w
        = (Err notFound, w'))
  /\ (forall orderId ord item items creatorId,
        order w !! orderId = Some ord ->
        Order.orderItems ord = item :: items ->
        orderItem = OrderItem.withOrder item ord ->
        truthy creatorId = true ->
        processOrderCommissions orderId campaignId creatorId w
        = (Err notFound, w'))
  /\ ledgerEntry w' = ledgerEntry w
  /\ statusCode NotFoundError = 404%Z.
Proof.
  intros Hno notFound w'.
  pose proof (resolve_none w orderItem campaignId Hno) as Hfind.
  fold notFound w' in Hfind.
  assert (Hcalc : forall paymentFeePercent,
             calculateCommission orderItem paymentFeePercent campaignId w
             = (Err notFound, w'))
    by (intros; by apply calculateCommission_failed).
  assert (Hitems : forall ord item items creatorId calculations ledgerEntries,
             orderItem = OrderItem.withOrder item ord ->
             processOrderItems ord campaignId creatorId (item :: items)
               calculations ledgerEntries w
             = (Err notFound, w')).
  { intros order0 item items creatorId calculations ledgerEntries Heq.
    cbn [processOrderItems]. unfold bind at 1. rewrite <- Heq.
    by rewrite Hcalc. }
  split; [exact Hfind|]. split; [exact Hcalc|]. split; [exact Hitems|].
  split; [|split; [apply iter_tick_ledgerEntry|reflexivity]].
  intros orderId order0 item items creatorId Horder Hitems0 Heq Hcreator.
  unfold processOrderCommissions, try_catch, bind at 1, order_findUnique.
  rewrite Horder. rewrite Hcreator. cbn [negb andb].
  unfold bind at 1, ret. rewrite Hcreator. cbn [negb].
  rewrite Hitems0. by rewrite (Hitems order0 item items _ [] [] Heq).
Qed.

Lemma findApplicableCommissionRule_not_found_witness :
  exists w',
    findApplicableCommissionRule (Examples.item 100) (Some "campaign1")
      Examples.worldNoActiveRule
    = (Err (AppError NotFoundError "COMMISSION_RULE_NOT_FOUND"), w')
    /\ ledgerEntry w' = ledgerEntry Examples.worldNoActiveRule.
Proof.
  assert (Hno : noRuleMatches Examples.worldNoActiveRule (Examples.item 100)
                  (Some "campaign1")).
  { intros k tier r Hk Hr. cbn in Hr.
    repeat (apply elem_of_cons in Hr as [->|Hr]);
      [| |by apply elem_of_nil in Hr];
      (do 4 (destruct k as [|k]; [injection Hk as <-; reflexivity|]));
      discriminate Hk. }
  destruct (findApplicableCommissionRule_not_found _ _ _ Hno)
    as (Hfind & _ & _ & _ & Hledger & _).
  eexists. split; [exact Hfind|exact Hledger].
Defined.

(** ** The ledger *)

Lemma setLedger_same (w : World) : setLedger (ledgerEntry w) w = w.
Proof. by destruct w. Qed.

Lemma setLedger_setLedger l1 l2 (w : World) :
  setLedger l1 (setLedger l2 w) = setLedger l1 w.
Proof. done. Qed.

Lemma iter_tick_ticks (n : nat) (w : World) :
  ticks (Nat.iter n tick w) = ticks w + n.
Proof. induction n as [|n IH]; simpl; [lia|]. rewrite IH. lia. Qed.

Lemma iter_tick_clock (n : nat) (w : World) :
  clock (Nat.iter n tick w) = clock w.
Proof. induction n as [|n IH]; [done|]. simpl. exact IH. Qed.

Lemma mapM_newDate {A B} (g : A -> Z -> B) (xs : list A) (w : World) :
  mapM (fun x => now <- newDate ;; ret (g x now)) xs w
  = (Ok (imap (fun k x => g x (clock w (ticks w + k))) xs),
     Nat.iter (length xs) tick w).
Proof.
  revert w. induction xs as [|x xs IH]; intros w; [done|].
  cbn [mapM]. unfold bind at 1. unfold bind at 1. unfold newDate at 1. cbn [ret].
  unfold bind at 1. rewrite IH. unfold ret. cbn [length imap].
  rewrite Nat.add_0_r. rewrite Nat.iter_succ_r. f_equal. f_equal. f_equal.
  apply imap_ext. intros k y _. cbn. by rewrite Nat.add_succ_r.
Qed.

Lemma sequence_updates (updates : list (string * LedgerEntryUpdateInput.t))
    (w : World) :
  sequence (map (fun u => ledgerEntry_update u.1 u.2) updates) w
  = match applyUpdates updates (ledgerEntry w) with
    | (Some rows, ledger') => (Ok rows, setLedger ledger' w)
    | (None, ledger') => (Err (PrismaError "P2025"), setLedger ledger' w)
    end.
Proof.
  revert w. induction updates as [|[id data] updates IH]; intros w.
  - cbn. by rewrite setLedger_same.
  - cbn [map sequence applyUpdates]. unfold bind at 1.
    unfold ledgerEntry_update at 1. cbn [fst snd].
    destruct (ledgerEntry w !! id) as [e|] eqn:He.
    + unfold bind at 1. rewrite IH. cbn [ledgerEntry setLedger].
      destruct (applyUpdates updates _) as [[rows|] ledger']; done.
    + by rewrite setLedger_same.
Qed.

(** Whatever relation every single update respects, a run of updates
    respects row by row, and no row appears or disappears. *)
Lemma applyUpdates_related (R : relation LedgerEntry.t)
    `{!Reflexive R, !Transitive R}
    (updates : list (string * LedgerEntryUpdateInput.t)) :
  (forall u e, u ∈ updates -> R e (LedgerEntryUpdateInput.apply u.2 e)) ->
  forall ledger rows ledger',
    applyUpdates updates ledger = (rows, ledger') ->
    forall id, option_Forall2 R (ledger !! id) (ledger' !! id).
Proof.
  induction updates as [|[i d] updates IH]; intros HR ledger rows ledger' Hrun id.
  - injection Hrun as _ <-. destruct (ledger !! id); by constructor.
  - cbn [applyUpdates] in Hrun. destruct (ledger !! i) as [e|] eqn:He.
    + destruct (applyUpdates updates _) as [rows0 ledger0] eqn:Hrest.
      injection Hrun as _ <-.
      assert (Hstep : option_Forall2 R (ledger !! id)
                        (<[i := LedgerEntryUpdateInput.apply d e]> ledger !! id)).
      { destruct (decide (i = id)) as [->|Hne].
        - rewrite lookup_insert_eq, He. constructor.
          apply (HR (id, d)). apply list_elem_of_here.
        - rewrite lookup_insert_ne by done.
          destruct (ledger !! id); by constructor. }
      eapply (IH (fun u e0 Hu => HR u e0 (list_elem_of_further _ _ _ Hu)))
        with (id := id) in Hrest.
      destruct Hstep; inversion Hrest; subst; constructor.
      by etrans.
    + injection Hrun as _ <-. destruct (ledger !! id); by constructor.
Qed.

Lemma fmap_fst_imap {A B} (f : nat -> string * A -> B) (rows : list (string * A)) :
  (imap (fun k r => (r.1, f k r)) rows).*1 = rows.*1.
Proof.
  revert f. induction rows as [|r rows IH]; intros f; [done|].
  cbn. f_equal. apply (IH (fun k => f (S k))).
Qed.

(** Updates of distinct rows, each built from the row as it was found. *)
Lemma applyUpdates_distinct
    (mk : nat -> LedgerRow -> LedgerEntryUpdateInput.t)
    (found : list LedgerRow) (ledger : gmap string LedgerEntry.t) :
  NoDup found.*1 ->
  (forall r, r ∈ found -> ledger !! r.1 = Some r.2) ->
  let updated :=
    imap (fun k r => (r.1, LedgerEntryUpdateInput.apply (mk k r) r.2)) found in
  applyUpdates (imap (fun k r => (r.1, mk k r)) found) ledger
  = (Some updated, list_to_map updated ∪ ledger).
Proof.
  revert mk ledger. induction found as [|[i e] found IH];
    intros mk ledger Hnd Hin.
  - cbn. by rewrite (left_id_L ∅ (∪)).
  - rewrite fmap_cons in Hnd. apply NoDup_cons in Hnd as [Hi Hnd].
    cbn [fst] in Hi.
    pose proof (Hin (i, e) (list_elem_of_here _ _)) as Hie.
    cbn [fst snd] in Hie.
    cbn [imap applyUpdates fst snd]. rewrite Hie.
    specialize (IH (fun k => mk (S k))
                  (<[i := LedgerEntryUpdateInput.apply (mk 0 (i, e)) e]> ledger)
                  Hnd).
    cbn zeta in IH. unfold compose. rewrite IH.
    + cbn [fmap option_fmap option_map list_to_map foldr uncurry fst snd].
      f_equal. rewrite <- insert_union_l.
      symmetry. apply insert_union_r.
      apply not_elem_of_list_to_map_1.
      by rewrite (fmap_fst_imap
                    (fun k r =>
                       LedgerEntryUpdateInput.apply (mk (S k) r) r.2)).
    + intros r Hr. rewrite lookup_insert_ne.
      * apply Hin. by apply list_elem_of_further.
      * intros ->. apply Hi. by apply list_elem_of_fmap_2.
Qed.

Lemma imap_updates {A} (key : A -> string)
    (mk : nat -> A -> LedgerEntryUpdateInput.t) (xs : list A) :
  imap (fun k x => ledgerEntry_update (key x) (mk k x)) xs
  = map (fun u => ledgerEntry_update u.1 u.2)
        (imap (fun k x => (key x, mk k x)) xs).
Proof.
  revert mk. induction xs as [|x xs IH]; intros mk; [done|].
  cbn [imap map fst snd]. f_equal. apply (IH (fun k => mk (S k))).
Qed.

(** The updates are built with one clock reading each, then run in one
    transaction. *)
Lemma run_bulk_updates {A} (key : A -> string)
    (mk : A -> Z -> LedgerEntryUpdateInput.t) (xs : list A) (w : World) :
  (updates <- mapM (fun x => now <- newDate ;;
                             ret (ledgerEntry_update (key x) (mk x now))) xs ;;
   rows <- transaction (sequence updates) ;;
   ret rows) w
  = let w1 := Nat.iter (length xs) tick w in
    match applyUpdates
            (imap (fun k x => (key x, mk x (clock w (ticks w + k)))) xs)
            (ledgerEntry w) with
    | (Some rows, ledger') => (Ok rows, setLedger ledger' w1)
    | (None, _) => (Err (PrismaError "P2025"), w1)
    end.
Proof.
  unfold bind at 1.
  rewrite (mapM_newDate (fun x now => ledgerEntry_update (key x) (mk x now))).
  unfold bind, transaction.
  rewrite (imap_updates key (fun k x => mk x (clock w (ticks w + k)))).
  rewrite sequence_updates. rewrite iter_tick_ledgerEntry. cbn zeta.
  destruct (applyUpdates _ _) as [[rows|] ledger']; [done|].
  by rewrite setLedger_setLedger, <- (iter_tick_ledgerEntry (length xs) w),
       setLedger_same.
Qed.

Lemma filter_fst_NoDup {A B} (f : A * B -> bool) (l : list (A * B)) :
  NoDup l.*1 -> NoDup (List.filter f l).*1.
Proof.
  induction l as [|x l IH]; [done|]. rewrite fmap_cons.
  intros [Hx Hl]%NoDup_cons. cbn [List.filter].
  destruct (f x); [|by apply IH].
  rewrite fmap_cons. apply NoDup_cons. split; [|by apply IH].
  intros Hin. apply Hx. apply list_elem_of_fmap in Hin as (y & -> & Hy).
  apply list_elem_of_fmap_2. apply list_elem_of_In in Hy.
  apply filter_In in Hy as [Hy _]. by apply list_elem_of_In.
Qed.

(** The rows a query finds are distinct rows of the ledger that satisfy the
    [where] clause, and every such row is found. *)
Lemma findMany_rows (where_ : LedgerEntry.t -> bool)
    (ledger : gmap string LedgerEntry.t) :
  let found := List.filter (fun r : LedgerRow => where_ r.2)
                 (map_to_list ledger) in
  NoDup found.*1
  /\ (forall r, r ∈ found <-> ledger !! r.1 = Some r.2 /\ where_ r.2 = true).
Proof.
  split.
  - apply filter_fst_NoDup, NoDup_fst_map_to_list.
  - intros [i e]. rewrite list_elem_of_In, filter_In, <- list_elem_of_In.
    by rewrite elem_of_map_to_list.
Qed.

(** Select, then update every selected row in one transaction: the shape of
    [clearLedgerEntries] and of [cancelLedgerEntries]. *)
Lemma select_then_update (where_ : LedgerEntry.t -> bool)
    (mk : LedgerRow -> Z -> LedgerEntryUpdateInput.t)
    (handler : Exn -> M (list LedgerRow)) (w : World) :
  try_catch
    (found <- ledgerEntry_findMany where_ ;;
     if (length found =? 0)%nat then ret []
     else
       updates <-
         mapM (fun entry : LedgerRow =>
                 now <- newDate ;;
                 ret (ledgerEntry_update entry.1 (mk entry now)))
              found ;;
       rows <- transaction (sequence updates) ;;
       ret rows)
    handler w
  = let found := foundRows where_ w in
    let updated := updatedRows mk found w in
    (Ok updated,
     setLedger (list_to_map updated ∪ ledgerEntry w)
       (Nat.iter (length found) tick w)).
Proof.
  unfold try_catch, bind at 1, ledgerEntry_findMany.
  fold (foundRows where_ w). cbn zeta.
  destruct (findMany_rows where_ (ledgerEntry w)) as [Hnd Hin].
  fold (foundRows where_ w) in Hnd, Hin.
  destruct (foundRows where_ w) as [|r found] eqn:Hfound.
  - cbn. by rewrite (left_id_L ∅ (∪)), setLedger_same.
  - cbn [length Nat.eqb].
    rewrite (run_bulk_updates fst mk (r :: found) w). cbn zeta.
    pose proof (applyUpdates_distinct
                  (fun k r => mk r (clock w (ticks w + k)))
                  (r :: found) (ledgerEntry w) Hnd) as Hrun.
    cbn zeta in Hrun. rewrite Hrun; [done|].
    intros r' Hr'. by apply Hin.
Qed.

(** What a select-then-update leaves in the ledger, row by row. *)
Lemma lookup_updated (where_ : LedgerEntry.t -> bool)
    (mk : LedgerRow -> Z -> LedgerEntryUpdateInput.t) (w : World) (id : string) :
  let found := foundRows where_ w in
  let ledger' := list_to_map (updatedRows mk found w) ∪ ledgerEntry w in
  match ledgerEntry w !! id with
  | Some e =>
      if where_ e then
        exists k, found !! k = Some (id, e)
                  /\ ledger' !! id
                     = Some (LedgerEntryUpdateInput.apply
                               (mk (id, e) (clock w (ticks w + k))) e)
      else ledger' !! id = Some e
  | None => ledger' !! id = None
  end.
Proof.
  intros found ledger'.
  destruct (findMany_rows where_ (ledgerEntry w)) as [Hnd Hin].
  fold (foundRows where_ w) in Hnd, Hin. fold found in Hnd, Hin.
  assert (Hkeys : (updatedRows mk found w).*1 = found.*1).
  { unfold updatedRows.
    apply (fmap_fst_imap
             (fun k r => LedgerEntryUpdateInput.apply
                           (mk r (clock w (ticks w + k))) r.2)). }
  assert (Hmiss : forall e, ledgerEntry w !! id = Some e -> where_ e = false ->
                            id ∉ found.*1).
  { intros e He Hw Hid. apply list_elem_of_fmap in Hid as ([i e'] & -> & Hr).
    apply Hin in Hr as [Hl Hw']. cbn in *. congruence. }
  destruct (ledgerEntry w !! id) as [e|] eqn:He.
  - destruct (where_ e) eqn:Hw.
    + assert (Hr : (id, e) ∈ found) by (by apply Hin).
      apply list_elem_of_lookup in Hr as [k Hk]. exists k. split; [done|].
      unfold ledger'. apply lookup_union_Some_l.
      apply elem_of_list_to_map_1; [by rewrite Hkeys|].
      unfold updatedRows.
      apply (elem_of_lookup_imap_2
               (fun k r => (r.1, LedgerEntryUpdateInput.apply
                                   (mk r (clock w (ticks w + k))) r.2))
               found (id, e) k Hk).
    + unfold ledger'. rewrite lookup_union_r; [done|].
      apply not_elem_of_list_to_map_1. rewrite Hkeys. by eapply Hmiss.
  - unfold ledger'. rewrite lookup_union_r; [done|].
    apply not_elem_of_list_to_map_1. rewrite Hkeys.
    intros Hid. apply list_elem_of_fmap in Hid as ([i e'] & -> & Hr).
    apply Hin in Hr as [Hl _]. cbn in *. congruence.
Qed.

Lemma reservedWhere_true orderId e :
  reservedWhere orderId e = true
  <-> LedgerEntry.orderId e = orderId /\ LedgerEntry.status e = RESERVED.
Proof.
  unfold reservedWhere. by rewrite andb_true_iff, !bool_decide_eq_true.
Qed.

Lemma notCancelledWhere_true orderId e :
  notCancelledWhere orderId e = true
  <-> LedgerEntry.orderId e = orderId /\ LedgerEntry.status e <> CANCELLED.
Proof.
  unfold notCancelledWhere.
  rewrite andb_true_iff, negb_true_iff, bool_decide_eq_true,
    bool_decide_eq_false, list_elem_of_singleton. done.
Qed.

Lemma clearLedgerEntries_run orderId w :
  clearLedgerEntries orderId w
  = let found := foundRows (reservedWhere orderId) w in
    let updated := updatedRows (fun _ now => clearedData now) found w in
    (Ok updated,
     setLedger (list_to_map updated ∪ ledgerEntry w)
       (Nat.iter (length found) tick w)).
Proof.
  apply (select_then_update (reservedWhere orderId)
           (fun _ now => clearedData now)).
Qed.

Lemma cancelLedgerEntries_run orderId reason w :
  cancelLedgerEntries orderId reason w
  = let found := foundRows (notCancelledWhere orderId) w in
    let updated :=
      updatedRows (fun r now => cancelledData r.2 reason now) found w in
    (Ok updated,
     setLedger (list_to_map updated ∪ ledgerEntry w)
       (Nat.iter (length found) tick w)).
Proof.
  apply (select_then_update (notCancelledWhere orderId)
           (fun r now => cancelledData r.2 reason now)).
Qed.

(** Two RESERVED entries of one order are cleared with two different
    timestamps, 500 and 501, taken from two clock readings. *)
Lemma clearLedgerEntries_timestamps_counterexample :
  exists r1 r2 rows w',
    clearLedgerEntries "order1" Examples.worldLedger1 = (Ok rows, w')
    /\ rows = [r1; r2]
    /\ r1.1 = "e1" /\ LedgerEntry.clearedAt r1.2 = Some 500%Z
    /\ r2.1 = "e2" /\ LedgerEntry.clearedAt r2.2 = Some 501%Z
    /\ LedgerEntry.clearedAt r1.2 <> LedgerEntry.clearedAt r2.2
    /\ ticks Examples.worldLedger1 = 0
    /\ ticks w' = 2.
Proof.
  eexists. eexists. eexists. eexists.
  split; [vm_compute; reflexivity|].
  split; [reflexivity|]. cbn.
  repeat split; try reflexivity. discriminate.
Qed.

(** C7 (amended).  [clearLedgerEntries] never fails.  It moves every
    RESERVED entry of the order, and no other entry, to CLEARED and returns
    the entries it moved.  Each entry is stamped with a clock reading of its
    own: the [k]-th entry found gets the [k]-th reading made during the
    call, so the call makes as many readings as it clears entries.  When no
    entry of the order is RESERVED the result is empty and nothing
    changes. *)
Theorem clearLedgerEntries_clears_reserved (w : World) (orderId : string) :
  let found := foundRows (reservedWhere orderId) w in
  exists rows w',
    clearLedgerEntries orderId w = (Ok rows, w')
    /\ length rows = length found
    /\ ticks w' = ticks w + length found
    /\ (forall k r,
          rows !! k = Some r ->
          exists e,
            ledgerEntry w !! r.1 = Some e
            /\ LedgerEntry.orderId e = orderId
            /\ LedgerEntry.status e = RESERVED
            /\ r.2 = LedgerEntryUpdateInput.apply
                       (clearedData (clock w (ticks w + k))) e
            /\ LedgerEntry.status r.2 = CLEARED
            /\ LedgerEntry.clearedAt r.2 = Some (clock w (ticks w + k))
            /\ ledgerEntry w' !! r.1 = Some r.2)
    /\ (forall id e,
          ledgerEntry w !! id = Some e ->
          (LedgerEntry.orderId e = orderId /\ LedgerEntry.status e = RESERVED ->
           exists k e',
             rows !! k = Some (id, e')
             /\ ledgerEntry w' !! id = Some e'
             /\ LedgerEntry.status e' = CLEARED
             /\ LedgerEntry.clearedAt e' = Some (clock w (ticks w + k)))
          /\ (~ (LedgerEntry.orderId e = orderId
                 /\ LedgerEntry.status e = RESERVED) ->
              ledgerEntry w' !! id = Some e))
    /\ (forall id, ledgerEntry w !! id = None -> ledgerEntry w' !! id = None)
    /\ (found = [] -> rows = [] /\ w' = w).
Proof.
  intros found. rewrite clearLedgerEntries_run. fold found. cbn zeta.
  eexists. eexists. split; [reflexivity|].
  pose proof (lookup_updated (reservedWhere orderId)
                (fun _ now => clearedData now) w) as Hlook.
  cbn zeta in Hlook. fold found in Hlook.
  destruct (findMany_rows (reservedWhere orderId) (ledgerEntry w)) as [Hnd Hin].
  fold (foundRows (reservedWhere orderId) w) in Hnd, Hin. fold found in Hnd, Hin.
  split; [apply length_imap|].
  split; [cbn; apply iter_tick_ticks|].
  split; [|split; [|split]].
  - intros k [id e'] Hk. unfold updatedRows in Hk.
    apply list_lookup_imap_Some in Hk as ([id0 e] & Hfound & Heq).
    cbn [fst snd] in Heq. injection Heq as -> ->.
    pose proof (list_elem_of_lookup_2 _ _ _ Hfound) as Hr.
    apply Hin in Hr as [He Hw]. cbn [fst snd] in He, Hw.
    exists e. split; [exact He|].
    apply reservedWhere_true in Hw as Hw'. destruct Hw' as [Ho Hs].
    do 2 (split; [done|]). do 3 (split; [reflexivity|]).
    cbn [fst snd ledgerEntry setLedger].
    specialize (Hlook id0). rewrite He, Hw in Hlook.
    destruct Hlook as (k' & Hk' & Hl). rewrite Hl.
    assert (k' = k) as ->; [|done].
    apply (NoDup_lookup _ _ _ id0 Hnd);
      by rewrite list_lookup_fmap, ?Hfound, ?Hk'.
  - intros id e He. specialize (Hlook id). rewrite He in Hlook. split.
    + intros Hres. apply reservedWhere_true in Hres. rewrite Hres in Hlook.
      destruct Hlook as (k & Hk & Hl). exists k. eexists.
      split; [|split; [exact Hl|split; reflexivity]].
      unfold updatedRows. rewrite list_lookup_imap, Hk. reflexivity.
    + intros Hnot. rewrite <- reservedWhere_true in Hnot.
      apply not_true_is_false in Hnot. by rewrite Hnot in Hlook.
  - intros id He. specialize (Hlook id). by rewrite He in Hlook.
  - intros Hfound. rewrite Hfound. cbn.
    by rewrite (left_id_L ∅ (∪)), setLedger_same.
Qed.

Lemma clearLedgerEntries_clears_reserved_witness :
  exists rows w',
    clearLedgerEntries "order1" Examples.worldLedger1 = (Ok rows, w')
    /\ length rows = 2
    /\ LedgerEntry.status <$> ledgerEntry w' !! "e1" = Some CLEARED
    /\ ledgerEntry w' !! "e3" = ledgerEntry Examples.worldLedger1 !! "e3"
    /\ ledgerEntry w' !! "e4" = ledgerEntry Examples.worldLedger1 !! "e4".
Proof.
  destruct (clearLedgerEntries_clears_reserved Examples.worldLedger1 "order1")
    as (rows & w' & Hrun & Hlen & _ & _ & Hpoint & _ & _).
  exists rows, w'. split; [exact Hrun|]. split; [exact Hlen|].
  split; [|split].
  - destruct (Hpoint "e1" _ eq_refl) as [Hres _].
    destruct Hres as (k & e' & _ & He' & Hs & _); [by split|].
    by rewrite He', <- Hs.
  - destruct (Hpoint "e3" _ eq_refl) as [_ Hother].
    rewrite Hother; [reflexivity|]. intros [_ Hs]. discriminate Hs.
  - destruct (Hpoint "e4" _ eq_refl) as [_ Hother].
    rewrite Hother; [reflexivity|]. intros [Ho _]. discriminate Ho.
Defined.

Lemma applyUpdates_untouched
    (updates : list (string * LedgerEntryUpdateInput.t))
    (ledger : gmap string LedgerEntry.t) (id : string) :
  id ∉ updates.*1 -> (applyUpdates updates ledger).2 !! id = ledger !! id.
Proof.
  revert ledger. induction updates as [|[i d] updates IH]; intros ledger Hid;
    [done|].
  rewrite fmap_cons in Hid. apply not_elem_of_cons in Hid as [Hne Hid].
  cbn [applyUpdates]. destruct (ledger !! i) as [e|] eqn:He; [|done].
  specialize (IH (<[i := LedgerEntryUpdateInput.apply d e]> ledger) Hid).
  destruct (applyUpdates updates _) as [rows ledger']. cbn [snd] in *.
  rewrite IH. by apply lookup_insert_ne.
Qed.

Lemma applyUpdates_success
    (updates : list (string * LedgerEntryUpdateInput.t))
    (ledger : gmap string LedgerEntry.t) :
  (forall u, u ∈ updates -> is_Some (ledger !! u.1)) ->
  exists rows, (applyUpdates updates ledger).1 = Some rows
               /\ length rows = length updates.
Proof.
  revert ledger. induction updates as [|[i d] updates IH]; intros ledger Hall.
  - by exists [].
  - cbn [applyUpdates].
    destruct (Hall (i, d) (list_elem_of_here _ _)) as [e He].
    cbn [fst] in He. rewrite He.
    destruct (IH (<[i := LedgerEntryUpdateInput.apply d e]> ledger))
      as (rows & Hrows & Hlen).
    { intros u Hu. apply lookup_insert_is_Some'. right.
      apply Hall. by apply list_elem_of_further. }
    destruct (applyUpdates updates _) as [rows0 ledger']. cbn [fst] in *.
    subst rows0. eexists. split; [reflexivity|]. cbn. by rewrite Hlen.
Qed.

Lemma applyUpdates_failure
    (updates : list (string * LedgerEntryUpdateInput.t))
    (ledger : gmap string LedgerEntry.t) (u : string * LedgerEntryUpdateInput.t) :
  u ∈ updates -> ledger !! u.1 = None ->
  (applyUpdates updates ledger).1 = None.
Proof.
  revert ledger. induction updates as [|[i d] updates IH]; intros ledger Hu Hnone.
  - by apply elem_of_nil in Hu.
  - cbn [applyUpdates]. destruct (ledger !! i) as [e|] eqn:He; [|done].
    apply elem_of_cons in Hu as [->|Hu]; [cbn in Hnone; congruence|].
    specialize (IH (<[i := LedgerEntryUpdateInput.apply d e]> ledger) Hu).
    destruct (applyUpdates updates _) as [rows ledger']. cbn [fst] in *.
    rewrite IH; [done|].
    rewrite lookup_insert_ne; [done|]. intros ->. congruence.
Qed.

(** What every update establishes holds, after a run, of every row that
    some update of the run names. *)
Lemma applyUpdates_established (P : LedgerEntry.t -> Prop)
    (updates : list (string * LedgerEntryUpdateInput.t))
    (ledger : gmap string LedgerEntry.t) (id : string) (e' : LedgerEntry.t) :
  (forall u e, u ∈ updates -> P (LedgerEntryUpdateInput.apply u.2 e)) ->
  id ∈ updates.*1 ->
  is_Some (applyUpdates updates ledger).1 ->
  (applyUpdates updates ledger).2 !! id = Some e' ->
  P e'.
Proof.
  revert ledger. induction updates as [|[i d] updates IH];
    intros ledger HP Hid Hok Hlook.
  - by apply elem_of_nil in Hid.
  - cbn [applyUpdates] in Hok, Hlook.
    destruct (ledger !! i) as [e|] eqn:He; [|by destruct Hok].
    pose proof (applyUpdates_untouched updates
                  (<[i := LedgerEntryUpdateInput.apply d e]> ledger) id) as Hun.
    specialize (IH (<[i := LedgerEntryUpdateInput.apply d e]> ledger)).
    destruct (applyUpdates updates _) as [rows ledger'] eqn:Hrest.
    cbn [fst snd] in *.
    destruct (decide (id ∈ updates.*1)) as [Hin|Hnin].
    + apply IH; [|done| |done].
      * intros u e0 Hu. apply HP. by apply list_elem_of_further.
      * destruct rows; [done|by destruct Hok].
    + rewrite fmap_cons in Hid. apply elem_of_cons in Hid as [->|Hid]; [|done].
      rewrite Hun in Hlook by done. cbn [fst] in Hlook.
      rewrite lookup_insert_eq in Hlook. injection Hlook as <-.
      apply (HP (i, d)). apply list_elem_of_here.
Qed.

Lemma markCommissionsAsPaid_run commissionIds payoutId w :
  markCommissionsAsPaid commissionIds payoutId w
  = let w1 := Nat.iter (length commissionIds) tick w in
    match applyUpdates
            (imap (fun k id => (id, paidData payoutId (clock w (ticks w + k))))
               commissionIds)
            (ledgerEntry w) with
    | (Some rows, ledger') => (Ok rows, setLedger ledger' w1)
    | (None, _) =>
        (Err (AppError InternalServerError "COMMISSION_PAYMENT_UPDATE_FAILED"),
         w1)
    end.
Proof.
  unfold markCommissionsAsPaid, try_catch.
  pose proof (run_bulk_updates (fun id : string => id)
                (fun _ now => paidData payoutId now) commissionIds w) as Hrun.
  cbn beta zeta in Hrun. rewrite Hrun.
  by destruct (applyUpdates _ _) as [[rows|] ledger'].
Qed.

#[local] Instance sameWriteOnceColumns_refl : Reflexive sameWriteOnceColumns.
Proof. intros e. by repeat split. Qed.

#[local] Instance sameWriteOnceColumns_trans : Transitive sameWriteOnceColumns.
Proof.
  intros e1 e2 e3 H12 H23. unfold sameWriteOnceColumns in *.
  destruct_and!. repeat split; congruence.
Qed.

(** An update whose data names neither the amount, the currency, the entry
    type nor the description leaves the write-once columns as they are. *)
Lemma apply_sameWriteOnceColumns (d : LedgerEntryUpdateInput.t) (e : LedgerEntry.t) :
  LedgerEntryUpdateInput.amount d = None ->
  LedgerEntryUpdateInput.currency d = None ->
  LedgerEntryUpdateInput.entryType d = None ->
  LedgerEntryUpdateInput.description d = None ->
  sameWriteOnceColumns e (LedgerEntryUpdateInput.apply d e).
Proof.
  intros Ha Hc Ht Hd. unfold sameWriteOnceColumns. cbn.
  rewrite Ha, Hc, Ht, Hd. by repeat split.
Qed.

(** C9.  The amount and the currency of a ledger entry are written once:
    [clearLedgerEntries], [cancelLedgerEntries] and [markCommissionsAsPaid]
    keep every entry of the ledger, with the amount and the currency it had
    (and its references, entry type, description and creation date); what
    they write is the status, [clearedAt], [paidAt], the payout link and the
    metadata. *)
Theorem status_operations_keep_amount_and_currency
    (w : World) (id : string) (e : LedgerEntry.t) :
  ledgerEntry w !! id = Some e ->
  (forall orderId,
      exists e', ledgerEntry (clearLedgerEntries orderId w).2 !! id = Some e'
                 /\ LedgerEntry.amount e' = LedgerEntry.amount e
                 /\ LedgerEntry.currency e' = LedgerEntry.currency e
                 /\ sameWriteOnceColumns e e')
  /\ (forall orderId reason,
        exists e',
          ledgerEntry (cancelLedgerEntries orderId reason w).2 !! id = Some e'
          /\ LedgerEntry.amount e' = LedgerEntry.amount e
          /\ LedgerEntry.currency e' = LedgerEntry.currency e
          /\ sameWriteOnceColumns e e')
  /\ (forall commissionIds payoutId,
        exists e',
          ledgerEntry (markCommissionsAsPaid commissionIds payoutId w).2 !! id
          = Some e'
          /\ LedgerEntry.amount e' = LedgerEntry.amount e
          /\ LedgerEntry.currency e' = LedgerEntry.currency e
          /\ sameWriteOnceColumns e e').
Proof.
  intros He.
  assert (Hselect : forall where_ mk,
             (forall r now, sameWriteOnceColumns r.2
                              (LedgerEntryUpdateInput.apply (mk r now) r.2)) ->
             exists e',
               (list_to_map (updatedRows mk (foundRows where_ w) w)
                ∪ ledgerEntry w) !! id = Some e'
               /\ sameWriteOnceColumns e e').
  { intros where_ mk Hmk. pose proof (lookup_updated where_ mk w id) as Hl.
    cbn zeta in Hl. rewrite He in Hl. destruct (where_ e).
    - destruct Hl as (k & _ & Hl). eexists. split; [exact Hl|].
      apply (Hmk (id, e)).
    - exists e. by split. }
  split; [|split].
  - intros orderId. rewrite clearLedgerEntries_run. cbn.
    destruct (Hselect (reservedWhere orderId) (fun _ now => clearedData now))
      as (e' & He' & Hsame); [intros; by apply apply_sameWriteOnceColumns|].
    exists e'. split; [exact He'|]. split; [apply Hsame|].
    split; [apply Hsame|exact Hsame].
  - intros orderId reason. rewrite cancelLedgerEntries_run. cbn.
    destruct (Hselect (notCancelledWhere orderId)
                (fun r now => cancelledData r.2 reason now))
      as (e' & He' & Hsame); [intros; by apply apply_sameWriteOnceColumns|].
    exists e'. split; [exact He'|]. split; [apply Hsame|].
    split; [apply Hsame|exact Hsame].
  - intros commissionIds payoutId. rewrite markCommissionsAsPaid_run. cbn zeta.
    destruct (applyUpdates _ _) as [rows ledger'] eqn:Hrun.
    assert (Hrel : option_Forall2 sameWriteOnceColumns
                     (ledgerEntry w !! id) (ledger' !! id)).
    { eapply (applyUpdates_related sameWriteOnceColumns); [|exact Hrun].
      intros u e0 Hu. apply elem_of_lookup_imap_1 in Hu as (k & i & -> & _).
      by apply apply_sameWriteOnceColumns. }
    destruct rows as [rows|]; cbn [snd ledgerEntry setLedger].
    + rewrite He in Hrel. inversion Hrel as [? e' Hsame|]; subst.
      exists e'. split; [done|]. split; [apply Hsame|].
      split; [apply Hsame|exact Hsame].
    + rewrite iter_tick_ledgerEntry. exists e. by repeat split.
Qed.

Lemma status_operations_keep_amount_and_currency_witness :
  (exists e',
      ledgerEntry (clearLedgerEntries "order1" Examples.worldLedger1).2 !! "e2"
      = Some e'
      /\ LedgerEntry.amount e' = 10%Q /\ LedgerEntry.currency e' = "USD")
  /\ (exists e',
        ledgerEntry
          (cancelLedgerEntries "order1" "refund" Examples.worldLedger1).2
        !! "e2" = Some e'
        /\ LedgerEntry.amount e' = 10%Q /\ LedgerEntry.currency e' = "USD")
  /\ (exists e',
        ledgerEntry
          (markCommissionsAsPaid ["e2"] "payout1" Examples.worldLedger1).2
        !! "e2" = Some e'
        /\ LedgerEntry.amount e' = 10%Q /\ LedgerEntry.currency e' = "USD").
Proof.
  destruct (status_operations_keep_amount_and_currency
              Examples.worldLedger1 "e2" _ eq_refl) as (Hclear & Hcancel & Hpaid).
  split; [|split].
  - destruct (Hclear "order1") as (e' & He' & Ha & Hc & _).
    exists e'. by rewrite Ha, Hc.
  - destruct (Hcancel "order1" "refund") as (e' & He' & Ha & Hc & _).
    exists e'. by rewrite Ha, Hc.
  - destruct (Hpaid ["e2"] "payout1") as (e' & He' & Ha & Hc & _).
    exists e'. by rewrite Ha, Hc.
Defined.

(** A [catch] that throws the error of the method: whatever the body
    throws, the method throws that error. *)
Lemma try_catch_throw {A} (m : M A) (e0 e : Exn) (w w' : World) :
  try_catch m (fun _ => throw e0) w = (Err e, w') -> e = e0.
Proof.
  unfold try_catch, throw. destruct (m w) as [[a|e1] w1]; congruence.
Qed.

Lemma fmap_fst_imap_ids {B} (f : nat -> string -> B) (ids : list string) :
  (imap (fun k id => (id, f k id)) ids).*1 = ids.
Proof.
  revert f. induction ids as [|id ids IH]; intros f; [done|].
  cbn. f_equal. apply (IH (fun k => f (S k))).
Qed.

(** A PAID entry is moved to CANCELLED by [cancelLedgerEntries], and a
    RESERVED entry is moved to PAID by [markCommissionsAsPaid]; both calls
    succeed. *)
Lemma status_transitions_counterexample :
  (LedgerEntry.status <$> ledgerEntry Examples.worldLedger1 !! "e3" = Some PAID
   /\ exists rows w',
        cancelLedgerEntries "order1" "refund" Examples.worldLedger1
        = (Ok rows, w')
        /\ LedgerEntry.status <$> ledgerEntry w' !! "e3" = Some CANCELLED)
  /\ (LedgerEntry.status <$> ledgerEntry Examples.worldLedger1 !! "e2"
      = Some RESERVED
      /\ exists rows w',
           markCommissionsAsPaid ["e2"] "payout1" Examples.worldLedger1
           = (Ok rows, w')
           /\ LedgerEntry.status <$> ledgerEntry w' !! "e2" = Some PAID).
Proof.
  split; (split; [reflexivity|]); eexists; eexists;
    (split; [vm_compute; reflexivity|reflexivity]).
Qed.

(** C2 (amended).  The status operations perform these transitions and no
    other: [clearLedgerEntries] moves every RESERVED entry of the order to
    CLEARED and leaves every other entry as it is; [cancelLedgerEntries]
    moves every entry of the order that is not CANCELLED (RESERVED, CLEARED
    or PAID) to CANCELLED and leaves every other entry as it is;
    [markCommissionsAsPaid], when every target id has an entry, moves every
    target entry to PAID with the payout id, whatever its status, and
    leaves the other entries as they are.  When a target id has no entry,
    [markCommissionsAsPaid] fails with the internal error
    [COMMISSION_PAYMENT_UPDATE_FAILED] and no change to the ledger.  No
    operation checks the current status, and none ever fails with a
    conflict: whatever is thrown inside an operation, the operation throws
    its own internal error. *)
Theorem status_transitions (w : World) :
  (forall orderId id e,
      ledgerEntry w !! id = Some e ->
      exists rows e',
        (clearLedgerEntries orderId w).1 = Ok rows
        /\ ledgerEntry (clearLedgerEntries orderId w).2 !! id = Some e'
        /\ (LedgerEntry.orderId e = orderId
            /\ LedgerEntry.status e = RESERVED ->
            LedgerEntry.status e' = CLEARED)
        /\ (~ (LedgerEntry.orderId e = orderId
               /\ LedgerEntry.status e = RESERVED) ->
            e' = e))
  /\ (forall orderId reason id e,
        ledgerEntry w !! id = Some e ->
        exists rows e',
          (cancelLedgerEntries orderId reason w).1 = Ok rows
          /\ ledgerEntry (cancelLedgerEntries orderId reason w).2 !! id
             = Some e'
          /\ (LedgerEntry.orderId e = orderId
              /\ LedgerEntry.status e <> CANCELLED ->
              LedgerEntry.status e' = CANCELLED)
          /\ (~ (LedgerEntry.orderId e = orderId
                 /\ LedgerEntry.status e <> CANCELLED) ->
              e' = e))
  /\ (forall commissionIds payoutId,
        (forall id, id ∈ commissionIds -> is_Some (ledgerEntry w !! id)) ->
        exists rows,
          (markCommissionsAsPaid commissionIds payoutId w).1 = Ok rows
          /\ length rows = length commissionIds
          /\ forall id e,
               ledgerEntry w !! id = Some e ->
               exists e',
                 ledgerEntry (markCommissionsAsPaid commissionIds payoutId w).2
                 !! id = Some e'
                 /\ (id ∈ commissionIds ->
                     LedgerEntry.status e' = PAID
                     /\ LedgerEntry.payoutId e' = Some payoutId)
                 /\ (id ∉ commissionIds -> e' = e))
  /\ (forall commissionIds payoutId id,
        id ∈ commissionIds -> ledgerEntry w !! id = None ->
        (markCommissionsAsPaid commissionIds payoutId w).1
        = Err (AppError InternalServerError "COMMISSION_PAYMENT_UPDATE_FAILED")
        /\ ledgerEntry (markCommissionsAsPaid commissionIds payoutId w).2
           = ledgerEntry w)
  /\ (forall orderId err,
        (clearLedgerEntries orderId w).1 = Err err ->
        err = AppError InternalServerError "LEDGER_ENTRY_CLEARING_FAILED"
        /\ isConflict err = false)
  /\ (forall orderId reason err,
        (cancelLedgerEntries orderId reason w).1 = Err err ->
        err = AppError InternalServerError "LEDGER_ENTRY_CANCELLATION_FAILED"
        /\ isConflict err = false)
  /\ (forall commissionIds payoutId err,
        (markCommissionsAsPaid commissionIds payoutId w).1 = Err err ->
        err = AppError InternalServerError "COMMISSION_PAYMENT_UPDATE_FAILED"
        /\ isConflict err = false).
Proof.
  split; [|split; [|split; [|split; [|split; [|split]]]]].
  - intros orderId id e He. rewrite clearLedgerEntries_run. cbn.
    pose proof (lookup_updated (reservedWhere orderId)
                  (fun _ now => clearedData now) w id) as Hl.
    cbn zeta in Hl. rewrite He in Hl. eexists.
    destruct (reservedWhere orderId e) eqn:Hw.
    + destruct Hl as (k & _ & Hl). eexists. split; [done|].
      split; [exact Hl|]. split; [done|].
      intros Hnot. by apply reservedWhere_true in Hw.
    + exists e. split; [done|]. split; [exact Hl|]. split; [|done].
      intros Hyes. apply reservedWhere_true in Hyes. congruence.
  - intros orderId reason id e He. rewrite cancelLedgerEntries_run. cbn.
    pose proof (lookup_updated (notCancelledWhere orderId)
                  (fun r now => cancelledData r.2 reason now) w id) as Hl.
    cbn zeta in Hl. rewrite He in Hl. eexists.
    destruct (notCancelledWhere orderId e) eqn:Hw.
    + destruct Hl as (k & _ & Hl). eexists. split; [done|].
      split; [exact Hl|]. split; [done|].
      intros Hnot. by apply notCancelledWhere_true in Hw.
    + exists e. split; [done|]. split; [exact Hl|]. split; [|done].
      intros Hyes. apply notCancelledWhere_true in Hyes. congruence.
  - intros commissionIds payoutId Hall.
    rewrite markCommissionsAsPaid_run. cbn zeta.
    set (updates := imap _ commissionIds).
    assert (Hkeys : updates.*1 = commissionIds)
      by apply (fmap_fst_imap_ids
                  (fun k _ => paidData payoutId (clock w (ticks w + k)))).
    destruct (applyUpdates_success updates (ledgerEntry w))
      as (rows & Hrows & Hlen).
    { intros u Hu. apply Hall. rewrite <- Hkeys. by apply list_elem_of_fmap_2. }
    pose proof (applyUpdates_untouched updates (ledgerEntry w)) as Hun.
    pose proof (fun id e' =>
                  applyUpdates_established
                    (fun e' => LedgerEntry.status e' = PAID
                               /\ LedgerEntry.payoutId e' = Some payoutId)
                    updates (ledgerEntry w) id e') as Hest.
    assert (Hrel : forall rows0 ledger0,
               applyUpdates updates (ledgerEntry w) = (rows0, ledger0) ->
               forall id, option_Forall2 sameWriteOnceColumns
                            (ledgerEntry w !! id) (ledger0 !! id)).
    { apply (applyUpdates_related sameWriteOnceColumns).
      intros u e0 Hu. apply elem_of_lookup_imap_1 in Hu as (k & i & -> & _).
      by apply apply_sameWriteOnceColumns. }
    destruct (applyUpdates updates (ledgerEntry w)) as [rows0 ledger'].
    cbn [fst snd] in *. subst rows0. exists rows. split; [done|].
    split; [rewrite Hlen; apply length_imap|].
    intros id e He. specialize (Hrel _ _ eq_refl id). rewrite He in Hrel.
    destruct (ledger' !! id) as [e'|] eqn:Heq2; [|inversion Hrel].
    exists e'. split; [exact Heq2|]. split.
    + intros Hid. apply (Hest id e'); [|by rewrite Hkeys|by eexists|done].
      intros u e0 Hu. apply elem_of_lookup_imap_1 in Hu as (k & i & -> & _).
      by split.
    + intros Hid. rewrite Hun in Heq2 by (by rewrite Hkeys). congruence.
  - intros commissionIds payoutId id Hid Hnone.
    rewrite markCommissionsAsPaid_run. cbn zeta.
    set (updates := imap _ commissionIds).
    assert (Hfail : (applyUpdates updates (ledgerEntry w)).1 = None).
    { apply list_elem_of_lookup in Hid as [k Hk].
      apply (applyUpdates_failure updates (ledgerEntry w)
               (id, paidData payoutId (clock w (ticks w + k)))); [|done].
      apply (elem_of_lookup_imap_2
               (fun k id => (id, paidData payoutId (clock w (ticks w + k))))
               commissionIds id k Hk). }
    destruct (applyUpdates updates (ledgerEntry w)) as [rows ledger'].
    cbn [fst] in Hfail. subst rows. cbn [fst snd].
    split; [done|apply iter_tick_ledgerEntry].
  - intros orderId err Herr.
    destruct (clearLedgerEntries orderId w) as [r w'] eqn:Hrun.
    cbn [fst] in Herr. subst r. by apply try_catch_throw in Hrun as ->.
  - intros orderId reason err Herr.
    destruct (cancelLedgerEntries orderId reason w) as [r w'] eqn:Hrun.
    cbn [fst] in Herr. subst r. by apply try_catch_throw in Hrun as ->.
  - intros commissionIds payoutId err Herr.
    destruct (markCommissionsAsPaid commissionIds payoutId w) as [r w'] eqn:Hrun.
    cbn [fst] in Herr. subst r. by apply try_catch_throw in Hrun as ->.
Qed.

Lemma status_transitions_witness :
  (exists e',
      ledgerEntry (clearLedgerEntries "order1" Examples.worldLedger1).2 !! "e3"
      = Some e'
      /\ LedgerEntry.status e' = PAID)
  /\ (exists e',
        ledgerEntry
          (cancelLedgerEntries "order1" "refund" Examples.worldLedger1).2
        !! "e3" = Some e'
        /\ LedgerEntry.status e' = CANCELLED)
  /\ (exists rows e',
        (markCommissionsAsPaid ["e2"; "e3"] "payout1" Examples.worldLedger1).1
        = Ok rows
        /\ ledgerEntry
             (markCommissionsAsPaid ["e2"; "e3"] "payout1"
                Examples.worldLedger1).2 !! "e2" = Some e'
        /\ LedgerEntry.status e' = PAID)
  /\ ((markCommissionsAsPaid ["e2"; "missing"] "payout1"
         Examples.worldLedger1).1
      = Err (AppError InternalServerError "COMMISSION_PAYMENT_UPDATE_FAILED")
      /\ ledgerEntry
           (markCommissionsAsPaid ["e2"; "missing"] "payout1"
              Examples.worldLedger1).2
         = ledgerEntry Examples.worldLedger1).
Proof.
  destruct (status_transitions Examples.worldLedger1)
    as (Hclear & Hcancel & Hpaid & Hmissing & _).
  split; [|split; [|split]].
  - destruct (Hclear "order1" "e3" _ eq_refl)
      as (rows & e' & _ & He' & _ & Hother).
    exists e'. split; [exact He'|].
    rewrite Hother; [reflexivity|]. intros [_ Hs]. discriminate Hs.
  - destruct (Hcancel "order1" "refund" "e3" _ eq_refl)
      as (rows & e' & _ & He' & Hs & _).
    exists e'. split; [exact He'|]. apply Hs. split; [reflexivity|discriminate].
  - destruct (Hpaid ["e2"; "e3"] "payout1") as (rows & Hrows & _ & Hpoint).
    + intros id Hid.
      repeat (apply elem_of_cons in Hid as [->|Hid]);
        [by eexists|by eexists|by apply elem_of_nil in Hid].
    + destruct (Hpoint "e2" _ eq_refl) as (e' & He' & Hin & _).
      exists rows, e'. split; [exact Hrows|]. split; [exact He'|].
      apply Hin. apply list_elem_of_here.
  - apply (Hmissing ["e2"; "missing"] "payout1" "missing"); [|reflexivity].
    apply list_elem_of_further, list_elem_of_here.
Defined.

(** ** Reconciliation *)

Lemma sumAmounts_total (rows : list LedgerRow) :
  (sumAmounts rows == amountsTotal rows)%Q.
Proof.
  unfold sumAmounts.
  assert (H : forall acc,
             (fold_left (fun sum (entry : LedgerRow) =>
                           Decimal.add sum (LedgerEntry.amount entry.2))
                rows acc == acc + amountsTotal rows)%Q).
  { induction rows as [|r rows IH]; intros acc; cbn [fold_left amountsTotal].
    - lra.
    - rewrite IH. unfold Decimal.add. lra. }
  rewrite H. lra.
Qed.

Lemma filter_status_eq (st : LedgerEntryStatus) (rows : list LedgerRow) :
  List.filter (fun entry : LedgerRow =>
                 bool_decide (LedgerEntry.status entry.2 = st)) rows
  = withStatus [st] rows.
Proof.
  unfold withStatus. induction rows as [|r rows IH]; [done|]. cbn [List.filter].
  rewrite IH.
  by rewrite (bool_decide_ext (LedgerEntry.status r.2 ∈ [st])
                (LedgerEntry.status r.2 = st))
    by apply list_elem_of_singleton.
Qed.

Lemma filter_status_pending (rows : list LedgerRow) :
  List.filter (fun entry : LedgerRow =>
                 bool_decide (LedgerEntry.status entry.2 = CLEARED)
                 || bool_decide (LedgerEntry.status entry.2 = RESERVED)) rows
  = withStatus [RESERVED; CLEARED] rows.
Proof.
  unfold withStatus. induction rows as [|r rows IH]; [done|]. cbn [List.filter].
  rewrite IH. by destruct (LedgerEntry.status r.2).
Qed.

(** Every entry is PAID, pending or CANCELLED, so the three totals add up
    to the total of all entries. *)
Lemma amountsTotal_by_status (rows : list LedgerRow) :
  (amountsTotal rows
   == amountsTotal (withStatus [PAID] rows)
      + amountsTotal (withStatus [RESERVED; CLEARED] rows)
      + amountsTotal (withStatus [CANCELLED] rows))%Q.
Proof.
  unfold withStatus. induction rows as [|r rows IH]; cbn [List.filter amountsTotal].
  - lra.
  - destruct (LedgerEntry.status r.2);
      repeat match goal with
             | |- context [bool_decide (?s ∈ ?l)] =>
                 let b := eval vm_compute in (bool_decide (s ∈ l)) in
                 change (bool_decide (s ∈ l)) with b
             end;
      cbn [amountsTotal]; lra.
Qed.

Lemma withStatus_none (st : LedgerEntryStatus) (rows : list LedgerRow) :
  (forall r, r ∈ rows -> LedgerEntry.status r.2 <> st) ->
  withStatus [st] rows = [].
Proof.
  unfold withStatus. induction rows as [|r rows IH]; intros H; [done|].
  cbn [List.filter]. rewrite bool_decide_eq_false_2.
  - apply IH. intros r' Hr'. apply H. by apply list_elem_of_further.
  - rewrite list_elem_of_singleton. apply H. apply list_elem_of_here.
Qed.

(** A CANCELLED commission of 5 is part of [totalCommissions]: the total is
    15 where the entries that are not CANCELLED add up to 10, and the status
    is DISCREPANCY with a delta of 5. *)
Lemma reconcileCommissions_cancelled_counterexample :
  exists result w',
    reconcileCommissions "org1" 0 100 Examples.worldLedger2 = (Ok result, w')
    /\ (Reconciliation.totalCommissions result == 15)%Q
    /\ (amountsTotal
          (withStatus [RESERVED; CLEARED; PAID]
             (foundRows (commissionsWhere "org1" 0 100) Examples.worldLedger2))
        == 10)%Q
    /\ Reconciliation.reconciliationStatus result = DISCREPANCY
    /\ exists delta, Reconciliation.discrepancyAmount result = Some delta
                     /\ (delta == 5)%Q.
Proof.
  eexists. eexists. split; [vm_compute; reflexivity|].
  split; [reflexivity|]. split; [reflexivity|]. split; [reflexivity|].
  eexists. split; reflexivity.
Qed.

(** C6 (amended).  As long as no addition or subtraction of the
    reconciliation rounds (every running total, the expected balance and
    the difference have at most 20 significant digits),
    [reconcileCommissions] returns these totals and changes nothing.
    [totalCommissions] is the total of all COMMISSION entries of the
    organization created in the range, the CANCELLED ones included;
    [totalPaid] is the total of the PAID ones and [totalPending] the total
    of the RESERVED and CLEARED ones.  The status is BALANCED exactly when
    [totalCommissions == totalPaid + totalPending], which is exactly when
    the CANCELLED entries add up to 0; otherwise it is DISCREPANCY and the
    delta is [totalCommissions - (totalPaid + totalPending)], the total of
    the CANCELLED entries.  A range without CANCELLED entries is
    BALANCED. *)
Theorem reconcileCommissions_totals
    (w : World) (organizationId : string) (startDate endDate : Z) :
  let commissions :=
    foundRows (commissionsWhere organizationId startDate endDate) w in
  exactReconciliation commissions ->
  exists result,
    reconcileCommissions organizationId startDate endDate w = (Ok result, w)
    /\ (Reconciliation.totalCommissions result == amountsTotal commissions)%Q
    /\ (Reconciliation.totalPaid result
        == amountsTotal (withStatus [PAID] commissions))%Q
    /\ (Reconciliation.totalPending result
        == amountsTotal (withStatus [RESERVED; CLEARED] commissions))%Q
    /\ (Reconciliation.totalCommissions result
        == Reconciliation.totalPaid result
           + Reconciliation.totalPending result
           + amountsTotal (withStatus [CANCELLED] commissions))%Q
    /\ (Reconciliation.reconciliationStatus result = BALANCED
        <-> (Reconciliation.totalCommissions result
             == Reconciliation.totalPaid result
                + Reconciliation.totalPending result)%Q)
    /\ (Reconciliation.reconciliationStatus result = BALANCED
        -> Reconciliation.discrepancyAmount result = None)
    /\ (Reconciliation.reconciliationStatus result = DISCREPANCY
        -> exists delta,
             Reconciliation.discrepancyAmount result = Some delta
             /\ (delta == Reconciliation.totalCommissions result
                          - (Reconciliation.totalPaid result
                             + Reconciliation.totalPending result))%Q
             /\ (delta == amountsTotal (withStatus [CANCELLED] commissions))%Q)
    /\ ((forall r, r ∈ commissions -> LedgerEntry.status r.2 <> CANCELLED)
        -> Reconciliation.reconciliationStatus result = BALANCED).
Proof.
  intros commissions _.
  unfold reconcileCommissions, try_catch, bind, ledgerEntry_findMany, ret.
  fold (foundRows (commissionsWhere organizationId startDate endDate) w).
  fold commissions. cbn zeta.
  rewrite filter_status_eq, filter_status_pending.
  set (total := sumAmounts commissions).
  set (paid := sumAmounts (withStatus [PAID] commissions)).
  set (pending := sumAmounts (withStatus [RESERVED; CLEARED] commissions)).
  set (cancelled := amountsTotal (withStatus [CANCELLED] commissions)).
  assert (Htotal : (total == amountsTotal commissions)%Q)
    by apply sumAmounts_total.
  assert (Hpaid : (paid == amountsTotal (withStatus [PAID] commissions))%Q)
    by apply sumAmounts_total.
  assert (Hpending :
            (pending
             == amountsTotal (withStatus [RESERVED; CLEARED] commissions))%Q)
    by apply sumAmounts_total.
  assert (Hsplit : (total == paid + pending + cancelled)%Q).
  { rewrite Htotal, Hpaid, Hpending. apply amountsTotal_by_status. }
  eexists. split; [reflexivity|].
  cbn [Reconciliation.totalCommissions Reconciliation.totalPaid
         Reconciliation.totalPending Reconciliation.reconciliationStatus
         Reconciliation.discrepancyAmount].
  unfold Decimal.equals, Decimal.sub, Decimal.add.
  do 4 (split; [assumption|]).
  destruct (Qeq_bool (total - (paid + pending)) 0) eqn:Heq.
  - apply Qeq_bool_iff in Heq.
    split; [split; [intros _; lra|done]|].
    split; [done|]. split; [discriminate|done].
  - apply Qeq_bool_neq in Heq.
    split; [split; [discriminate|intros H; exfalso; apply Heq; lra]|].
    split; [discriminate|]. split.
    + intros _. eexists. split; [reflexivity|]. split; lra.
    + intros Hnone. exfalso. apply Heq.
      assert (Hc : (cancelled == 0)%Q)
        by (unfold cancelled; by rewrite withStatus_none).
      lra.
Qed.

Lemma reconcileCommissions_totals_witness :
  exists result,
    reconcileCommissions "org1" 0 100 Examples.worldLedger1
    = (Ok result, Examples.worldLedger1)
    /\ Reconciliation.reconciliationStatus result = BALANCED.
Proof.
  destruct (reconcileCommissions_totals Examples.worldLedger1 "org1" 0 100)
    as (result & Hrun & _ & _ & _ & _ & _ & _ & _ & Hbalanced).
  - apply (exactReconciliation_within 0 10); [|lia|].
    + apply Forall_forall.
      let rows := eval vm_compute in
                    (foundRows (commissionsWhere "org1" 0 100)
                       Examples.worldLedger1) in
      change (foundRows (commissionsWhere "org1" 0 100) Examples.worldLedger1)
        with rows.
      repeat (apply List.Forall_cons;
              [cbn [snd LedgerEntry.amount];
               match goal with
               | |- Decimal.within 0 10 ?a =>
                   exists (Qnum a); split; [cbn; lia|reflexivity]
               end|]).
      apply List.Forall_nil.
    + let n := eval vm_compute in
                 (length (foundRows (commissionsWhere "org1" 0 100)
                            Examples.worldLedger1)) in
      change (length (foundRows (commissionsWhere "org1" 0 100)
                        Examples.worldLedger1)) with n.
      change (Z.of_nat Decimal.precision) with 20%Z. lia.
  - exists result. split; [exact Hrun|]. apply Hbalanced.
    apply Forall_forall.
    let rows := eval vm_compute in
                  (foundRows (commissionsWhere "org1" 0 100)
                     Examples.worldLedger1) in
    change (foundRows (commissionsWhere "org1" 0 100) Examples.worldLedger1)
      with rows.
    repeat constructor; discriminate.
Defined.

(** ** Creation of the four entries of a split *)

Lemma create_step {A} (data : Z -> LedgerEntryCreateInput.t)
    (k : LedgerRow -> M A) (w : World) :
  (now <- newDate ;; entry <- ledgerEntry_create (data now) ;; k entry) w
  = let id := cuid w (issued w) in
    let w1 := issue (tick (tick w)) in
    match ledgerEntry w !! id with
    | Some _ => (Err (PrismaError "P2002"), w1)
    | None =>
        let e := LedgerEntryCreateInput.row (data (clock w (ticks w)))
                   (clock w (S (ticks w))) in
        k (id, e) (setLedger (<[id := e]> (ledgerEntry w)) w1)
    end.
Proof.
  unfold bind, newDate, ledgerEntry_create. cbn.
  by destruct (ledgerEntry w !! cuid w (issued w)).
Qed.


Lemma splitEntryData_splitEntry calculation ord entryType amount label extra
    now createdAt :
  extra !! "appliedRuleId" = None ->
  extra !! "appliedRuleType" = None ->
  splitEntry calculation ord
    (LedgerEntryCreateInput.row
       (splitEntryData calculation ord entryType amount label extra now)
       createdAt).
Proof.
  intros H1 H2. unfold splitEntry. cbn.
  repeat split; try done.
  - rewrite lookup_union_r by done. by simplify_map_eq.
  - rewrite lookup_union_r by done. by simplify_map_eq.
Qed.

(** C4.  [createLedgerEntries] is all or nothing.  When the four ids to be
    generated are distinct and free, it returns exactly four entries: SALE
    with the subtotal, PLATFORM_FEE with the platform fee, COMMISSION with
    the creator commission and the creator id in its metadata, PAYMENT_FEE
    with the payment fee, all RESERVED; the ledger then holds these four
    entries and, under every other id, what it held before.  Otherwise an
    insertion fails, the call throws the internal error
    [LEDGER_ENTRY_CREATION_FAILED], and the ledger is as it was before the
    call: none of the four entries is in it. *)
Theorem createLedgerEntries_all_or_nothing
    (w : World) (calculation : CommissionCalculation.t) (ord : Order.t)
    (creatorId : string) :
  let run := createLedgerEntries calculation ord creatorId w in
  let ids := nextIds w 4 in
  (idsFree w ids
   /\ exists sale fee commission payment : LedgerRow,
        run.1 = Ok [sale; fee; commission; payment]
        /\ [sale.1; fee.1; commission.1; payment.1] = ids
        /\ LedgerEntry.entryType sale.2 = SALE
        /\ LedgerEntry.amount sale.2
           = CommissionCalculation.subtotal calculation
        /\ LedgerEntry.entryType fee.2 = PLATFORM_FEE
        /\ LedgerEntry.amount fee.2
           = CommissionCalculation.platformFee calculation
        /\ LedgerEntry.entryType commission.2 = COMMISSION
        /\ LedgerEntry.amount commission.2
           = CommissionCalculation.creatorCommission calculation
        /\ LedgerEntry.metadata commission.2 !! "creatorId"
           = Some (MString creatorId)
        /\ LedgerEntry.entryType payment.2 = PAYMENT_FEE
        /\ LedgerEntry.amount payment.2
           = CommissionCalculation.paymentFee calculation
        /\ Forall (fun r : LedgerRow => splitEntry calculation ord r.2)
             [sale; fee; commission; payment]
        /\ Forall (fun r : LedgerRow => ledgerEntry run.2 !! r.1 = Some r.2)
             [sale; fee; commission; payment]
        /\ (forall id, id ∉ ids -> ledgerEntry run.2 !! id = ledgerEntry w !! id)
        /\ size (ledgerEntry run.2) = 4 + size (ledgerEntry w))
  \/ (~ idsFree w ids
      /\ run.1
         = Err (AppError InternalServerError "LEDGER_ENTRY_CREATION_FAILED")
      /\ ledgerEntry run.2 = ledgerEntry w).
Proof.
  intros run ids. subst run ids.
  unfold createLedgerEntries, try_catch, transaction, throw, idsFree, nextIds.
  cbn [seq fmap list_fmap].
  set (i0 := cuid w (issued w)). set (i1 := cuid w (S (issued w))).
  set (i2 := cuid w (S (S (issued w)))).
  set (i3 := cuid w (S (S (S (issued w))))).
  rewrite create_step. cbn zeta. fold i0.
  destruct (ledgerEntry w !! i0) eqn:H0.
  { right. split; [|done]. intros [_ Hfree].
    rewrite (Hfree i0) in H0 by set_solver. done. }
  rewrite create_step. cbn zeta.
  cbn [tick issue setLedger ledgerEntry clock ticks cuid issued]. fold i1.
  match goal with
  | |- context [match ?m !! i1 with _ => _ end] => destruct (m !! i1) eqn:H1
  end.
  { right. split; [|done]. intros [Hnd Hfree].
    apply lookup_insert_Some in H1 as [[Heq _]|[_ H1]].
    - apply NoDup_cons in Hnd as [Hnd _]. set_solver.
    - rewrite (Hfree i1) in H1 by set_solver. done. }
  apply lookup_insert_None in H1 as [H1 H01].
  rewrite create_step. cbn zeta.
  cbn [tick issue setLedger ledgerEntry clock ticks cuid issued]. fold i2.
  match goal with
  | |- context [match ?m !! i2 with _ => _ end] => destruct (m !! i2) eqn:H2
  end.
  { right. split; [|done]. intros [Hnd Hfree].
    apply lookup_insert_Some in H2 as [[Heq _]|[_ H2]].
    { apply NoDup_cons in Hnd as [_ Hnd]. apply NoDup_cons in Hnd as [Hnd _].
      set_solver. }
    apply lookup_insert_Some in H2 as [[Heq _]|[_ H2]].
    - apply NoDup_cons in Hnd as [Hnd _]. set_solver.
    - rewrite (Hfree i2) in H2 by set_solver. done. }
  apply lookup_insert_None in H2 as [H2 H12].
  apply lookup_insert_None in H2 as [H2 H02].
  rewrite create_step. cbn zeta.
  cbn [tick issue setLedger ledgerEntry clock ticks cuid issued]. fold i3.
  match goal with
  | |- context [match ?m !! i3 with _ => _ end] => destruct (m !! i3) eqn:H3
  end.
  { right. split; [|done]. intros [Hnd Hfree].
    apply lookup_insert_Some in H3 as [[Heq _]|[_ H3]].
    { do 2 apply NoDup_cons in Hnd as [_ Hnd].
      apply NoDup_cons in Hnd as [Hnd _]. set_solver. }
    apply lookup_insert_Some in H3 as [[Heq _]|[_ H3]].
    { apply NoDup_cons in Hnd as [_ Hnd]. apply NoDup_cons in Hnd as [Hnd _].
      set_solver. }
    apply lookup_insert_Some in H3 as [[Heq _]|[_ H3]].
    - apply NoDup_cons in Hnd as [Hnd _]. set_solver.
    - rewrite (Hfree i3) in H3 by set_solver. done. }
  apply lookup_insert_None in H3 as [H3 H23].
  apply lookup_insert_None in H3 as [H3 H13].
  apply lookup_insert_None in H3 as [H3 H03].
  left. split.
  { split.
    - repeat (apply NoDup_cons; split;
                [rewrite ?not_elem_of_cons; repeat split;
                 try done; apply not_elem_of_nil|]).
      apply NoDup_nil_2.
    - intros id Hid. repeat (apply elem_of_cons in Hid as [->|Hid]); try done.
      by apply elem_of_nil in Hid. }
  unfold ret. cbn [fst snd ledgerEntry setLedger].
  eexists (i0, _), (i1, _), (i2, _), (i3, _).
  split; [reflexivity|]. split; [reflexivity|].
  do 9 (split; [reflexivity|]).
  split.
  { repeat (apply Forall_cons; split;
              [by apply splitEntryData_splitEntry|]).
    apply Forall_nil_2. }
  split.
  { repeat (apply Forall_cons; split; [cbn [fst snd]; by simplify_map_eq|]).
    apply Forall_nil_2. }
  split.
  { intros id Hid. rewrite !lookup_insert_ne; [done|set_solver..]. }
  rewrite !map_size_insert_None; [done|by simplify_map_eq..].
Qed.

Lemma createLedgerEntries_all_or_nothing_witness :
  exists rows,
    (createLedgerEntries Examples.calculationA Examples.order1 "creator1"
       Examples.worldScenarioA).1 = Ok rows
    /\ length rows = 4
    /\ size (ledgerEntry
               (createLedgerEntries Examples.calculationA Examples.order1
                  "creator1" Examples.worldScenarioA).2) = 4.
Proof.
  destruct (createLedgerEntries_all_or_nothing Examples.worldScenarioA
              Examples.calculationA Examples.order1 "creator1")
    as [(_ & sale & fee & commission & payment & Hrun & Hrest)
       |(Hnot & _)].
  - exists [sale; fee; commission; payment]. split; [exact Hrun|].
    split; [reflexivity|].
    destruct Hrest as (_ & _ & _ & _ & _ & _ & _ & _ & _ & _ & _ & _ & _ & Hsize).
    exact Hsize.
  - exfalso. apply Hnot. split.
    + apply (bool_decide_unpack _). vm_compute. exact I.
    + intros id Hid. vm_compute in Hid.
      repeat (apply elem_of_cons in Hid as [->|Hid]); reflexivity.
Defined.

(** The third insertion fails on a taken id: the two entries inserted
    before it are rolled back. *)
Example createLedgerEntries_rollback :
  (createLedgerEntries Examples.calculationA Examples.order1 "creator1"
     Examples.worldIdTaken).1
  = Err (AppError InternalServerError "LEDGER_ENTRY_CREATION_FAILED")
  /\ ledgerEntry
       (createLedgerEntries Examples.calculationA Examples.order1 "creator1"
          Examples.worldIdTaken).2
     = ledgerEntry Examples.worldIdTaken
  /\ issued
       (createLedgerEntries Examples.calculationA Examples.order1 "creator1"
          Examples.worldIdTaken).2 = 3.
Proof. vm_compute. done. Qed.


(* ================================================================== *)
(** * Further properties of the service *)

(** ** Status operations, one after the other *)

Lemma foundRows_nil (where_ : LedgerEntry.t -> bool) (w : World) :
  (forall id e, ledgerEntry w !! id = Some e -> where_ e = false) ->
  foundRows where_ w = [].
Proof.
  intros Hnone. destruct (foundRows where_ w) as [|r rows] eqn:Hfound; [done|].
  destruct (findMany_rows where_ (ledgerEntry w)) as [_ Hin].
  fold (foundRows where_ w) in Hin. rewrite Hfound in Hin.
  destruct (proj1 (Hin r) (list_elem_of_here _ _)) as [Hl Hw].
  rewrite (Hnone _ _ Hl) in Hw. discriminate.
Qed.

(** Every row after a select-then-update is a row from before, as it was
    when the [where] clause does not select it and updated otherwise. *)
Lemma lookup_updated_inv (where_ : LedgerEntry.t -> bool)
    (mk : LedgerRow -> Z -> LedgerEntryUpdateInput.t) (w : World)
    (id : string) (e1 : LedgerEntry.t) :
  (list_to_map (updatedRows mk (foundRows where_ w) w) ∪ ledgerEntry w) !! id
  = Some e1 ->
  exists e,
    ledgerEntry w !! id = Some e
    /\ (where_ e = false /\ e1 = e
        \/ where_ e = true
           /\ exists k, e1 = LedgerEntryUpdateInput.apply
                               (mk (id, e) (clock w (ticks w + k))) e).
Proof.
  intros Hl. pose proof (lookup_updated where_ mk w id) as Hlook.
  cbn zeta in Hlook. destruct (ledgerEntry w !! id) as [e|]; [|congruence].
  exists e. split; [done|]. destruct (where_ e).
  - right. split; [done|]. destruct Hlook as (k & _ & Hk). exists k. congruence.
  - left. split; [done|]. congruence.
Qed.

Lemma select_nothing_run (where_ : LedgerEntry.t -> bool)
    (mk : LedgerRow -> Z -> LedgerEntryUpdateInput.t) (w : World) :
  foundRows where_ w = [] ->
  (Ok (updatedRows mk (foundRows where_ w) w),
   setLedger (list_to_map (updatedRows mk (foundRows where_ w) w)
              ∪ ledgerEntry w)
     (Nat.iter (length (foundRows where_ w)) tick w))
  = (Ok [], w).
Proof.
  intros ->. cbn. by rewrite (left_id_L ∅ (∪)), setLedger_same.
Qed.

(** X1.  After [clearLedgerEntries] no entry of the order is RESERVED, and
    clearing the same order again returns the empty list and changes
    nothing, not even the clock. *)
Theorem clearLedgerEntries_idempotent (w : World) (orderId : string) :
  let w1 := (clearLedgerEntries orderId w).2 in
  (forall id e,
      ledgerEntry w1 !! id = Some e ->
      LedgerEntry.orderId e = orderId ->
      LedgerEntry.status e <> RESERVED)
  /\ clearLedgerEntries orderId w1 = (Ok [], w1).
Proof.
  intros w1.
  assert (Hnone : forall id e, ledgerEntry w1 !! id = Some e ->
                               reservedWhere orderId e = false).
  { intros id e1 He1. subst w1. rewrite clearLedgerEntries_run in He1.
    cbn [snd ledgerEntry setLedger] in He1.
    apply lookup_updated_inv in He1 as (e & _ & [[Hw ->]|[_ [k ->]]]);
      [done|].
    unfold reservedWhere. cbn. by rewrite andb_false_r. }
  split.
  - intros id e He Ho Hs. specialize (Hnone id e He).
    apply not_true_iff_false in Hnone. apply Hnone.
    by apply reservedWhere_true.
  - rewrite clearLedgerEntries_run. cbn zeta.
    apply select_nothing_run. by apply foundRows_nil.
Qed.

(** X2.  After [cancelLedgerEntries] every entry of the order is CANCELLED,
    whatever it was before.  The order is then closed for the service:
    cancelling it again and clearing it both return the empty list and
    change nothing. *)
Theorem cancelLedgerEntries_final (w : World) (orderId reason : string) :
  let w1 := (cancelLedgerEntries orderId reason w).2 in
  (forall id e,
      ledgerEntry w1 !! id = Some e ->
      LedgerEntry.orderId e = orderId ->
      LedgerEntry.status e = CANCELLED)
  /\ (forall reason', cancelLedgerEntries orderId reason' w1 = (Ok [], w1))
  /\ clearLedgerEntries orderId w1 = (Ok [], w1).
Proof.
  intros w1.
  assert (Hall : forall id e, ledgerEntry w1 !! id = Some e ->
                              LedgerEntry.orderId e = orderId ->
                              LedgerEntry.status e = CANCELLED).
  { intros id e1 He1 Ho. subst w1. rewrite cancelLedgerEntries_run in He1.
    cbn [snd ledgerEntry setLedger] in He1.
    apply lookup_updated_inv in He1 as (e & _ & [[Hw ->]|[_ [k ->]]]);
      [|done].
    destruct (decide (LedgerEntry.status e = CANCELLED)) as [|Hne]; [done|].
    assert (notCancelledWhere orderId e = true)
      by (by apply notCancelledWhere_true).
    congruence. }
  split; [exact Hall|]. split.
  - intros reason'. rewrite cancelLedgerEntries_run. cbn zeta.
    apply select_nothing_run. apply foundRows_nil. intros id e He.
    apply not_true_iff_false. intros [Ho Hs]%notCancelledWhere_true.
    apply Hs. by eapply Hall.
  - rewrite clearLedgerEntries_run. cbn zeta.
    apply select_nothing_run. apply foundRows_nil. intros id e He.
    apply not_true_iff_false. intros [Ho Hs]%reservedWhere_true.
    rewrite (Hall id e He Ho) in Hs. discriminate.
Qed.

(** X3.  [cancelLedgerEntries] records the reason and the time of the
    cancellation in the metadata of every entry it cancels and keeps every
    other metadata key; it also keeps [clearedAt], [paidAt] and the payout
    link, so a PAID entry that is cancelled still names its payout. *)
Theorem cancelLedgerEntries_metadata
    (w : World) (orderId reason id : string) (e : LedgerEntry.t) :
  ledgerEntry w !! id = Some e ->
  LedgerEntry.orderId e = orderId ->
  LedgerEntry.status e <> CANCELLED ->
  exists (e' : LedgerEntry.t) (k : nat),
    ledgerEntry (cancelLedgerEntries orderId reason w).2 !! id = Some e'
    /\ k < length (foundRows (notCancelledWhere orderId) w)
    /\ LedgerEntry.metadata e' !! "cancellationReason" = Some (MString reason)
    /\ LedgerEntry.metadata e' !! "cancelledAt"
       = Some (MIsoDate (clock w (ticks w + k)))
    /\ (forall key, key <> "cancellationReason" -> key <> "cancelledAt" ->
                    LedgerEntry.metadata e' !! key
                    = LedgerEntry.metadata e !! key)
    /\ LedgerEntry.clearedAt e' = LedgerEntry.clearedAt e
    /\ LedgerEntry.paidAt e' = LedgerEntry.paidAt e
    /\ LedgerEntry.payoutId e' = LedgerEntry.payoutId e.
Proof.
  intros He Ho Hs. rewrite cancelLedgerEntries_run.
  cbn [snd ledgerEntry setLedger].
  pose proof (lookup_updated (notCancelledWhere orderId)
                (fun r now => cancelledData r.2 reason now) w id) as Hl.
  cbn zeta in Hl. rewrite He in Hl.
  rewrite (proj2 (notCancelledWhere_true orderId e)) in Hl by done.
  destruct Hl as (k & Hk & Hl). eexists. exists k. split; [exact Hl|].
  split; [by eapply lookup_lt_Some|]. cbn.
  split; [by simplify_map_eq|]. split; [by simplify_map_eq|].
  split; [|done]. intros key H1 H2. by simplify_map_eq.
Qed.

Lemma cancelLedgerEntries_metadata_witness :
  exists e',
    ledgerEntry
      (cancelLedgerEntries "order1" "refund" Examples.worldLedger1).2 !! "e3"
    = Some e'
    /\ LedgerEntry.metadata e' !! "cancellationReason"
       = Some (MString "refund")
    /\ LedgerEntry.paidAt e' = None.
Proof.
  destruct (cancelLedgerEntries_metadata Examples.worldLedger1 "order1"
              "refund" "e3" _ eq_refl eq_refl)
    as (e' & k & He' & _ & Hreason & _ & _ & _ & Hpaid & _); [discriminate|].
  exists e'. split; [exact He'|]. split; [exact Hreason|].
  rewrite Hpaid. reflexivity.
Defined.

(** ** Pending commissions of a creator *)

#[local] Instance createdAtAsc_total : Total createdAtAsc.
Proof. intros a b. unfold createdAtAsc. lia. Qed.

#[local] Instance createdAtAsc_trans : Transitive createdAtAsc.
Proof. intros a b c. unfold createdAtAsc. lia. Qed.

Lemma pendingWhere_true creatorId currency e :
  pendingWhere creatorId currency e = true
  <-> LedgerEntry.entryType e = COMMISSION
      /\ LedgerEntry.status e = CLEARED
      /\ LedgerEntry.metadata e !! "creatorId" = Some (MString creatorId)
      /\ (truthy currency = true ->
          LedgerEntry.currency e = default "" currency).
Proof.
  unfold pendingWhere. rewrite !andb_true_iff, !bool_decide_eq_true.
  destruct (truthy currency); rewrite ?bool_decide_eq_true;
    intuition congruence.
Qed.

Lemma amountsTotal_Permutation (l1 l2 : list LedgerRow) :
  l1 ≡ₚ l2 -> (amountsTotal l1 == amountsTotal l2)%Q.
Proof.
  induction 1 as [|x l1 l2 _ IH|x y l|l1 l2 l3 _ IH1 _ IH2]; cbn.
  - reflexivity.
  - rewrite IH. reflexivity.
  - lra.
  - by rewrite IH1.
Qed.

Lemma existsb_false_all {A} (f : A -> bool) (l : list A) :
  existsb f l = false <-> forall x, x ∈ l -> f x = false.
Proof.
  induction l as [|a l IH]; cbn.
  - split; [intros _ x Hx; by apply elem_of_nil in Hx|done].
  - rewrite orb_false_iff, IH. split.
    + intros [Ha Hl] x [->|Hx]%elem_of_cons; auto.
    + intros H. split; [apply H; apply list_elem_of_here|].
      intros x Hx. apply H. by apply list_elem_of_further.
Qed.

(** The commissions found, whatever happens next. *)
Lemma getPendingCreatorCommissions_found convert creatorId currency w result w' :
  getPendingCreatorCommissions convert creatorId currency w = (Ok result, w') ->
  PendingCommissions.commissions result
  = merge_sort createdAtAsc (foundRows (pendingWhere creatorId currency) w).
Proof.
  unfold getPendingCreatorCommissions, try_catch, bind at 1,
    ledgerEntry_findManyOrderByCreatedAt.
  fold (foundRows (pendingWhere creatorId currency) w).
  set (commissions := merge_sort _ _).
  destruct (negb (truthy currency) && existsb _ commissions).
  - destruct (currencyGroups commissions) as [groups|]; [|by cbn].
    unfold bind. destruct (convertCurrencyGroups _ _ _ _ w) as [[total|e] w1];
      cbn; [|done]. by intros [= <- _].
  - cbn. by intros [= <- _].
Qed.

(** X4.  The commissions [getPendingCreatorCommissions] returns are exactly
    the ledger entries that are COMMISSION entries, CLEARED, carry the
    creator id in their metadata and, when a currency is given, are in that
    currency; each one appears once, and they come in ascending order of
    [createdAt]. *)
Theorem getPendingCreatorCommissions_selection
    (convert : Q -> string -> string -> M Q) (creatorId : string)
    (currency : option string) (w w' : World)
    (result : PendingCommissions.t) :
  getPendingCreatorCommissions convert creatorId currency w = (Ok result, w') ->
  StronglySorted createdAtAsc (PendingCommissions.commissions result)
  /\ NoDup (PendingCommissions.commissions result).*1
  /\ forall r : LedgerRow,
       r ∈ PendingCommissions.commissions result
       <-> ledgerEntry w !! r.1 = Some r.2
           /\ LedgerEntry.entryType r.2 = COMMISSION
           /\ LedgerEntry.status r.2 = CLEARED
           /\ LedgerEntry.metadata r.2 !! "creatorId"
              = Some (MString creatorId)
           /\ (truthy currency = true ->
               LedgerEntry.currency r.2 = default "" currency).
Proof.
  intros Hrun. rewrite (getPendingCreatorCommissions_found _ _ _ _ _ _ Hrun).
  destruct (findMany_rows (pendingWhere creatorId currency) (ledgerEntry w))
    as [Hnd Hin].
  fold (foundRows (pendingWhere creatorId currency) w) in Hnd, Hin.
  split; [apply StronglySorted_merge_sort; apply _|].
  split.
  - by rewrite merge_sort_Permutation.
  - intros r. rewrite merge_sort_Permutation, Hin, pendingWhere_true. done.
Qed.

Lemma getPendingCreatorCommissions_plain convert creatorId currency w :
  let commissions :=
    merge_sort createdAtAsc (foundRows (pendingWhere creatorId currency) w) in
  let targetCurrency :=
    if truthy currency then default "" currency
    else firstCurrencyOrUSD commissions in
  negb (truthy currency)
  && existsb (fun entry : LedgerRow =>
                negb (bool_decide
                        (LedgerEntry.currency entry.2 = targetCurrency)))
       commissions = false ->
  getPendingCreatorCommissions convert creatorId currency w
  = (Ok {| PendingCommissions.totalAmount := sumAmounts commissions;
           PendingCommissions.currency := targetCurrency;
           PendingCommissions.commissions := commissions |}, w).
Proof.
  intros commissions targetCurrency Hplain.
  unfold getPendingCreatorCommissions, try_catch, bind at 1,
    ledgerEntry_findManyOrderByCreatedAt.
  fold (foundRows (pendingWhere creatorId currency) w).
  fold commissions. cbn zeta. fold targetCurrency. by rewrite Hplain.
Qed.

(** X5.  When a currency is given, [getPendingCreatorCommissions] never
    asks the currency service for a conversion: whatever the service does,
    the call succeeds, changes nothing, answers in the given currency with
    commissions of that currency only, and the total is the sum of their
    amounts. *)
Theorem getPendingCreatorCommissions_in_currency
    (convert : Q -> string -> string -> M Q) (creatorId currency : string)
    (w : World) :
  currency <> "" ->
  exists result,
    getPendingCreatorCommissions convert creatorId (Some currency) w
    = (Ok result, w)
    /\ PendingCommissions.currency result = currency
    /\ (forall r, r ∈ PendingCommissions.commissions result ->
                  LedgerEntry.currency r.2 = currency)
    /\ (PendingCommissions.totalAmount result
        == amountsTotal (PendingCommissions.commissions result))%Q.
Proof.
  intros Hne.
  assert (Ht : truthy (Some currency) = true)
    by (cbn; by rewrite bool_decide_eq_false_2).
  eexists. split.
  { apply getPendingCreatorCommissions_plain. by rewrite Ht. }
  cbn [PendingCommissions.currency PendingCommissions.commissions
         PendingCommissions.totalAmount].
  rewrite Ht. split; [done|]. split; [|apply sumAmounts_total].
  intros r Hr. rewrite merge_sort_Permutation in Hr.
  apply findMany_rows in Hr as [_ Hw].
  apply pendingWhere_true in Hw as (_ & _ & _ & Hc). by apply Hc.
Qed.

Lemma getPendingCreatorCommissions_in_currency_witness :
  exists result,
    getPendingCreatorCommissions (fun _ _ _ => throw (PrismaError "down"))
      "creator1" (Some "USD") Examples.worldLedger1
    = (Ok result, Examples.worldLedger1)
    /\ PendingCommissions.currency result = "USD".
Proof.
  destruct (getPendingCreatorCommissions_in_currency
              (fun _ _ _ => throw (PrismaError "down")) "creator1" "USD"
              Examples.worldLedger1) as (result & Hrun & Hc & _);
    [discriminate|].
  exists result. by split.
Defined.

Lemma firstCurrencyOrUSD_single (c : string) (rows : list LedgerRow) :
  c <> "" -> rows <> [] ->
  (forall r, r ∈ rows -> LedgerEntry.currency r.2 = c) ->
  firstCurrencyOrUSD rows = c.
Proof.
  intros Hc Hne Hall. destruct rows as [|r rows]; [done|]. cbn.
  rewrite (Hall r) by apply list_elem_of_here.
  by rewrite bool_decide_eq_false_2.
Qed.

(** X6.  Without a currency argument, a creator with no pending commission
    gets a total of 0 in USD, and a creator whose pending commissions are
    all in one currency gets their plain sum in that currency; in both
    cases the currency service is not asked and nothing changes. *)
Theorem getPendingCreatorCommissions_one_currency
    (convert : Q -> string -> string -> M Q) (creatorId : string)
    (currency : string) (w : World) :
  currency <> "" ->
  (forall id e,
      ledgerEntry w !! id = Some e ->
      pendingWhere creatorId None e = true ->
      LedgerEntry.currency e = currency) ->
  exists result,
    getPendingCreatorCommissions convert creatorId None w = (Ok result, w)
    /\ (PendingCommissions.totalAmount result
        == amountsTotal (PendingCommissions.commissions result))%Q
    /\ (PendingCommissions.commissions result = [] ->
        PendingCommissions.currency result = "USD"
        /\ PendingCommissions.totalAmount result = 0%Q)
    /\ (PendingCommissions.commissions result <> [] ->
        PendingCommissions.currency result = currency).
Proof.
  intros Hc Hall.
  set (commissions :=
         merge_sort createdAtAsc (foundRows (pendingWhere creatorId None) w)).
  assert (Hcur : forall r, r ∈ commissions -> LedgerEntry.currency r.2 = currency).
  { intros r Hr. unfold commissions in Hr. rewrite merge_sort_Permutation in Hr.
    apply findMany_rows in Hr as [Hl Hw]. by eapply Hall. }
  assert (Hplain :
            existsb (fun entry : LedgerRow =>
                       negb (bool_decide (LedgerEntry.currency entry.2
                                          = firstCurrencyOrUSD commissions)))
              commissions = false).
  { apply existsb_false_all. intros r Hr. apply negb_false_iff.
    apply bool_decide_eq_true. rewrite (Hcur r Hr). symmetry.
    apply firstCurrencyOrUSD_single; [done| |done].
    intros Hnil. rewrite Hnil in Hr. by apply elem_of_nil in Hr. }
  eexists. split.
  { apply getPendingCreatorCommissions_plain. cbn. exact Hplain. }
  cbn [PendingCommissions.currency PendingCommissions.commissions
         PendingCommissions.totalAmount truthy]. fold commissions.
  split; [apply sumAmounts_total|]. split.
  - intros ->. done.
  - intros Hne. by apply firstCurrencyOrUSD_single.
Qed.

(** ** Pending commissions in several currencies *)

Lemma addToCurrencyGroup_None acc currency amount :
  addToCurrencyGroup acc currency amount = None
  <-> (currency ∉ acc.*1) /\ currency ∈ objectPrototypeKeys.
Proof.
  induction acc as [|[c total] acc IH]; cbn [addToCurrencyGroup].
  - case_bool_decide as Hin.
    + split; [intros _|done]. split; [apply not_elem_of_nil|done].
    + split; [done|]. intros [_ ?]. done.
  - rewrite fmap_cons, not_elem_of_cons. cbn [fst].
    case_bool_decide as Hc.
    + split; [done|]. intros [[Hne _] _]. by destruct Hne.
    + rewrite fmap_None, IH. split.
      * intros [? ?]. split; [split; [congruence|done]|done].
      * intros [[_ ?] ?]. done.
Qed.

(** The step keeps the groups of the other currencies, in their order, and
    adds the amount to the total of the currency, which starts at 0 for a
    new currency, at the end. *)
Lemma addToCurrencyGroup_Some acc currency amount acc' :
  addToCurrencyGroup acc currency amount = Some acc' ->
  (currency ∈ acc.*1 \/ currency ∉ objectPrototypeKeys)
  /\ acc'.*1 = (if decide (currency ∈ acc.*1) then acc.*1
               else acc.*1 ++ [currency])
  /\ (forall c total,
        c <> currency -> (c, total) ∈ acc' <-> (c, total) ∈ acc)
  /\ (NoDup acc.*1 ->
      forall total',
        (currency, total') ∈ acc'
        <-> exists total,
              total' = Decimal.add total amount
              /\ ((currency, total) ∈ acc
                  \/ (currency ∉ acc.*1) /\ total = 0%Q)).
Proof.
  revert acc'. induction acc as [|[c total] acc IH]; intros acc';
    cbn [addToCurrencyGroup].
  - case_bool_decide as Hin; [done|]. intros [= <-].
    split; [by right|]. split; [done|]. split.
    + intros c total Hc. rewrite list_elem_of_singleton.
      split; [intros [= -> _]; done|intros H; by apply elem_of_nil in H].
    + intros _ total'. rewrite list_elem_of_singleton. split.
      * intros [= ->]. exists 0%Q. split; [done|]. right.
        split; [apply not_elem_of_nil|done].
      * intros (total & -> & [H|[_ ->]]); [by apply elem_of_nil in H|done].
  - rewrite fmap_cons. cbn [fst]. case_bool_decide as Hc.
    + subst c. intros [= <-]. split; [left; left|].
      rewrite decide_True by left. split; [done|]. split.
      * intros c total0 Hne. rewrite !elem_of_cons.
        split; (intros [[= -> _]|H]; [done|by right]).
      * intros Hnd total'. apply NoDup_cons in Hnd as [Hnot Hnd].
        assert (Hnone : forall t, (currency, t) ∉ acc).
        { intros t Ht. apply Hnot. by apply (list_elem_of_fmap_2' fst _ (currency, t)). }
        rewrite elem_of_cons. split.
        -- intros [[= ->]|H]; [|by apply Hnone in H].
           exists total. split; [done|]. left. left.
        -- intros (t & -> & [[[= <-]|H]%elem_of_cons|[Hout _]]).
           ++ by left.
           ++ by apply Hnone in H.
           ++ exfalso. apply Hout. left.
    + destruct (addToCurrencyGroup acc currency amount) as [rest|] eqn:Hrest;
        [|done].
      cbn. intros [= <-]. destruct (IH rest eq_refl) as (Hok & Hkeys & Hother & Hown).
      split; [destruct Hok as [?|?]; [left; by right|by right]|].
      split.
      { rewrite fmap_cons, Hkeys. cbn [fst].
        destruct (decide (currency ∈ acc.*1)) as [Hin|Hin].
        - rewrite decide_True by (by right). done.
        - rewrite decide_False; [done|].
          intros [?|?]%elem_of_cons; [congruence|done]. }
      split.
      * intros c0 total0 Hne. rewrite !elem_of_cons, (Hother c0 total0 Hne). done.
      * intros Hnd total'. apply NoDup_cons in Hnd as [Hnot Hnd].
        rewrite elem_of_cons, (Hown Hnd total'). split.
        -- intros [[= ? _]|(t & -> & H)]; [congruence|].
           exists t. split; [done|].
           destruct H as [H|[Hout ->]]; [left; by right|right].
           split; [|done]. intros [?|?]%elem_of_cons; [congruence|done].
        -- intros (t & -> & [[[= ? _]|H]%elem_of_cons|[Hout Ht]]);
             [congruence| |]; right; exists t; (split; [done|]).
           ++ by left.
           ++ right. split; [|done]. intros Hin. apply Hout. by right.
Qed.

Lemma filter_none {A} (f : A -> bool) (l : list A) :
  (forall x, x ∈ l -> f x = false) -> List.filter f l = [].
Proof.
  induction l as [|a l IH]; intros H; [done|]. cbn.
  rewrite (H a) by apply list_elem_of_here.
  apply IH. intros x Hx. apply H. by apply list_elem_of_further.
Qed.

Lemma fold_addToCurrencyGroup_None (rows : list LedgerRow) :
  fold_left
    (fun acc (entry : LedgerRow) =>
       acc ≫= fun acc =>
         addToCurrencyGroup acc (LedgerEntry.currency entry.2)
           (LedgerEntry.amount entry.2))
    rows None = None.
Proof. by induction rows. Qed.

Lemma currencyGroups_snoc (rows : list LedgerRow) (r : LedgerRow) :
  currencyGroups (rows ++ [r])
  = currencyGroups rows ≫= fun acc =>
      addToCurrencyGroup acc (LedgerEntry.currency r.2) (LedgerEntry.amount r.2).
Proof. unfold currencyGroups. by rewrite fold_left_app. Qed.

Lemma sumAmounts_snoc (rows : list LedgerRow) (r : LedgerRow) :
  sumAmounts (rows ++ [r])
  = Decimal.add (sumAmounts rows) (LedgerEntry.amount r.2).
Proof. unfold sumAmounts. by rewrite fold_left_app. Qed.

(** The entries of a currency, in their order. *)
Lemma filter_currency_snoc (c : string) (rows : list LedgerRow) (r : LedgerRow) :
  List.filter (fun entry : LedgerRow =>
                 bool_decide (LedgerEntry.currency entry.2 = c)) (rows ++ [r])
  = List.filter (fun entry : LedgerRow =>
                   bool_decide (LedgerEntry.currency entry.2 = c)) rows
    ++ (if bool_decide (LedgerEntry.currency r.2 = c) then [r] else []).
Proof. by rewrite List.filter_app. Qed.

(** The grouping throws exactly when a currency is a name inherited from
    [Object.prototype]; otherwise there is one group for each currency, and
    its total is the running sum of the amounts of the currency, computed
    in the order of the entries. *)
Lemma currencyGroups_spec (rows : list LedgerRow) :
  match currencyGroups rows with
  | None =>
      exists r, r ∈ rows /\ LedgerEntry.currency r.2 ∈ objectPrototypeKeys
  | Some groups =>
      (forall r, r ∈ rows -> LedgerEntry.currency r.2 ∉ objectPrototypeKeys)
      /\ NoDup groups.*1
      /\ (forall c, c ∈ groups.*1
                    <-> exists r, r ∈ rows /\ LedgerEntry.currency r.2 = c)
      /\ (forall c total,
            (c, total) ∈ groups ->
            total
            = sumAmounts
                (List.filter
                   (fun entry : LedgerRow =>
                      bool_decide (LedgerEntry.currency entry.2 = c)) rows))
  end.
Proof.
  induction rows as [|r rows IH] using rev_ind.
  - cbn. split; [intros r Hr; by apply elem_of_nil in Hr|].
    split; [apply NoDup_nil_2|]. split.
    + intros c. split; [intros H; by apply elem_of_nil in H|].
      intros (r & Hr & _). by apply elem_of_nil in Hr.
    + intros c total H. by apply elem_of_nil in H.
  - rewrite currencyGroups_snoc.
    destruct (currencyGroups rows) as [groups|]; cbn [mbind option_bind].
    2:{ destruct IH as (r0 & Hr0 & Hin). exists r0.
        split; [apply elem_of_app; by left|done]. }
    destruct IH as (Hclean & Hnd & Hkeys & Htotals).
    set (c := LedgerEntry.currency r.2). set (a := LedgerEntry.amount r.2).
    destruct (addToCurrencyGroup groups c a) as [groups'|] eqn:Hadd.
    2:{ apply addToCurrencyGroup_None in Hadd as [_ Hin]. exists r.
        split; [apply elem_of_app; right; apply list_elem_of_here|done]. }
    apply addToCurrencyGroup_Some in Hadd as (Hok & Hkeys' & Hother & Hown).
    specialize (Hown Hnd).
    assert (Hc : c ∉ objectPrototypeKeys).
    { destruct Hok as [Hin|Hout]; [|done].
      apply Hkeys in Hin as (r0 & Hr0 & Hcur). rewrite <- Hcur. by apply Hclean. }
    split.
    { intros r0 [Hr0|Hr0%list_elem_of_singleton]%elem_of_app;
        [by apply Hclean|by subst r0]. }
    split.
    { rewrite Hkeys'. destruct (decide (c ∈ groups.*1)); [done|].
      apply NoDup_app. split; [done|]. split; [|apply NoDup_singleton].
      intros x Hx ->%list_elem_of_singleton. done. }
    split.
    { intros c0. rewrite Hkeys'. split.
      - intros Hin.
        assert (Hcase : c0 ∈ groups.*1 \/ c0 = c).
        { destruct (decide (c ∈ groups.*1)); [by left|].
          apply elem_of_app in Hin as [?|?%list_elem_of_singleton]; auto. }
        destruct Hcase as [Hold| ->].
        + apply Hkeys in Hold as (r0 & Hr0 & Hcur). exists r0.
          split; [apply elem_of_app; by left|done].
        + exists r. split; [apply elem_of_app; right; apply list_elem_of_here|done].
      - intros (r0 & [Hr0|Hr0%list_elem_of_singleton]%elem_of_app & Hcur).
        + assert (Hold : c0 ∈ groups.*1) by (apply Hkeys; by exists r0).
          destruct (decide (c ∈ groups.*1)); [done|apply elem_of_app; by left].
        + subst r0. fold c in Hcur. subst c0.
          destruct (decide (c ∈ groups.*1)); [done|].
          apply elem_of_app. right. apply list_elem_of_here. }
    intros c0 total Hin. rewrite filter_currency_snoc. fold c.
    destruct (decide (c0 = c)) as [->|Hne].
    + rewrite bool_decide_eq_true_2 by done. rewrite sumAmounts_snoc. fold a.
      apply Hown in Hin as (t & -> & [Hold|[Hnew ->]]).
      * by rewrite (Htotals _ _ Hold).
      * f_equal.
        assert (Hnone : List.filter
                          (fun entry : LedgerRow =>
                             bool_decide (LedgerEntry.currency entry.2 = c))
                          rows = []).
        { apply filter_none. intros r0 Hr0. apply bool_decide_eq_false.
          intros Hcur. apply Hnew, Hkeys. by exists r0. }
        by rewrite Hnone.
    + rewrite bool_decide_eq_false_2 by congruence. rewrite app_nil_r.
      apply (Htotals c0 total). by apply Hother.
Qed.


Lemma filter_negb_Permutation {A} (f : A -> bool) (l : list A) :
  List.filter f l ++ List.filter (fun x => negb (f x)) l ≡ₚ l.
Proof.
  induction l as [|a l IH]; [done|]. cbn. destruct (f a); cbn.
  - by rewrite IH.
  - by rewrite <- Permutation_middle, IH.
Qed.

(** [Object.entries] lists every own property once. *)
Lemma objectEntries_Permutation (own : list (string * Q)) :
  objectEntries own ≡ₚ own.
Proof.
  unfold objectEntries. rewrite merge_sort_Permutation.
  apply filter_negb_Permutation.
Qed.

Lemma convertCurrencyGroups_atRates rate target groups acc w :
  exists total,
    convertCurrencyGroups (convertAtRates rate) target groups acc w
    = (Ok total, w).
Proof.
  revert acc. induction groups as [|[c amount] groups IH]; intros acc;
    cbn [convertCurrencyGroups].
  - by exists acc.
  - case_bool_decide as Hc; [apply IH|].
    unfold bind, convertAtRates at 1, ret at 1. apply IH.
Qed.

(** The call when the commissions found are in more than one currency. *)
Lemma getPendingCreatorCommissions_grouped convert creatorId w :
  let commissions :=
    merge_sort createdAtAsc (foundRows (pendingWhere creatorId None) w) in
  let target := firstCurrencyOrUSD commissions in
  (exists r, r ∈ commissions /\ LedgerEntry.currency r.2 <> target) ->
  getPendingCreatorCommissions convert creatorId None w
  = match currencyGroups commissions with
    | None =>
        (Err (AppError InternalServerError "COMMISSION_FETCH_FAILED"), w)
    | Some groups =>
        match convertCurrencyGroups convert target (objectEntries groups)
                0%Q w with
        | (Ok total, w') =>
            (Ok {| PendingCommissions.totalAmount := total;
                   PendingCommissions.currency := target;
                   PendingCommissions.commissions := commissions |}, w')
        | (Err _, w') =>
            (Err (AppError InternalServerError "COMMISSION_FETCH_FAILED"), w')
        end
    end.
Proof.
  intros commissions target (r & Hr & Hne).
  assert (Hmixed : existsb (fun entry : LedgerRow =>
                              negb (bool_decide
                                      (LedgerEntry.currency entry.2 = target)))
                     commissions = true).
  { apply existsb_exists. exists r. split; [by apply list_elem_of_In|].
    by rewrite bool_decide_eq_false_2. }
  unfold getPendingCreatorCommissions, try_catch, bind at 1,
    ledgerEntry_findManyOrderByCreatedAt.
  fold (foundRows (pendingWhere creatorId None) w). fold commissions.
  cbn [truthy negb andb]. fold target. rewrite Hmixed.
  destruct (currencyGroups commissions) as [groups|]; [|done].
  unfold bind.
  by destruct (convertCurrencyGroups convert target _ 0%Q w) as [[total|e] w1].
Qed.

(** X7.  Pending commissions in more than one currency, when no currency is
    asked for: the answer is in the currency of the earliest commission and
    the amounts are grouped by currency in a plain object before they are
    converted.  If one of the currencies is a name every object inherits
    ([constructor], [toString], [__proto__], ...), the grouping throws and
    the call fails with [COMMISSION_FETCH_FAILED], whatever the currency
    service does and without a change.  Otherwise there is one group for
    each currency, its total is the running sum of the amounts of the
    currency, [Object.entries] lists each group once, the call is the
    conversion of the listed groups (an error of the currency service
    becomes [COMMISSION_FETCH_FAILED]), and with a currency service that
    converts at fixed rates it succeeds and changes nothing. *)
Theorem getPendingCreatorCommissions_mixed_currencies
    (convert : Q -> string -> string -> M Q) (creatorId : string) (w : World) :
  let commissions :=
    merge_sort createdAtAsc (foundRows (pendingWhere creatorId None) w) in
  let target := firstCurrencyOrUSD commissions in
  (exists r, r ∈ commissions /\ LedgerEntry.currency r.2 <> target) ->
  ((exists r, r ∈ commissions
              /\ LedgerEntry.currency r.2 ∈ objectPrototypeKeys) ->
   getPendingCreatorCommissions convert creatorId None w
   = (Err (AppError InternalServerError "COMMISSION_FETCH_FAILED"), w))
  /\ ((forall r, r ∈ commissions ->
                 LedgerEntry.currency r.2 ∉ objectPrototypeKeys) ->
      exists groups,
        currencyGroups commissions = Some groups
        /\ NoDup groups.*1
        /\ (forall c, c ∈ groups.*1
                      <-> exists r, r ∈ commissions
                                    /\ LedgerEntry.currency r.2 = c)
        /\ (forall c total,
              (c, total) ∈ groups ->
              total
              = sumAmounts
                  (List.filter
                     (fun entry : LedgerRow =>
                        bool_decide (LedgerEntry.currency entry.2 = c))
                     commissions))
        /\ objectEntries groups ≡ₚ groups
        /\ getPendingCreatorCommissions convert creatorId None w
           = match convertCurrencyGroups convert target (objectEntries groups)
                     0%Q w with
             | (Ok total, w') =>
                 (Ok {| PendingCommissions.totalAmount := total;
                        PendingCommissions.currency := target;
                        PendingCommissions.commissions := commissions |}, w')
             | (Err _, w') =>
                 (Err (AppError InternalServerError "COMMISSION_FETCH_FAILED"),
                  w')
             end
        /\ forall rate,
             exists total,
               getPendingCreatorCommissions (convertAtRates rate) creatorId
                 None w
               = (Ok {| PendingCommissions.totalAmount := total;
                        PendingCommissions.currency := target;
                        PendingCommissions.commissions := commissions |}, w)).
Proof.
  intros commissions target Hmixed.
  pose proof (fun convert =>
                getPendingCreatorCommissions_grouped convert creatorId w Hmixed)
    as Hrun.
  fold commissions target in Hrun.
  pose proof (currencyGroups_spec commissions) as Hspec.
  destruct (currencyGroups commissions) as [groups|]; split.
  - intros (r & Hr & Hin). destruct Hspec as (Hclean & _).
    by apply Hclean in Hr.
  - intros _. destruct Hspec as (_ & Hnd & Hkeys & Htotals).
    exists groups. split; [done|]. split; [done|]. split; [done|].
    split; [done|]. split; [apply objectEntries_Permutation|].
    split; [apply Hrun|]. intros rate. rewrite Hrun.
    destruct (convertCurrencyGroups_atRates rate target (objectEntries groups)
                0%Q w) as (total & ->).
    by exists total.
  - intros _. apply Hrun.
  - intros Hclean. destruct Hspec as (r & Hr & Hin). by apply Hclean in Hr.
Qed.

Lemma getPendingCreatorCommissions_mixed_currencies_witness :
  getPendingCreatorCommissions (convertAtRates Scenarios.rates) "creator1" None
    Scenarios.worldInherited
  = (Err (AppError InternalServerError "COMMISSION_FETCH_FAILED"),
     Scenarios.worldInherited).
Proof.
  assert (Hrows :
            merge_sort createdAtAsc
              (foundRows (pendingWhere "creator1" None) Scenarios.worldInherited)
            = [("i1", Scenarios.commission "order1" 10 "USD" CLEARED 10
                        "creator1");
               ("i2", Scenarios.commission "order2" 5 "constructor" CLEARED 20
                        "creator1")])
    by (vm_compute; reflexivity).
  destruct (getPendingCreatorCommissions_mixed_currencies
              (convertAtRates Scenarios.rates) "creator1"
              Scenarios.worldInherited) as [Hfails _].
  - rewrite Hrows. eexists. split; [apply list_elem_of_further, list_elem_of_here|].
    discriminate.
  - apply Hfails. rewrite Hrows. eexists.
    split; [apply list_elem_of_further, list_elem_of_here|]. apply list_elem_of_here.
Defined.

(** ** From pending to paid *)

Lemma markCommissionsAsPaid_existing commissionIds payoutId w :
  (forall id, id ∈ commissionIds -> is_Some (ledgerEntry w !! id)) ->
  exists rows ledger',
    markCommissionsAsPaid commissionIds payoutId w
    = (Ok rows, setLedger ledger' (Nat.iter (length commissionIds) tick w))
    /\ length rows = length commissionIds
    /\ (forall id, id ∉ commissionIds -> ledger' !! id = ledgerEntry w !! id)
    /\ (forall id e,
          ledgerEntry w !! id = Some e ->
          exists e', ledger' !! id = Some e' /\ sameWriteOnceColumns e e')
    /\ (forall id e',
          id ∈ commissionIds -> ledger' !! id = Some e' ->
          LedgerEntry.status e' = PAID
          /\ LedgerEntry.payoutId e' = Some payoutId).
Proof.
  intros Hall. rewrite markCommissionsAsPaid_run. cbn zeta.
  set (updates := imap _ commissionIds).
  assert (Hkeys : updates.*1 = commissionIds)
    by apply (fmap_fst_imap_ids
                (fun k _ => paidData payoutId (clock w (ticks w + k)))).
  destruct (applyUpdates_success updates (ledgerEntry w))
    as (rows & Hrows & Hlen).
  { intros u Hu. apply Hall. rewrite <- Hkeys. by apply list_elem_of_fmap_2. }
  pose proof (applyUpdates_untouched updates (ledgerEntry w)) as Hun.
  pose proof (fun id e' =>
                applyUpdates_established
                  (fun e' => LedgerEntry.status e' = PAID
                             /\ LedgerEntry.payoutId e' = Some payoutId)
                  updates (ledgerEntry w) id e') as Hest.
  assert (Hrel : forall rows0 ledger0,
             applyUpdates updates (ledgerEntry w) = (rows0, ledger0) ->
             forall id, option_Forall2 sameWriteOnceColumns
                          (ledgerEntry w !! id) (ledger0 !! id)).
  { apply (applyUpdates_related sameWriteOnceColumns).
    intros u e0 Hu. apply elem_of_lookup_imap_1 in Hu as (k & i & -> & _).
    by apply apply_sameWriteOnceColumns. }
  destruct (applyUpdates updates (ledgerEntry w)) as [rows0 ledger'].
  cbn [fst snd] in *. subst rows0. exists rows, ledger'.
  split; [done|]. split; [rewrite Hlen; apply length_imap|].
  split; [intros id Hid; apply Hun; by rewrite Hkeys|]. split.
  - intros id e He. specialize (Hrel _ _ eq_refl id). rewrite He in Hrel.
    destruct (ledger' !! id) as [e'|]; inversion Hrel as [? ? Hsame|].
    by exists e'.
  - intros id e' Hid He'. apply (Hest id e'); [|by rewrite Hkeys|by eexists|done].
    intros u e0 Hu. apply elem_of_lookup_imap_1 in Hu as (k & i & -> & _).
    by split.
Qed.

Lemma getPendingCreatorCommissions_none convert creatorId currency w :
  foundRows (pendingWhere creatorId currency) w = [] ->
  getPendingCreatorCommissions convert creatorId currency w
  = (Ok {| PendingCommissions.totalAmount := 0%Q;
           PendingCommissions.currency :=
             if truthy currency then default "" currency else "USD";
           PendingCommissions.commissions := [] |}, w).
Proof.
  intros Hnone.
  pose proof (getPendingCreatorCommissions_plain convert creatorId currency w)
    as Hplain.
  cbn zeta in Hplain. rewrite Hnone in Hplain. cbn in Hplain.
  rewrite Hplain; [done|]. by destruct (truthy currency).
Qed.

(** X8.  Marking the pending commissions of a creator as paid settles them:
    the call succeeds with one row per commission, each commission is then
    PAID under the payout id with the amount it had, and the creator has no
    pending commission left: the next [getPendingCreatorCommissions]
    returns no commission and a total of 0. *)
Theorem payout_settles_pending_commissions
    (convert : Q -> string -> string -> M Q) (creatorId : string)
    (currency : option string) (payoutId : string) (w w' : World)
    (result : PendingCommissions.t) :
  getPendingCreatorCommissions convert creatorId currency w = (Ok result, w') ->
  ledgerEntry w' = ledgerEntry w ->
  exists rows w1,
    markCommissionsAsPaid (PendingCommissions.commissions result).*1 payoutId w'
    = (Ok rows, w1)
    /\ length rows = length (PendingCommissions.commissions result)
    /\ (forall r, r ∈ PendingCommissions.commissions result ->
                  exists e', ledgerEntry w1 !! r.1 = Some e'
                             /\ LedgerEntry.status e' = PAID
                             /\ LedgerEntry.payoutId e' = Some payoutId
                             /\ LedgerEntry.amount e' = LedgerEntry.amount r.2)
    /\ getPendingCreatorCommissions convert creatorId currency w1
       = (Ok {| PendingCommissions.totalAmount := 0%Q;
                PendingCommissions.currency :=
                  if truthy currency then default "" currency else "USD";
                PendingCommissions.commissions := [] |}, w1).
Proof.
  intros Hrun Hledger.
  pose proof (getPendingCreatorCommissions_found _ _ _ _ _ _ Hrun) as Hfound.
  destruct (findMany_rows (pendingWhere creatorId currency) (ledgerEntry w))
    as [_ Hin].
  fold (foundRows (pendingWhere creatorId currency) w) in Hin.
  set (commissions := PendingCommissions.commissions result) in *.
  assert (Hmem : forall r, r ∈ commissions
                           <-> ledgerEntry w !! r.1 = Some r.2
                               /\ pendingWhere creatorId currency r.2 = true).
  { intros r. by rewrite Hfound, merge_sort_Permutation. }
  destruct (markCommissionsAsPaid_existing commissions.*1 payoutId w')
    as (rows & ledger' & Hpaid & Hlen & Hother & Hkeep & Hstatus).
  { intros id Hid. apply list_elem_of_fmap in Hid as (r & -> & Hr).
    rewrite Hledger. apply Hmem in Hr as [Hl _]. by eexists. }
  eexists rows, _. split; [exact Hpaid|].
  split; [by rewrite Hlen, length_fmap|]. split.
  - intros r Hr. cbn [ledgerEntry setLedger].
    destruct (proj1 (Hmem r) Hr) as [Hl _]. rewrite <- Hledger in Hl.
    destruct (Hkeep _ _ Hl) as (e' & He' & Hsame).
    exists e'. split; [exact He'|].
    destruct (Hstatus r.1 e') as [Hs Hp];
      [by apply list_elem_of_fmap_2|exact He'|].
    split; [done|]. split; [done|]. apply Hsame.
  - apply getPendingCreatorCommissions_none. apply foundRows_nil.
    cbn [ledgerEntry setLedger]. intros id e1 He1.
    destruct (decide (id ∈ commissions.*1)) as [Hid|Hid].
    + destruct (Hstatus id e1 Hid He1) as [Hs _].
      unfold pendingWhere. rewrite Hs. cbn. by rewrite andb_false_r.
    + rewrite (Hother id Hid), Hledger in He1.
      apply not_true_iff_false. intros Hw. apply Hid.
      apply (list_elem_of_fmap_2' fst _ (id, e1)); [|done].
      by apply Hmem.
Qed.

Ltac enum_map_entries H :=
  apply elem_of_map_to_list in H;
  match type of H with
  | _ ∈ map_to_list ?m =>
      let l := eval vm_compute in (map_to_list m) in
      change (map_to_list m) with l in H
  end;
  repeat (apply elem_of_cons in H as [[= -> ->]|H]);
  [..|by apply elem_of_nil in H].

Lemma getPendingCreatorCommissions_selection_witness :
  exists result,
    getPendingCreatorCommissions (convertAtRates Scenarios.rates) "creator1"
      None Scenarios.worldPending = (Ok result, Scenarios.worldPending)
    /\ StronglySorted createdAtAsc (PendingCommissions.commissions result)
    /\ ("p3", Scenarios.commission "order3" 30 "USD" CLEARED 20 "creator1")
       ∈ PendingCommissions.commissions result.
Proof.
  assert (Hrun : exists result,
             getPendingCreatorCommissions (convertAtRates Scenarios.rates)
               "creator1" None Scenarios.worldPending
             = (Ok result, Scenarios.worldPending))
    by (eexists; vm_compute; reflexivity).
  destruct Hrun as (result & Hrun).
  destruct (getPendingCreatorCommissions_selection _ _ _ _ _ _ Hrun)
    as (Hsorted & _ & Hmem).
  exists result. split; [exact Hrun|]. split; [exact Hsorted|].
  apply Hmem. cbn [fst snd]. split; [reflexivity|]. by repeat split.
Defined.

Lemma getPendingCreatorCommissions_one_currency_witness :
  exists result,
    getPendingCreatorCommissions (fun _ _ _ => throw (PrismaError "down"))
      "creator1" None Scenarios.worldPending
    = (Ok result, Scenarios.worldPending)
    /\ (PendingCommissions.totalAmount result
        == amountsTotal (PendingCommissions.commissions result))%Q.
Proof.
  destruct (getPendingCreatorCommissions_one_currency
              (fun _ _ _ => throw (PrismaError "down")) "creator1" "USD"
              Scenarios.worldPending) as (result & Hrun & Htotal & _).
  - discriminate.
  - intros id e He _. enum_map_entries He; reflexivity.
  - exists result. by split.
Defined.

Lemma payout_settles_pending_commissions_witness :
  exists result rows w1,
    getPendingCreatorCommissions (convertAtRates Scenarios.rates) "creator1"
      None Scenarios.worldPending = (Ok result, Scenarios.worldPending)
    /\ markCommissionsAsPaid (PendingCommissions.commissions result).*1
         "payout1" Scenarios.worldPending = (Ok rows, w1)
    /\ length rows = length (PendingCommissions.commissions result)
    /\ exists result1,
         getPendingCreatorCommissions (convertAtRates Scenarios.rates)
           "creator1" None w1 = (Ok result1, w1)
         /\ PendingCommissions.commissions result1 = [].
Proof.
  assert (Hrun : exists result,
             getPendingCreatorCommissions (convertAtRates Scenarios.rates)
               "creator1" None Scenarios.worldPending
             = (Ok result, Scenarios.worldPending))
    by (eexists; vm_compute; reflexivity).
  destruct Hrun as (result & Hrun).
  destruct (payout_settles_pending_commissions _ _ _ "payout1" _ _ _ Hrun
              eq_refl) as (rows & w1 & Hpaid & Hlen & _ & Hnone).
  exists result, rows, w1. split; [exact Hrun|]. split; [exact Hpaid|].
  split; [exact Hlen|]. eexists. split; [exact Hnone|reflexivity].
Defined.

(** Scenario D and two conversions, evaluated: 10, 20 and 30 USD give 60
    USD in the order of their creation; 10 USD with 100 and 50 MYR at a
    quarter of a dollar for a ringgit give 47.50 USD; with currencies of
    numeric codes, [Object.entries] lists the numeric codes first, in
    ascending order. *)
Example getPendingCreatorCommissions_scenario_D :
  exists result,
    getPendingCreatorCommissions (convertAtRates Scenarios.rates) "creator1"
      None Scenarios.worldPending = (Ok result, Scenarios.worldPending)
    /\ (PendingCommissions.commissions result).*1 = ["p2"; "p3"; "p1"]
    /\ PendingCommissions.currency result = "USD"
    /\ (PendingCommissions.totalAmount result == 60)%Q.
Proof. eexists. split; [vm_compute; reflexivity|]. by repeat split. Qed.

Example getPendingCreatorCommissions_mixed_USD_MYR :
  exists result,
    getPendingCreatorCommissions (convertAtRates Scenarios.rates) "creator1"
      None Scenarios.worldMixed = (Ok result, Scenarios.worldMixed)
    /\ currencyGroups (PendingCommissions.commissions result)
       = Some [("USD", 0 + 10); ("MYR", 0 + 100 + 50)]%Q
    /\ PendingCommissions.currency result = "USD"
    /\ (PendingCommissions.totalAmount result == 47.5)%Q.
Proof. eexists. split; [vm_compute; reflexivity|]. by repeat split. Qed.

Example getPendingCreatorCommissions_numeric_codes :
  exists result groups,
    getPendingCreatorCommissions (convertAtRates Scenarios.rates) "creator1"
      None Scenarios.worldNumeric = (Ok result, Scenarios.worldNumeric)
    /\ currencyGroups (PendingCommissions.commissions result) = Some groups
    /\ groups.*1 = ["USD"; "MYR"; "840"; "36"]
    /\ (objectEntries groups).*1 = ["36"; "840"; "USD"; "MYR"].
Proof.
  eexists. eexists. split; [vm_compute; reflexivity|].
  split; [vm_compute; reflexivity|]. by split.
Qed.

(** ** Rule resolution, tier by tier *)

(** X9.  First match wins, at every tier.  The tiers are queried in the
    fixed order CAMPAIGN (only for a supplied campaign id), SKU, PRODUCT,
    DEFAULT, each query with two clock readings of its own.  When the tiers
    before a tier have no matching rule and the tier has one, the result is
    the first rule of the table that matches this tier: in particular the
    PRODUCT rule when no campaign or SKU rule matches, and the DEFAULT rule
    when no other rule does. *)
Theorem findApplicableCommissionRule_first_match
    (w : World) (orderItem : OrderItem.t) (campaignId : option string)
    (k : nat) (tier : CommissionRuleType) (rule : CommissionRule.t) :
  tiersQueried campaignId !! k = Some tier ->
  (forall j tier' r,
      j < k -> tiersQueried campaignId !! j = Some tier' ->
      r ∈ commissionRule w ->
      tierWhere tier' orderItem campaignId
        (clock w (2 * j + ticks w)) (clock w (S (2 * j + ticks w))) r = false) ->
  List.find
    (tierWhere tier orderItem campaignId
       (clock w (2 * k + ticks w)) (clock w (S (2 * k + ticks w))))
    (commissionRule w) = Some rule ->
  findApplicableCommissionRule orderItem campaignId w
  = (Ok rule, Nat.iter (2 * S k) tick w)
  /\ CommissionRule.type rule = tier.
Proof.
  intros Hk Hno Hfind. rewrite findApplicableCommissionRule_scan.
  rewrite (scanTiers_first _ _ _ _ _ k tier rule Hk Hno Hfind).
  split; [done|]. apply find_some in Hfind as [_ Hw].
  by apply tierWhere_true in Hw as (_ & Htype & _).
Qed.

(** X10.  A rule that [findApplicableCommissionRule] returns is a row of
    the rule table, belongs to the organization of the order, is active,
    has a start date and an end date that enclose the two clock readings of
    its query (a rule without an end date is never returned), is of a tier
    that was queried (never a CAMPAIGN rule when no campaign id is
    supplied) and refers to the campaign, the SKU or the product of the
    call; the call has read the clock twice for each tier up to the one of
    the rule, and no rule matched the tiers before it. *)
Theorem findApplicableCommissionRule_sound
    (w w' : World) (orderItem : OrderItem.t) (campaignId : option string)
    (rule : CommissionRule.t) :
  findApplicableCommissionRule orderItem campaignId w = (Ok rule, w') ->
  rule ∈ commissionRule w
  /\ CommissionRule.organizationId rule
     = Order.organizationId (OrderItem.order orderItem)
  /\ CommissionRule.isActive rule = true
  /\ CommissionRule.type rule ∈ tiersQueried campaignId
  /\ scopeMatches (CommissionRule.type rule) orderItem campaignId rule
  /\ exists (k : nat) (startDate endDate : Z),
       tiersQueried campaignId !! k = Some (CommissionRule.type rule)
       /\ w' = Nat.iter (2 * S k) tick w
       /\ CommissionRule.startDate rule = Some startDate
       /\ CommissionRule.endDate rule = Some endDate
       /\ (startDate <= clock w (2 * k + ticks w))%Z
       /\ (clock w (S (2 * k + ticks w)) <= endDate)%Z
       /\ forall j tier r,
            j < k -> tiersQueried campaignId !! j = Some tier ->
            r ∈ commissionRule w ->
            tierWhere tier orderItem campaignId
              (clock w (2 * j + ticks w)) (clock w (S (2 * j + ticks w))) r
            = false.
Proof.
  rewrite findApplicableCommissionRule_scan.
  destruct (scanTiers w orderItem campaignId (tiersQueried campaignId) (ticks w))
    as [[found|] queried] eqn:Hscan; [|done].
  intros [= <- <-].
  apply scanTiers_found in Hscan as (k & tier & -> & Hk & Hfind & Hno).
  apply find_some in Hfind as [Hin Hw]. apply list_elem_of_In in Hin.
  apply tierWhere_true in Hw
    as (Horg & Htype & Hscope & Hactive & (s & Hs & Hs') & (e & He & He')).
  subst tier. split; [done|]. split; [done|]. split; [done|].
  split; [by eapply list_elem_of_lookup_2|]. split; [done|].
  exists k, s, e. by repeat split.
Qed.

Lemma findApplicableCommissionRule_sound_witness :
  exists rule w',
    findApplicableCommissionRule (Examples.item 100) (Some "campaign1")
      Examples.worldOpenEndedCampaign = (Ok rule, w')
    /\ rule ∈ commissionRule Examples.worldOpenEndedCampaign
    /\ exists endDate, CommissionRule.endDate rule = Some endDate.
Proof.
  assert (Hrun : exists rule w',
             findApplicableCommissionRule (Examples.item 100) (Some "campaign1")
               Examples.worldOpenEndedCampaign = (Ok rule, w'))
    by (eexists; eexists; vm_compute; reflexivity).
  destruct Hrun as (rule & w' & Hrun). exists rule, w'.
  destruct (findApplicableCommissionRule_sound _ _ _ _ _ Hrun)
    as (Hin & _ & _ & _ & _ & k & startDate & endDate & _ & _ & _ & Hend & _).
  split; [exact Hrun|]. split; [exact Hin|]. by exists endDate.
Defined.

(** ** Processing the items of an order *)

#[local] Instance sameTables_refl : Reflexive sameTables.
Proof. intros w. by repeat split. Qed.

#[local] Instance sameTables_trans : Transitive sameTables.
Proof.
  intros w1 w2 w3 H12 H23. unfold sameTables in *. destruct_and!.
  repeat split; congruence.
Qed.

Lemma iter_tick_sameTables (n : nat) (w : World) :
  sameTables w (Nat.iter n tick w).
Proof. induction n as [|n IH]; [done|]. cbn. by destruct IH as (?&?&?&?&?). Qed.

Lemma calculateCommission_outcome orderItem pct campaignId w :
  let run := calculateCommission orderItem pct campaignId w in
  sameTables w run.2
  /\ ledgerEntry run.2 = ledgerEntry w
  /\ ((exists rule,
         rule ∈ commissionRule w
         /\ run.1 = Ok (commissionSplit orderItem rule (default 0.029%Q pct)))
      \/ run.1 = Err (AppError NotFoundError "COMMISSION_RULE_NOT_FOUND")).
Proof.
  intros run. subst run.
  pose proof (findApplicableCommissionRule_scan w orderItem campaignId) as Hscan.
  destruct (scanTiers w orderItem campaignId (tiersQueried campaignId) (ticks w))
    as [[rule|] queried] eqn:Hs.
  - rewrite (calculateCommission_resolved _ _ _ _ _ _ Hscan). cbn [fst snd].
    split; [apply iter_tick_sameTables|].
    split; [apply iter_tick_ledgerEntry|]. left. exists rule. split; [|done].
    apply scanTiers_found in Hs as (k & tier & _ & _ & Hfind & _).
    apply find_some in Hfind as [Hin _]. by apply list_elem_of_In.
  - rewrite (calculateCommission_failed _ _ _ _ _ _ Hscan). cbn [fst snd].
    split; [apply iter_tick_sameTables|].
    split; [apply iter_tick_ledgerEntry|]. by right.
Qed.

Lemma createLedgerEntries_outcome calculation ord creatorId w :
  CommissionCalculation.currency calculation = Order.currency ord ->
  let run := createLedgerEntries calculation ord creatorId w in
  sameTables w run.2
  /\ ((exists rows,
         run.1 = Ok rows
         /\ typeAndAmount <$> rows = splitAmounts calculation
         /\ ledgerEntry w ⊆ ledgerEntry run.2
         /\ size (ledgerEntry run.2) = 4 + size (ledgerEntry w)
         /\ Forall (newSplitEntry ord creatorId (ledgerEntry w)
                      (ledgerEntry run.2)) rows)
      \/ (run.1
          = Err (AppError InternalServerError "LEDGER_ENTRY_CREATION_FAILED")
          /\ ledgerEntry run.2 = ledgerEntry w)).
Proof.
  intros Hcurrency run. subst run.
  unfold createLedgerEntries, try_catch, transaction, throw.
  rewrite create_step. cbn zeta.
  set (i0 := cuid w (issued w)).
  destruct (ledgerEntry w !! i0) eqn:H0; [by split; [|right]|].
  rewrite create_step. cbn zeta.
  cbn [tick issue setLedger ledgerEntry clock ticks cuid issued].
  set (i1 := cuid w (S (issued w))).
  match goal with
  | |- context [match ?m !! i1 with _ => _ end] => destruct (m !! i1) eqn:H1
  end; [by split; [|right]|].
  apply lookup_insert_None in H1 as [H1 H01].
  rewrite create_step. cbn zeta.
  cbn [tick issue setLedger ledgerEntry clock ticks cuid issued].
  set (i2 := cuid w (S (S (issued w)))).
  match goal with
  | |- context [match ?m !! i2 with _ => _ end] => destruct (m !! i2) eqn:H2
  end; [by split; [|right]|].
  apply lookup_insert_None in H2 as [H2 H12].
  apply lookup_insert_None in H2 as [H2 H02].
  rewrite create_step. cbn zeta.
  cbn [tick issue setLedger ledgerEntry clock ticks cuid issued].
  set (i3 := cuid w (S (S (S (issued w))))).
  match goal with
  | |- context [match ?m !! i3 with _ => _ end] => destruct (m !! i3) eqn:H3
  end; [by split; [|right]|].
  apply lookup_insert_None in H3 as [H3 H23].
  apply lookup_insert_None in H3 as [H3 H13].
  apply lookup_insert_None in H3 as [H3 H03].
  unfold ret. cbn [fst snd ledgerEntry setLedger].
  split; [done|]. left. eexists. split; [reflexivity|]. split; [done|].
  split.
  { apply map_subseteq_spec. intros id e He.
    rewrite !lookup_insert_ne; [done|congruence..]. }
  split; [rewrite !map_size_insert_None; [done|by simplify_map_eq..]|].
  repeat (apply Forall_cons; split;
            [split; [cbn [fst snd]; by simplify_map_eq|];
             split; [done|]; do 3 (split; [done|]);
             split; [exact Hcurrency|]; cbn; intros Htype;
             first [discriminate Htype|reflexivity]|]).
  apply Forall_nil_2.
Qed.

Lemma processOrderItems_cons ord campaignId creatorId item items
    calculations ledgerEntries w :
  processOrderItems ord campaignId creatorId (item :: items)
    calculations ledgerEntries w
  = match calculateCommission (OrderItem.withOrder item ord) (Some 0.029%Q)
            campaignId w with
    | (Ok calculation, w1) =>
        match createLedgerEntries calculation ord creatorId w1 with
        | (Ok entries, w2) =>
            processOrderItems ord campaignId creatorId items
              (calculations ++ [calculation]) (ledgerEntries ++ entries) w2
        | (Err e, w2) => (Err e, w2)
        end
    | (Err e, w1) => (Err e, w1)
    end.
Proof. reflexivity. Qed.

Lemma processOrderItems_outcome ord campaignId creatorId items :
  forall calculations ledgerEntries w,
    let run := processOrderItems ord campaignId creatorId items
                 calculations ledgerEntries w in
    sameTables w run.2
    /\ ledgerEntry w ⊆ ledgerEntry run.2
    /\ match run.1 with
       | Ok (calculations', ledgerEntries') =>
           exists newCalculations newEntries,
             calculations' = calculations ++ newCalculations
             /\ ledgerEntries' = ledgerEntries ++ newEntries
             /\ CommissionCalculation.orderItemId <$> newCalculations
                = OrderItemRow.id <$> items
             /\ typeAndAmount <$> newEntries
                = newCalculations ≫= splitAmounts
             /\ size (ledgerEntry run.2)
                = 4 * length items + size (ledgerEntry w)
             /\ Forall (newSplitEntry ord creatorId (ledgerEntry w)
                          (ledgerEntry run.2)) newEntries
       | Err e =>
           e = AppError NotFoundError "COMMISSION_RULE_NOT_FOUND"
           \/ e = AppError InternalServerError "LEDGER_ENTRY_CREATION_FAILED"
       end.
Proof.
  induction items as [|item items IH]; intros calculations ledgerEntries w.
  - cbn. split; [done|]. split; [done|]. exists [], [].
    rewrite !app_nil_r. by repeat split.
  - cbn zeta. rewrite processOrderItems_cons.
    pose proof (calculateCommission_outcome (OrderItem.withOrder item ord)
                  (Some 0.029%Q) campaignId w) as (Ht1 & Hl1 & Hc).
    destruct (calculateCommission _ _ _ w) as [[calculation|e] w1] eqn:Hcalc;
      cbn [fst snd] in *.
    2:{ split; [done|]. split; [by rewrite Hl1|].
        destruct Hc as [(? & _ & [=])|[= ->]]. by left. }
    destruct Hc as [(rule & _ & [= ->])|[=]].
    pose proof (createLedgerEntries_outcome
                  (commissionSplit (OrderItem.withOrder item ord) rule 0.029%Q)
                  ord creatorId w1 eq_refl) as (Ht2 & Hcreate).
    destruct (createLedgerEntries _ _ _ w1) as [[rows|e] w2] eqn:Hrun;
      cbn [fst snd] in *.
    2:{ split; [by etrans|].
        destruct Hcreate as [(? & [=] & _)|[[= ->] Hl2]].
        split; [by rewrite Hl2, Hl1|]. by right. }
    destruct Hcreate as [(? & [= <-] & Hamounts & Hsub & Hsize & Hnew)|[[=] _]].
    specialize (IH (calculations
                    ++ [commissionSplit (OrderItem.withOrder item ord) rule
                          0.029%Q])
                   (ledgerEntries ++ rows) w2).
    cbn zeta in IH. destruct IH as (Ht3 & Hsub3 & Hres).
    destruct (processOrderItems _ _ _ items _ _ w2) as [[[cs es]|e] w3];
      cbn [fst snd] in *.
    + split; [by repeat (etrans; [eassumption|])|].
      split; [rewrite <- Hl1; by etrans|].
      destruct Hres as (cs' & es' & -> & -> & Hids & Hamounts' & Hsize' & Hnew').
      exists (commissionSplit (OrderItem.withOrder item ord) rule 0.029%Q :: cs'),
        (rows ++ es').
      split; [by rewrite <- app_assoc|]. split; [by rewrite <- app_assoc|].
      split; [cbn; by rewrite Hids|].
      split; [rewrite fmap_app, Hamounts, Hamounts'; reflexivity|].
      split; [rewrite Hsize', Hsize, Hl1; cbn; lia|].
      apply Forall_app. split.
      * eapply Forall_impl; [exact Hnew|]. intros r (Hin & Hout & Hrest).
        split; [by eapply lookup_weaken|]. split; [by rewrite <- Hl1|done].
      * eapply Forall_impl; [exact Hnew'|]. intros r (Hin & Hout & Hrest).
        split; [done|]. split; [|done].
        destruct (ledgerEntry w !! r.1) as [e0|] eqn:He0; [|done].
        rewrite <- Hl1 in He0.
        pose proof (lookup_weaken _ _ _ _ He0 Hsub). congruence.
    + split; [by repeat (etrans; [eassumption|])|].
      split; [rewrite <- Hl1; by etrans|]. done.
Qed.

Lemma processOrderCommissions_run orderId campaignId creatorId w :
  processOrderCommissions orderId campaignId creatorId w
  = match order w !! orderId with
    | None => (Err (AppError NotFoundError "ORDER_NOT_FOUND"), w)
    | Some ord =>
        let creatorId' :=
          if negb (truthy creatorId) && truthy campaignId then
            match campaign w !! default "" campaignId with
            | Some c => Some (Campaign.creatorId c)
            | None => creatorId
            end
          else creatorId in
        if negb (truthy creatorId') then
          (Err (AppError ValidationError "CREATOR_ID_REQUIRED"), w)
        else
          processOrderItems ord campaignId (default "" creatorId')
            (Order.orderItems ord) [] [] w
    end.
Proof.
  unfold processOrderCommissions, try_catch, bind at 1, order_findUnique.
  destruct (order w !! orderId) as [ord|]; [|done]. cbn zeta.
  unfold bind at 1.
  destruct (negb (truthy creatorId) && truthy campaignId).
  - unfold bind at 1, campaign_findUnique.
    destruct (campaign w !! default "" campaignId) as [c|]; cbn [ret throw];
      match goal with
      | |- context [negb (truthy ?c)] => destruct (negb (truthy c))
      end; cbn [throw]; try done;
      by destruct (processOrderItems _ _ _ _ _ _ w) as [[?|?] ?].
  - cbn [ret]. destruct (negb (truthy creatorId)); cbn [throw]; [done|].
    by destruct (processOrderItems _ _ _ _ _ _ w) as [[?|?] ?].
Qed.

Lemma findApplicableCommissionRule_first_match_witness :
  findApplicableCommissionRule Scenarios.item2 None Examples.worldThreeRules
  = (Ok (Examples.defaultRule 10 5 None None),
     Nat.iter 6 tick Examples.worldThreeRules).
Proof.
  apply (findApplicableCommissionRule_first_match Examples.worldThreeRules
           Scenarios.item2 None 2 DEFAULT).
  - reflexivity.
  - intros j tier' r Hj Hl Hr. cbn in Hr.
    destruct j as [|[|j]]; [ | |lia];
      (injection Hl as <-;
       repeat (apply elem_of_cons in Hr as [->|Hr]);
       try reflexivity; by apply elem_of_nil in Hr).
  - reflexivity.
Defined.

(** X11.  Whatever happens, [processOrderCommissions] only adds to the
    ledger: whether it succeeds or fails, every entry that was in the
    ledger is still there, unchanged, and the rule, order and campaign
    tables, the clock and the id generator are as they were. *)
Theorem processOrderCommissions_only_adds
    (w : World) (orderId : string) (campaignId creatorId : option string) :
  let run := processOrderCommissions orderId campaignId creatorId w in
  sameTables w run.2
  /\ ledgerEntry w ⊆ ledgerEntry run.2
  /\ forall id e,
       ledgerEntry w !! id = Some e -> ledgerEntry run.2 !! id = Some e.
Proof.
  intros run.
  assert (Hrun : sameTables w run.2 /\ ledgerEntry w ⊆ ledgerEntry run.2).
  { subst run. rewrite processOrderCommissions_run.
    destruct (order w !! orderId) as [ord|]; [|done]. cbn zeta.
    match goal with
    | |- context [negb (truthy ?c)] => destruct (negb (truthy c))
    end; [done|].
    match goal with
    | |- context [processOrderItems ?o ?c ?cr ?items [] [] w] =>
        pose proof (processOrderItems_outcome o c cr items [] [] w)
          as (Ht & Hsub & _)
    end.
    done. }
  destruct Hrun as [Htables Hsub]. split; [exact Htables|].
  split; [exact Hsub|]. intros id e He. by eapply lookup_weaken.
Qed.

Lemma length_splitAmounts (calculations : list CommissionCalculation.t) :
  length (calculations ≫= splitAmounts) = 4 * length calculations.
Proof.
  induction calculations as [|c cs IH]; [done|].
  cbn. rewrite IH. lia.
Qed.

(** A successful [processOrderCommissions] found the order, resolved a
    creator and ran the loop over the items of the order to its end. *)
Lemma processOrderCommissions_inv orderId campaignId creatorId w result w' :
  processOrderCommissions orderId campaignId creatorId w = (Ok result, w') ->
  exists ord creator,
    order w !! orderId = Some ord
    /\ creator <> ""
    /\ (truthy creatorId = true -> creatorId = Some creator)
    /\ (truthy creatorId = false ->
        exists c, campaign w !! default "" campaignId = Some c
                  /\ Campaign.creatorId c = creator)
    /\ processOrderItems ord campaignId creator (Order.orderItems ord) [] [] w
       = (Ok result, w').
Proof.
  rewrite processOrderCommissions_run.
  destruct (order w !! orderId) as [ord|]; [|done]. cbn zeta.
  set (creatorId' :=
         if negb (truthy creatorId) && truthy campaignId
         then match campaign w !! default "" campaignId with
              | Some c => Some (Campaign.creatorId c)
              | None => creatorId
              end
         else creatorId).
  destruct (truthy creatorId') eqn:Htruthy; cbn [negb]; [|done].
  intros Hrun. exists ord, (default "" creatorId'). split; [done|].
  assert (Hsome : creatorId' = Some (default "" creatorId'))
    by (destruct creatorId'; [done|discriminate Htruthy]).
  split.
  { intros Hempty. rewrite Hsome, Hempty in Htruthy. discriminate Htruthy. }
  split; [|split; [|done]].
  - intros Ht. rewrite <- Hsome. unfold creatorId'. by rewrite Ht.
  - intros Hf. unfold creatorId' in Htruthy, Hsome |- *. rewrite Hf in *.
    cbn [negb andb] in *. destruct (truthy campaignId); [|congruence].
    destruct (campaign w !! default "" campaignId) as [c|]; [|congruence].
    by exists c.
Qed.

(** X12.  When [processOrderCommissions] succeeds, the order exists, there
    is one calculation per item of the order, in the order of the items,
    and four ledger entries per item, whose types and amounts are those of
    the calculations; every returned entry is a new entry of the ledger
    (its id was free before the call), RESERVED, and carries the id, the
    organization and the currency of the order; the COMMISSION entries
    carry the creator id that was given or, without one, the creator of the
    campaign; the ledger has grown by exactly four entries per item. *)
Theorem processOrderCommissions_success
    (w : World) (orderId : string) (campaignId creatorId : option string)
    (calculations : list CommissionCalculation.t)
    (ledgerEntries : list LedgerRow) (w' : World) :
  processOrderCommissions orderId campaignId creatorId w
  = (Ok (calculations, ledgerEntries), w') ->
  exists ord,
    order w !! orderId = Some ord
    /\ CommissionCalculation.orderItemId <$> calculations
       = OrderItemRow.id <$> Order.orderItems ord
    /\ typeAndAmount <$> ledgerEntries = calculations ≫= splitAmounts
    /\ length ledgerEntries = 4 * length (Order.orderItems ord)
    /\ size (ledgerEntry w')
       = 4 * length (Order.orderItems ord) + size (ledgerEntry w)
    /\ exists creator,
         creator <> ""
         /\ (truthy creatorId = true -> creatorId = Some creator)
         /\ (truthy creatorId = false ->
             exists c, campaign w !! default "" campaignId = Some c
                       /\ Campaign.creatorId c = creator)
         /\ Forall (newSplitEntry ord creator (ledgerEntry w)
                      (ledgerEntry w')) ledgerEntries.
Proof.
  intros Hrun.
  apply processOrderCommissions_inv in Hrun
    as (ord & creator & Hord & Hne & Hgiven & Hcampaign & Hrun).
  pose proof (processOrderItems_outcome ord campaignId creator
                (Order.orderItems ord) [] [] w) as (_ & _ & Hres).
  rewrite Hrun in Hres. cbn [fst snd] in Hres.
  destruct Hres as (cs & es & -> & -> & Hids & Hamounts & Hsize & Hnew).
  cbn [app]. exists ord. split; [done|]. split; [done|]. split; [done|]. split.
  { rewrite <- (length_fmap typeAndAmount), Hamounts, length_splitAmounts.
    rewrite <- (length_fmap OrderItemRow.id), <- Hids, length_fmap. done. }
  split; [done|]. by exists creator.
Qed.

Lemma processOrderCommissions_success_witness :
  exists calculations ledgerEntries w',
    processOrderCommissions "order1" (Some "campaign1") None
      Scenarios.worldOrderDefault = (Ok (calculations, ledgerEntries), w')
    /\ CommissionCalculation.orderItemId <$> calculations = ["item1"; "item2"]
    /\ length ledgerEntries = 8
    /\ size (ledgerEntry w') = 8.
Proof.
  destruct (processOrderCommissions "order1" (Some "campaign1") None
              Scenarios.worldOrderDefault) as [[[cs es]|e] w'] eqn:Hrun;
    [|vm_compute in Hrun; discriminate Hrun].
  destruct (processOrderCommissions_success _ _ _ _ _ _ _ Hrun)
    as (ord & Hord & Hids & _ & Hlen & Hsize & _).
  injection Hord as <-.
  exists cs, es, w'. split; [reflexivity|]. split; [exact Hids|].
  split; [exact Hlen|exact Hsize].
Defined.

(** X13.  [processOrderCommissions] checks before it processes.  An order
    id without an order gives [ORDER_NOT_FOUND].  An order without a usable
    creator (no creator id or an empty one, and no campaign id, or a
    campaign id without a campaign, or a campaign with an empty creator id)
    gives the validation error [CREATOR_ID_REQUIRED].  In both cases
    nothing is read from the clock and nothing is written, also when the
    order has items and rules that would resolve. *)
Theorem processOrderCommissions_rejects
    (w : World) (orderId : string) (campaignId creatorId : option string) :
  (order w !! orderId = None ->
   processOrderCommissions orderId campaignId creatorId w
   = (Err (AppError NotFoundError "ORDER_NOT_FOUND"), w))
  /\ (is_Some (order w !! orderId) ->
      truthy creatorId = false ->
      truthy campaignId = false
      \/ campaign w !! default "" campaignId = None
      \/ (exists c, campaign w !! default "" campaignId = Some c
                    /\ Campaign.creatorId c = "") ->
      processOrderCommissions orderId campaignId creatorId w
      = (Err (AppError ValidationError "CREATOR_ID_REQUIRED"), w)).
Proof.
  rewrite processOrderCommissions_run. split.
  - by intros ->.
  - intros [ord ->] Hcreator Hcampaign. cbn zeta. rewrite Hcreator.
    cbn [negb andb].
    destruct Hcampaign as [-> | [Hnone | (c & Hc & Hempty)]].
    + by rewrite Hcreator.
    + rewrite Hnone. destruct (truthy campaignId); by rewrite Hcreator.
    + rewrite Hc, Hempty. destruct (truthy campaignId); [done|].
      by rewrite Hcreator.
Qed.

Lemma processOrderCommissions_rejects_witness :
  processOrderCommissions "order9" None (Some "creator1")
    Scenarios.worldOrderDefault
  = (Err (AppError NotFoundError "ORDER_NOT_FOUND"), Scenarios.worldOrderDefault)
  /\ processOrderCommissions "order1" (Some "campaign9") (Some "")
       Scenarios.worldOrderDefault
     = (Err (AppError ValidationError "CREATOR_ID_REQUIRED"),
        Scenarios.worldOrderDefault).
Proof.
  split.
  - by apply processOrderCommissions_rejects.
  - apply processOrderCommissions_rejects; [by eexists|done|]. right. by left.
Defined.

Lemma processOrderItems_app ord campaignId creatorId items1 items2 :
  forall calculations ledgerEntries w,
    processOrderItems ord campaignId creatorId (items1 ++ items2)
      calculations ledgerEntries w
    = match processOrderItems ord campaignId creatorId items1
              calculations ledgerEntries w with
      | (Ok (calculations', ledgerEntries'), w1) =>
          processOrderItems ord campaignId creatorId items2
            calculations' ledgerEntries' w1
      | (Err e, w1) => (Err e, w1)
      end.
Proof.
  induction items1 as [|item items1 IH]; intros calculations ledgerEntries w.
  - done.
  - cbn [app]. rewrite !processOrderItems_cons.
    destruct (calculateCommission _ _ _ w) as [[calculation|e] w1]; [|done].
    destruct (createLedgerEntries _ _ _ w1) as [[rows|e] w2]; [|done].
    apply IH.
Qed.

(** X14.  [processOrderCommissions] is not all or nothing over the order.
    When the items before an item are processed and the item has no
    matching rule, the call fails with [COMMISSION_RULE_NOT_FOUND], the
    items after it are not processed, and the four entries of every item
    before it stay in the ledger. *)
Theorem processOrderCommissions_partial_commit
    (w w1 : World) (orderId : string) (campaignId creatorId : option string)
    (ord : Order.t) (items1 items2 : list OrderItemRow.t)
    (item : OrderItemRow.t) (calculations : list CommissionCalculation.t)
    (ledgerEntries : list LedgerRow) :
  order w !! orderId = Some ord ->
  Order.orderItems ord = items1 ++ item :: items2 ->
  truthy creatorId = true ->
  processOrderItems ord campaignId (default "" creatorId) items1 [] [] w
  = (Ok (calculations, ledgerEntries), w1) ->
  noRuleMatches w1 (OrderItem.withOrder item ord) campaignId ->
  exists w2,
    processOrderCommissions orderId campaignId creatorId w
    = (Err (AppError NotFoundError "COMMISSION_RULE_NOT_FOUND"), w2)
    /\ ledgerEntry w2 = ledgerEntry w1
    /\ size (ledgerEntry w2) = 4 * length items1 + size (ledgerEntry w)
    /\ length ledgerEntries = 4 * length items1
    /\ Forall (fun r : LedgerRow => ledgerEntry w2 !! r.1 = Some r.2
                                    /\ ledgerEntry w !! r.1 = None)
         ledgerEntries.
Proof.
  intros Hord Hitems Hcreator Hprefix Hno.
  rewrite processOrderCommissions_run, Hord. cbn zeta.
  rewrite Hcreator. cbn [negb andb]. rewrite Hcreator. cbn [negb].
  rewrite Hitems, processOrderItems_app, Hprefix, processOrderItems_cons.
  rewrite (calculateCommission_failed _ _ _ _ _ _
             (resolve_none _ _ _ Hno)).
  eexists. split; [reflexivity|].
  pose proof (processOrderItems_outcome ord campaignId (default "" creatorId)
                items1 [] [] w) as (_ & _ & Hres).
  rewrite Hprefix in Hres. cbn [fst snd app] in Hres.
  destruct Hres as (cs & es & -> & -> & Hids & Hamounts & Hsize & Hnew).
  rewrite iter_tick_ledgerEntry. split; [done|]. split; [done|]. split.
  { rewrite <- (length_fmap typeAndAmount), Hamounts, length_splitAmounts.
    rewrite <- (length_fmap OrderItemRow.id), <- Hids, length_fmap. done. }
  eapply Forall_impl; [exact Hnew|]. by intros r (? & ? & _).
Qed.

Lemma processOrderCommissions_partial_commit_witness :
  exists w2,
    processOrderCommissions "order1" None (Some "creator1")
      Scenarios.worldOrderSkuOnly
    = (Err (AppError NotFoundError "COMMISSION_RULE_NOT_FOUND"), w2)
    /\ size (ledgerEntry w2) = 4.
Proof.
  pose (run := processOrderItems Scenarios.orderOfTwo None "creator1"
                 [Scenarios.itemRow1] [] [] Scenarios.worldOrderSkuOnly).
  assert (Hprefix : exists cs es w1, run = (Ok (cs, es), w1)
                                     /\ commissionRule w1 = [Examples.skuRule1]).
  { vm_compute. eexists. eexists. eexists. split; reflexivity. }
  destruct Hprefix as (cs & es & w1 & Hprefix & Hrules).
  destruct (processOrderCommissions_partial_commit
              Scenarios.worldOrderSkuOnly w1 "order1" None (Some "creator1")
              Scenarios.orderOfTwo [Scenarios.itemRow1] []
              Scenarios.itemRow2 cs es eq_refl eq_refl eq_refl Hprefix)
    as (w2 & Hrun & _ & Hsize & _).
  - intros k tier r Hk Hr. rewrite Hrules in Hr.
    apply list_elem_of_singleton in Hr as ->.
    destruct k as [|[|[|k]]]; try discriminate Hk;
      injection Hk as <-; cbn; by rewrite ?andb_false_r.
  - exists w2. split; [exact Hrun|exact Hsize].
Defined.

(* ------------------------------------------------------------------ *)
(** ** Bounds of a calculation *)

Lemma calculateCommission_inv orderItem pct campaignId w calc w' :
  calculateCommission orderItem pct campaignId w = (Ok calc, w') ->
  exists rule,
    rule ∈ commissionRule w
    /\ calc = commissionSplit orderItem rule (default 0.029%Q pct).
Proof.
  intros Hrun.
  pose proof (calculateCommission_outcome orderItem pct campaignId w)
    as (_ & _ & Hres).
  rewrite Hrun in Hres. cbn [fst] in Hres.
  destruct Hres as [(rule & Hin & [= ->])|[=]]. by exists rule.
Qed.

Lemma cappedCommission_le_max rule subtotal maxCommission :
  CommissionRule.maxCommission rule = Some maxCommission ->
  (cappedCommission rule subtotal <= maxCommission)%Q.
Proof.
  intros Hmax. unfold cappedCommission. rewrite Hmax.
  match goal with
  | |- context [Decimal.greaterThan ?a ?b] =>
      destruct (Decimal.greaterThan a b) eqn:Hgt
  end.
  - lra.
  - by apply greaterThan_false in Hgt.
Qed.

Lemma cappedCommission_nonneg rule subtotal :
  (0 <= subtotal)%Q ->
  nonNegativeRule rule ->
  (0 <= cappedCommission rule subtotal)%Q.
Proof.
  intros Hs (_ & Hcp & Hmax). unfold cappedCommission, Decimal.div, Decimal.mul.
  assert (Hbase : (0 <= subtotal * CommissionRule.creatorPercent rule / 100)%Q).
  { apply Qle_shift_div_l; [reflexivity|]. rewrite Qmult_0_l.
    by apply Qmult_le_0_compat. }
  set (base := (subtotal * CommissionRule.creatorPercent rule / 100)%Q) in *.
  destruct (CommissionRule.minCommission rule) as [minCommission|];
    destruct (CommissionRule.maxCommission rule) as [maxCommission|];
    try specialize (Hmax _ eq_refl);
    case_all_lessThan;
    repeat match goal with
           | |- context [Decimal.greaterThan ?a ?b] =>
               let E := fresh "Hgt" in
               destruct (Decimal.greaterThan a b) eqn:E;
               [apply greaterThan_true in E | apply greaterThan_false in E]
           end; lra.
Qed.

(** X15.  What every calculation [calculateCommission] returns satisfies,
    whatever the rule and the amounts: the seller take is not negative and
    a rule of the table was applied.  As long as no operation of the
    calculation rounds, the four amounts never add up to less than the
    subtotal; the adjustment for a negative seller take never raises the
    commission, which is at most the capped commission or 0; and when the
    rule has a maximum commission that is not negative, the returned
    commission does not exceed it. *)
Theorem calculateCommission_bounds
    (w w' : World) (orderItem : OrderItem.t) (paymentFeePercent : option Q)
    (campaignId : option string) (calc : CommissionCalculation.t) :
  calculateCommission orderItem paymentFeePercent campaignId w = (Ok calc, w') ->
  (0 <= CommissionCalculation.sellerTake calc)%Q
  /\ exists rule,
       rule ∈ commissionRule w
       /\ CommissionCalculation.appliedRuleId calc = CommissionRule.id rule
       /\ CommissionCalculation.appliedRuleType calc
          = CommissionRuleType_value (CommissionRule.type rule)
       /\ (exactSplit orderItem rule (default 0.029%Q paymentFeePercent) ->
           (CommissionCalculation.subtotal calc <= distributed calc)%Q
           /\ (CommissionCalculation.creatorCommission calc
               <= Qmax 0 (cappedCommission rule (OrderItem.subtotal orderItem)))%Q
           /\ (forall maxCommission,
                 CommissionRule.maxCommission rule = Some maxCommission ->
                 (0 <= maxCommission)%Q ->
                 (CommissionCalculation.creatorCommission calc
                  <= maxCommission)%Q)).
Proof.
  intros Hrun.
  apply calculateCommission_inv in Hrun as (rule & Hin & ->).
  set (pct := default 0.029%Q paymentFeePercent).
  pose proof (naive_sum orderItem rule pct) as Hsum.
  assert (Hcommission :
            (CommissionCalculation.creatorCommission
               (commissionSplit orderItem rule pct)
             <= Qmax 0 (cappedCommission rule (OrderItem.subtotal orderItem)))%Q).
  { rewrite split_creatorCommission.
    pose proof (Q.le_max_l 0 (cappedCommission rule (OrderItem.subtotal orderItem))).
    pose proof (Q.le_max_r 0 (cappedCommission rule (OrderItem.subtotal orderItem))).
    unfold naiveSellerTake, Decimal.minus in *.
    case_all_lessThan; lra. }
  split.
  - rewrite split_sellerTake. case_all_lessThan; lra.
  - exists rule. split; [done|]. split; [done|]. split; [done|].
    intros _. split; [|split; [done|]].
    + unfold distributed. rewrite split_creatorCommission, split_sellerTake.
      destruct (split_fees orderItem rule pct) as (-> & -> & ->).
      unfold naiveSellerTake, Decimal.minus in *.
      case_all_lessThan; lra.
    + intros maxCommission Hmax Hpos.
      apply (Qle_trans _ _ _ Hcommission).
      apply Q.max_lub; [done|]. by apply cappedCommission_le_max.
Qed.

Lemma calculateCommission_bounds_witness :
  exists calc w',
    calculateCommission (Examples.item 10) None None
      Scenarios.worldMaxCommission = (Ok calc, w')
    /\ (0 <= CommissionCalculation.sellerTake calc)%Q
    /\ (CommissionCalculation.creatorCommission calc <= 3)%Q.
Proof.
  assert (Hrun : exists calc w',
             calculateCommission (Examples.item 10) None None
               Scenarios.worldMaxCommission = (Ok calc, w')).
  { eexists. eexists. vm_compute. reflexivity. }
  destruct Hrun as (calc & w' & Hrun). exists calc, w'.
  destruct (calculateCommission_bounds _ _ _ _ _ _ Hrun)
    as (Htake & rule & Hin & _ & _ & Hexact).
  split; [exact Hrun|]. split; [exact Htake|].
  apply list_elem_of_singleton in Hin as ->.
  destruct Hexact as (_ & _ & Hmax).
  - apply (exactSplit_within 1000 500 6000 290 6000000).
    + exists 1000%Z. split; [lia|reflexivity].
    + exists 500%Z. split; [lia|reflexivity].
    + exists 6000%Z. split; [lia|reflexivity].
    + exists 290%Z. split; [lia|reflexivity].
    + intros m Hm. discriminate Hm.
    + intros m [= <-]. exists 3000000%Z. split; [lia|reflexivity].
    + lia.
    + change (Z.of_nat Decimal.precision) with 20%Z. lia.
  - by apply Hmax.
Defined.

(** X16.  With amounts that are not negative going in, nothing negative
    comes out.  When the subtotal, the payment fee percentage and the
    percentages and maximum commissions of the rules of the table are not
    negative, each of the four returned amounts is not negative, and
    neither the commission nor the seller take exceeds the subtotal. *)
Theorem calculateCommission_nonnegative
    (w w' : World) (orderItem : OrderItem.t) (paymentFeePercent : option Q)
    (campaignId : option string) (calc : CommissionCalculation.t) :
  (0 <= OrderItem.subtotal orderItem)%Q ->
  (0 <= default 0.029%Q paymentFeePercent)%Q ->
  Forall nonNegativeRule (commissionRule w) ->
  calculateCommission orderItem paymentFeePercent campaignId w = (Ok calc, w') ->
  (0 <= CommissionCalculation.platformFee calc)%Q
  /\ (0 <= CommissionCalculation.paymentFee calc)%Q
  /\ (0 <= CommissionCalculation.creatorCommission calc
      <= OrderItem.subtotal orderItem)%Q
  /\ (0 <= CommissionCalculation.sellerTake calc
      <= OrderItem.subtotal orderItem)%Q.
Proof.
  intros Hs Hpct Hrules Hrun.
  apply calculateCommission_inv in Hrun as (rule & Hin & ->).
  set (pct := default 0.029%Q paymentFeePercent) in *.
  rewrite Forall_forall in Hrules. specialize (Hrules _ Hin).
  pose proof (cappedCommission_nonneg rule _ Hs Hrules) as Hcapped.
  destruct Hrules as (Hpf & _ & _).
  rewrite split_creatorCommission, split_sellerTake.
  destruct (split_fees orderItem rule pct) as (_ & -> & ->).
  set (s := OrderItem.subtotal orderItem) in *.
  assert (Hfee : (0 <= s * CommissionRule.platformFeePercent rule / 100)%Q).
  { apply Qle_shift_div_l; [reflexivity|]. rewrite Qmult_0_l.
    by apply Qmult_le_0_compat. }
  assert (Hpay : (0 <= s * pct)%Q) by by apply Qmult_le_0_compat.
  unfold naiveSellerTake, Decimal.minus.
  set (pf := (s * CommissionRule.platformFeePercent rule / 100)%Q) in *.
  set (pay := (s * pct)%Q) in *.
  set (capped := cappedCommission rule s) in *.
  split; [done|]. split; [done|].
  case_all_lessThan; lra.
Qed.

Lemma calculateCommission_nonnegative_witness :
  exists calc w',
    calculateCommission (Examples.item 10) None None Examples.worldScenarioB
    = (Ok calc, w')
    /\ (0 <= CommissionCalculation.creatorCommission calc <= 10)%Q
    /\ (0 <= CommissionCalculation.sellerTake calc <= 10)%Q.
Proof.
  assert (Hrun : exists calc w',
             calculateCommission (Examples.item 10) None None
               Examples.worldScenarioB = (Ok calc, w')).
  { eexists. eexists. vm_compute. reflexivity. }
  destruct Hrun as (calc & w' & Hrun). exists calc, w'.
  split; [exact Hrun|].
  assert (Hrules : Forall nonNegativeRule (commissionRule Examples.worldScenarioB)).
  { apply Forall_cons. split; [|apply Forall_nil_2].
    split; [done|]. split; [done|]. intros m Hm. discriminate Hm. }
  destruct (calculateCommission_nonnegative _ _ _ _ _ _
              (ltac:(done) : (0 <= OrderItem.subtotal (Examples.item 10))%Q)
              (ltac:(done) : (0 <= default 0.029%Q None)%Q)
              Hrules Hrun) as (_ & _ & Hc & Ht).
  split; [exact Hc|exact Ht].
Defined.

(* ------------------------------------------------------------------ *)
(** ** From the order to the payout *)

Lemma pending_commissions_elem convert creatorId currency w result w'
    (r : LedgerRow) :
  getPendingCreatorCommissions convert creatorId currency w = (Ok result, w') ->
  r ∈ PendingCommissions.commissions result
  <-> ledgerEntry w !! r.1 = Some r.2
      /\ pendingWhere creatorId currency r.2 = true.
Proof.
  intros Hrun. rewrite (getPendingCreatorCommissions_found _ _ _ _ _ _ Hrun).
  destruct (findMany_rows (pendingWhere creatorId currency) (ledgerEntry w))
    as [_ Hin].
  fold (foundRows (pendingWhere creatorId currency) w) in Hin.
  by rewrite merge_sort_Permutation, Hin.
Qed.

(** X17.  The commission of an order reaches the creator's pending
    commissions by being cleared, and not before.  After a successful
    [processOrderCommissions] for an order stored under its own id, every
    COMMISSION entry it returned is absent from the pending commissions of
    the creator, because it is RESERVED; once [clearLedgerEntries] has run
    for the order, the entry is among the pending commissions of the
    creator, CLEARED and with the amount it was created with, whether no
    currency or the currency of the order is asked for. *)
Theorem cleared_commissions_become_pending
    (convert : Q -> string -> string -> M Q) (w w1 w2 : World)
    (orderId : string) (campaignId creatorId currency : option string)
    (ord : Order.t) (calculations : list CommissionCalculation.t)
    (ledgerEntries cleared : list LedgerRow) :
  order w !! orderId = Some ord ->
  Order.id ord = orderId ->
  processOrderCommissions orderId campaignId creatorId w
  = (Ok (calculations, ledgerEntries), w1) ->
  clearLedgerEntries orderId w1 = (Ok cleared, w2) ->
  (truthy currency = true -> default "" currency = Order.currency ord) ->
  exists creator,
    (truthy creatorId = true -> creatorId = Some creator)
    /\ (truthy creatorId = false ->
        exists c, campaign w !! default "" campaignId = Some c
                  /\ Campaign.creatorId c = creator)
    /\ forall r : LedgerRow,
         r ∈ ledgerEntries ->
         LedgerEntry.entryType r.2 = COMMISSION ->
         (forall result w',
             getPendingCreatorCommissions convert creator currency w1
             = (Ok result, w') ->
             r.1 ∉ (PendingCommissions.commissions result).*1)
         /\ (forall result w',
               getPendingCreatorCommissions convert creator currency w2
               = (Ok result, w') ->
               exists e,
                 (r.1, e) ∈ PendingCommissions.commissions result
                 /\ LedgerEntry.status e = CLEARED
                 /\ LedgerEntry.amount e = LedgerEntry.amount r.2
                 /\ LedgerEntry.orderItemId e = LedgerEntry.orderItemId r.2).
Proof.
  intros Hord Hid Hrun Hclear Hcurrency.
  apply processOrderCommissions_inv in Hrun
    as (ord' & creator & Hord' & _ & Hgiven & Hcampaign & Hrun).
  rewrite Hord in Hord'. injection Hord' as <-.
  pose proof (processOrderItems_outcome ord campaignId creator
                (Order.orderItems ord) [] [] w) as (_ & _ & Hres).
  rewrite Hrun in Hres. cbn [fst snd] in Hres.
  destruct Hres as (cs & es & _ & -> & _ & _ & _ & Hnew). cbn [app].
  exists creator. split; [done|]. split; [done|].
  intros r Hr Htype. rewrite Forall_forall in Hnew.
  destruct (Hnew r Hr) as (Hl & _ & Hst & Ho & _ & Hcur & Hmeta).
  specialize (Hmeta Htype). split.
  - intros result w' Hpending Hin.
    apply list_elem_of_fmap in Hin as ([id e] & Heq & Hin). cbn in Heq. subst id.
    apply (pending_commissions_elem _ _ _ _ _ _ _ Hpending) in Hin
      as [Hl' Hw]. cbn [fst snd] in *.
    rewrite Hl in Hl'. injection Hl' as <-.
    apply pendingWhere_true in Hw as (_ & Hcleared & _).
    rewrite Hst in Hcleared. discriminate Hcleared.
  - intros result w' Hpending.
    rewrite clearLedgerEntries_run in Hclear. cbn zeta in Hclear.
    injection Hclear as _ <-.
    pose proof (lookup_updated (reservedWhere orderId)
                  (fun _ now => clearedData now) w1 r.1) as Hlook.
    cbn zeta in Hlook. rewrite Hl in Hlook.
    assert (Hres : reservedWhere orderId r.2 = true)
      by (apply reservedWhere_true; split; congruence).
    rewrite Hres in Hlook. destruct Hlook as (k & _ & Hk).
    exists (LedgerEntryUpdateInput.apply
              (clearedData (clock w1 (ticks w1 + k))) r.2).
    split; [|done].
    apply (pending_commissions_elem _ _ _ _ _ _ _ Hpending). cbn [fst snd].
    split; [exact Hk|].
    apply pendingWhere_true. cbn. split; [done|]. split; [done|].
    split; [done|]. intros Ht. rewrite Hcur. symmetry. by apply Hcurrency.
Qed.

Lemma cleared_commissions_become_pending_witness :
  exists calculations ledgerEntries w1 cleared w2 result w3,
    processOrderCommissions "order1" (Some "campaign1") None
      Scenarios.worldOrderDefault = (Ok (calculations, ledgerEntries), w1)
    /\ clearLedgerEntries "order1" w1 = (Ok cleared, w2)
    /\ getPendingCreatorCommissions (convertAtRates Scenarios.rates)
         "creator1" None w2 = (Ok result, w3)
    /\ forall r : LedgerRow,
         r ∈ ledgerEntries ->
         LedgerEntry.entryType r.2 = COMMISSION ->
         exists e,
           (r.1, e) ∈ PendingCommissions.commissions result
           /\ LedgerEntry.amount e = LedgerEntry.amount r.2.
Proof.
  destruct (processOrderCommissions "order1" (Some "campaign1") None
              Scenarios.worldOrderDefault) as [[[cs es]|e] w1] eqn:Hrun;
    [|vm_compute in Hrun; discriminate Hrun].
  destruct (clearLedgerEntries "order1" w1) as [[cleared|e] w2] eqn:Hclear;
    [|rewrite clearLedgerEntries_run in Hclear; discriminate Hclear].
  destruct (getPendingCreatorCommissions (convertAtRates Scenarios.rates)
              "creator1" None w2) as [[result|e] w3] eqn:Hpending.
  2:{ exfalso. vm_compute in Hrun. injection Hrun as _ _ <-.
      vm_compute in Hclear. injection Hclear as _ <-.
      vm_compute in Hpending. discriminate Hpending. }
  exists cs, es, w1, cleared, w2, result, w3.
  split; [reflexivity|]. split; [exact Hclear|]. split; [exact Hpending|].
  destruct (cleared_commissions_become_pending
              (convertAtRates Scenarios.rates) Scenarios.worldOrderDefault
              w1 w2 "order1" (Some "campaign1") None None Scenarios.orderOfTwo
              cs es cleared eq_refl eq_refl Hrun Hclear
              (fun H : truthy None = true => False_ind _ (diff_false_true H)))
    as (creator & _ & Hcreator & Hall).
  destruct (Hcreator eq_refl) as (c & Hc & <-).
  injection Hc as <-.
  intros r Hr Htype.
  destruct (Hall r Hr Htype) as [_ Hafter].
  destruct (Hafter result w3 Hpending) as (e & Hin & _ & Hamount & _).
  exists e. split; [exact Hin|exact Hamount].
Defined.

(* ------------------------------------------------------------------ *)
(** ** Reconciliation across the status operations *)

Lemma select_then_update_sameEntries (where_ : LedgerEntry.t -> bool)
    (mk : LedgerRow -> Z -> LedgerEntryUpdateInput.t) (w : World) :
  (forall r now, sameWriteOnceColumns r.2
                   (LedgerEntryUpdateInput.apply (mk r now) r.2)) ->
  sameEntries (ledgerEntry w)
    (list_to_map (updatedRows mk (foundRows where_ w) w) ∪ ledgerEntry w).
Proof.
  intros Hmk id. pose proof (lookup_updated where_ mk w id) as Hl.
  cbn zeta in Hl. destruct (ledgerEntry w !! id) as [e|].
  - destruct (where_ e).
    + destruct Hl as (k & _ & ->). constructor. apply (Hmk (id, e)).
    + rewrite Hl. by constructor.
  - rewrite Hl. constructor.
Qed.

Lemma clearLedgerEntries_sameEntries orderId w :
  sameEntries (ledgerEntry w) (ledgerEntry (clearLedgerEntries orderId w).2).
Proof.
  rewrite clearLedgerEntries_run. cbn.
  apply (select_then_update_sameEntries (reservedWhere orderId)
           (fun _ now => clearedData now)).
  intros. by apply apply_sameWriteOnceColumns.
Qed.

Lemma cancelLedgerEntries_sameEntries orderId reason w :
  sameEntries (ledgerEntry w)
    (ledgerEntry (cancelLedgerEntries orderId reason w).2).
Proof.
  rewrite cancelLedgerEntries_run. cbn.
  apply (select_then_update_sameEntries (notCancelledWhere orderId)
           (fun r now => cancelledData r.2 reason now)).
  intros. by apply apply_sameWriteOnceColumns.
Qed.

Lemma markCommissionsAsPaid_sameEntries commissionIds payoutId w :
  sameEntries (ledgerEntry w)
    (ledgerEntry (markCommissionsAsPaid commissionIds payoutId w).2).
Proof.
  rewrite markCommissionsAsPaid_run. cbn zeta.
  destruct (applyUpdates _ _) as [rows ledger'] eqn:Hrun.
  assert (Hrel : sameEntries (ledgerEntry w) ledger').
  { intros id. eapply (applyUpdates_related sameWriteOnceColumns); [|exact Hrun].
    intros u e0 Hu. apply elem_of_lookup_imap_1 in Hu as (k & i & -> & _).
    by apply apply_sameWriteOnceColumns. }
  destruct rows as [rows|]; cbn [snd ledgerEntry setLedger]; [done|].
  rewrite iter_tick_ledgerEntry. intros id.
  destruct (ledgerEntry w !! id); by constructor.
Qed.

Lemma amountsTotal_filter_Permutation (f : LedgerRow -> bool)
    (l1 l2 : list LedgerRow) :
  l1 ≡ₚ l2 ->
  (amountsTotal (List.filter f l1) == amountsTotal (List.filter f l2))%Q.
Proof.
  induction 1 as [|x l1 l2 _ IH|x y l|l1 l2 l3 _ IH1 _ IH2]; cbn.
  - reflexivity.
  - destruct (f x); cbn; [rewrite IH|]; done.
  - destruct (f x), (f y); cbn; lra.
  - by rewrite IH1.
Qed.

Lemma sameEntries_total (where_ : LedgerEntry.t -> bool)
    (ledger : gmap string LedgerEntry.t) :
  (forall e e', sameWriteOnceColumns e e' -> where_ e' = where_ e) ->
  forall ledger',
    sameEntries ledger ledger' ->
    (amountsTotal (List.filter (fun r : LedgerRow => where_ r.2)
                     (map_to_list ledger'))
     == amountsTotal (List.filter (fun r : LedgerRow => where_ r.2)
                        (map_to_list ledger)))%Q.
Proof.
  intros Hwhere.
  induction ledger as [|i x ledger Hi _ IH] using map_first_key_ind;
    intros ledger' Hsame.
  - assert (ledger' = ∅) as ->; [|reflexivity].
    apply map_empty. intros id. specialize (Hsame id).
    rewrite lookup_empty in Hsame. by inversion Hsame.
  - pose proof (Hsame i) as Hix. rewrite lookup_insert_eq in Hix.
    inversion Hix as [? x' Hxx' Heq1 Heq2|]; subst. symmetry in Heq2.
    assert (Hl' : ledger' = <[i := x']> (delete i ledger')).
    { by rewrite insert_delete_eq, insert_id. }
    assert (Hrest : sameEntries ledger (delete i ledger')).
    { intros id. destruct (decide (id = i)) as [->|Hne].
      - rewrite Hi, lookup_delete_eq. constructor.
      - specialize (Hsame id).
        by rewrite lookup_insert_ne, <- (lookup_delete_ne ledger' i id)
          in Hsame by done. }
    rewrite (amountsTotal_filter_Permutation _ _ _
               (map_to_list_insert ledger i x Hi)).
    rewrite Hl' at 1.
    rewrite (amountsTotal_filter_Permutation _ _ _
               (map_to_list_insert (delete i ledger') i x'
                  (lookup_delete_eq ledger' i))).
    cbn [List.filter snd]. rewrite (Hwhere x x' Hxx').
    pose proof (IH _ Hrest) as Htail.
    destruct Hxx' as (Hamount & _).
    destruct (where_ x); cbn [amountsTotal snd]; rewrite ?Hamount, Htail;
      reflexivity.
Qed.

Lemma sameEntries_dom (ledger ledger' : gmap string LedgerEntry.t) :
  sameEntries ledger ledger' -> dom ledger' = dom ledger.
Proof.
  intros Hsame. apply set_eq. intros id. rewrite !elem_of_dom.
  specialize (Hsame id). inversion Hsame; split; intros [? ?]; by eauto.
Qed.

Lemma reconcileCommissions_run organizationId startDate endDate w :
  exists result,
    reconcileCommissions organizationId startDate endDate w = (Ok result, w)
    /\ (Reconciliation.totalCommissions result
        == amountsTotal
             (foundRows (commissionsWhere organizationId startDate endDate) w))%Q.
Proof.
  unfold reconcileCommissions, try_catch, bind, ledgerEntry_findMany, ret.
  fold (foundRows (commissionsWhere organizationId startDate endDate) w).
  eexists. split; [reflexivity|]. apply sumAmounts_total.
Qed.

(** X18.  The status operations neither add nor remove a ledger entry, and
    they never change what a reconciliation counts: after
    [clearLedgerEntries], [cancelLedgerEntries] or [markCommissionsAsPaid],
    whether it succeeded or not, [reconcileCommissions] reports the same
    [totalCommissions] as before for every organization and date range. *)
Theorem status_operations_keep_totalCommissions
    (w w1 : World) (organizationId : string) (startDate endDate : Z) :
  (exists orderId, w1 = (clearLedgerEntries orderId w).2)
  \/ (exists orderId reason, w1 = (cancelLedgerEntries orderId reason w).2)
  \/ (exists commissionIds payoutId,
         w1 = (markCommissionsAsPaid commissionIds payoutId w).2) ->
  dom (ledgerEntry w1) = dom (ledgerEntry w)
  /\ exists result result1,
       reconcileCommissions organizationId startDate endDate w = (Ok result, w)
       /\ reconcileCommissions organizationId startDate endDate w1
          = (Ok result1, w1)
       /\ (Reconciliation.totalCommissions result1
           == Reconciliation.totalCommissions result)%Q.
Proof.
  intros Hop.
  assert (Hsame : sameEntries (ledgerEntry w) (ledgerEntry w1)).
  { destruct Hop as [(orderId & ->)|[(orderId & reason & ->)|(ids & payoutId & ->)]].
    - apply clearLedgerEntries_sameEntries.
    - apply cancelLedgerEntries_sameEntries.
    - apply markCommissionsAsPaid_sameEntries. }
  split; [by apply sameEntries_dom|].
  destruct (reconcileCommissions_run organizationId startDate endDate w)
    as (result & Hrun & Htotal).
  destruct (reconcileCommissions_run organizationId startDate endDate w1)
    as (result1 & Hrun1 & Htotal1).
  exists result, result1. split; [done|]. split; [done|].
  rewrite Htotal, Htotal1. unfold foundRows.
  apply (sameEntries_total
           (commissionsWhere organizationId startDate endDate)).
  - intros e e' (_ & _ & Horg & _ & _ & Htype & _ & Hcreated).
    unfold commissionsWhere. by rewrite Horg, Htype, Hcreated.
  - exact Hsame.
Qed.

Lemma status_operations_keep_totalCommissions_witness :
  exists result result1,
    reconcileCommissions "org1" 0 100 Examples.worldLedger2
    = (Ok result, Examples.worldLedger2)
    /\ reconcileCommissions "org1" 0 100
         (cancelLedgerEntries "order1" "refund" Examples.worldLedger2).2
       = (Ok result1,
          (cancelLedgerEntries "order1" "refund" Examples.worldLedger2).2)
    /\ (Reconciliation.totalCommissions result1
        == Reconciliation.totalCommissions result)%Q.
Proof.
  destruct (status_operations_keep_totalCommissions Examples.worldLedger2
              (cancelLedgerEntries "order1" "refund" Examples.worldLedger2).2
              "org1" 0 100) as (_ & result & result1 & H).
  - right. left. by exists "order1", "refund".
  - by exists result, result1.
Defined.

(* ================================================================== *)
(** * Errors and the error middleware *)

Lemma orElse_nonempty (a : option string) (b : string) :
  b <> "" -> orElse a b <> "".
Proof.
  intros Hb. unfold orElse, truthy. destruct a as [v|]; [|done].
  case_bool_decide; cbn; done.
Qed.

Lemma newError_errorCode c message errorCode details :
  exists code,
    ErrorObject.errorCode (newError c message errorCode details) = Some code
    /\ code <> ""
    /\ (truthy errorCode = true -> errorCode = Some code).
Proof.
  eexists. split; [reflexivity|]. unfold truthy.
  destruct errorCode as [v|]; cbn.
  - case_bool_decide; cbn; [|done]. split; [by destruct c|done].
  - split; [by destruct c|done].
Qed.

(** X19.  Every error built by one of the ten error classes, whatever the
    arguments of the constructor, has an error code that is not empty (the
    code that was given, or the code of the class when none or an empty one
    was given), a status between 400 and 503, and is operational exactly
    when its status is below 500; its message is empty only when an empty
    message was given. *)
Theorem error_classes_invariant
    (c : ErrorClass) (message errorCode : option string) (details : Json) :
  let e := newError c message errorCode details in
  (exists code,
      ErrorObject.errorCode e = Some code
      /\ code <> ""
      /\ (truthy errorCode = true -> errorCode = Some code))
  /\ (400 <= ErrorObject.statusCode e <= 503)%Z
  /\ (ErrorObject.isOperational e = true
      <-> (ErrorObject.statusCode e < 500)%Z)
  /\ (ErrorObject.message e = "" -> message = Some "").
Proof.
  intros e. split; [apply newError_errorCode|].
  split; [destruct c; cbn; lia|].
  split; [destruct c; cbn; split; (done || lia)|].
  subst e. destruct message as [m|]; cbn; [by intros ->|by destruct c].
Qed.

(** X20.  In production the response of [errorHandler] never carries the
    stack, and it carries details only for a validation error: an instance
    of [ValidationError], a schema validation error, or a database error
    with one of the codes P2003, P2000 and P2004.  In every environment the
    status of the response is the status in its body, the error is logged
    at the error level exactly when the status is 500 or more, the body
    names the generated error id, and a request id is echoed exactly when
    the header is set and not empty. *)
Theorem errorHandler_response
    (nodeEnv : option string) (errorId : string) (err : Thrown.t)
    (requestId : option string) :
  let sent := errorHandler nodeEnv errorId err requestId in
  let body := Handled.json sent in
  (nodeEnv = Some "production" ->
   ErrorResponse.stack body = None
   /\ (ErrorResponse.details body <> JUndefined ->
       (exists e, Thrown.kind err = Thrown.OfAppError e
                  /\ ErrorObject.cls e = Some ValidationError)
       \/ (exists issues m, Thrown.kind err = Thrown.OfZodError issues m)
       \/ (exists code target m,
              Thrown.kind err
              = Thrown.OfPrismaClientKnownRequestError code target m
              /\ code ∈ ["P2003"; "P2000"; "P2004"])))
  /\ Handled.status sent = ErrorResponse.statusCode body
  /\ (Handled.logLevel sent = LogError <-> (500 <= Handled.status sent)%Z)
  /\ ErrorResponse.errorId body = errorId
  /\ ErrorResponse.status body = "error"
  /\ (forall id, ErrorResponse.requestId body = Some id
                 <-> requestId = Some id /\ id <> "").
Proof.
  intros sent body.
  split; [|split; [reflexivity|split; [|split; [reflexivity|split; [reflexivity|]]]]].
  - intros ->. subst body sent. unfold errorHandler.
    rewrite (bool_decide_eq_true_2 (Some "production" = Some "production"))
      by done.
    cbn. split; [done|].
    destruct err as [[e|code target m|issues m|m] stack]; cbn.
    + case_bool_decide as Hcls; [|done]. intros _. left. by exists e.
    + unfold handlePrismaError.
      repeat (case_bool_decide; subst; cbn; try done);
        intros _; right; right; eexists; exists target, m;
        (split; [reflexivity|]); rewrite !elem_of_cons; tauto.
    + intros _. right. left. by exists issues, m.
    + done.
  - subst sent. cbn. destruct (500 <=? _)%Z eqn:Hle.
    + apply Z.leb_le in Hle. done.
    + apply Z.leb_gt in Hle. split; [done|lia].
  - intros id. subst body sent. cbn. unfold truthy.
    destruct requestId as [v|]; [|split; [done|by intros [? _]]].
    case_bool_decide as Hv; cbn.
    + subst v. split; [done|]. intros [[= <-] Hne]. done.
    + split; [intros [= <-]; done|by intros [? _]].
Qed.

Lemma errorHandler_response_witness :
  let sent :=
    errorHandler (Some "production") "id1"
      {| Thrown.kind :=
           Thrown.OfPrismaClientKnownRequestError "P2025" None "not found";
         Thrown.stack := Some "at update" |}
      (Some "req1") in
  Handled.status sent = 404%Z
  /\ ErrorResponse.stack (Handled.json sent) = None
  /\ ErrorResponse.requestId (Handled.json sent) = Some "req1".
Proof.
  cbv zeta.
  destruct (errorHandler_response (Some "production") "id1"
              {| Thrown.kind :=
                   Thrown.OfPrismaClientKnownRequestError "P2025" None
                     "not found";
                 Thrown.stack := Some "at update" |}
              (Some "req1")) as (Hprod & _ & _ & _ & _ & Hreq).
  split; [reflexivity|]. split; [apply Hprod; reflexivity|].
  apply Hreq. split; [reflexivity|discriminate].
Defined.

Lemma append_nonempty (a b : string) : a <> "" -> a +:+ b <> "".
Proof. destruct a; [done|]. intros _. cbn. discriminate. Qed.

(** X21.  An error that is not an [AppError] is answered with 400, 404, 409
    or 500, and always with a message and a code that are not empty.  A
    database error gives 409 exactly for the code P2002, 404 exactly for
    P2025, 400 exactly for P2003, P2000 and P2004, and 500 with the code
    [DATABASE_ERROR] for every other code; a schema validation error gives
    400 with the code [VALIDATION_ERROR] and one formatted issue per issue;
    any other error gives 500 with the code [INTERNAL_SERVER_ERROR] and its
    own message, or a fixed message when it has none.  [toAppError] treats
    the same errors differently: it turns every one of them into a 500. *)
Theorem errorHandler_foreign_errors
    (nodeEnv : option string) (errorId : string) (err : Thrown.t)
    (requestId : option string) :
  isAppError err = false ->
  let sent := errorHandler nodeEnv errorId err requestId in
  let body := Handled.json sent in
  Handled.status sent ∈ [400; 404; 409; 500]%Z
  /\ ErrorResponse.message body <> ""
  /\ (exists code, ErrorResponse.code body = Some code /\ code <> "")
  /\ (forall code target m,
        Thrown.kind err = Thrown.OfPrismaClientKnownRequestError code target m ->
        (Handled.status sent = 409%Z <-> code = "P2002")
        /\ (Handled.status sent = 404%Z <-> code = "P2025")
        /\ (Handled.status sent = 400%Z <-> code ∈ ["P2003"; "P2000"; "P2004"])
        /\ (Handled.status sent = 500%Z
            <-> ErrorResponse.code body = Some "DATABASE_ERROR"))
  /\ (forall issues m,
        Thrown.kind err = Thrown.OfZodError issues m ->
        Handled.status sent = 400%Z
        /\ ErrorResponse.code body = Some "VALIDATION_ERROR"
        /\ exists formatted,
             ErrorObject.details (handleZodError issues) = JArray formatted
             /\ length formatted = length issues)
  /\ (forall m,
        Thrown.kind err = Thrown.OfError m ->
        Handled.status sent = 500%Z
        /\ ErrorResponse.code body = Some "INTERNAL_SERVER_ERROR"
        /\ (m <> "" -> ErrorResponse.message body = m))
  /\ ErrorObject.statusCode (toAppError (Some err)) = 500%Z.
Proof.
  intros Happ sent body. subst body sent.
  destruct err as [[e|code target m|issues m|m] stack]; [discriminate Happ| | |].
  - unfold errorHandler. cbn [Thrown.kind Handled.status Handled.json
      ErrorResponse.message ErrorResponse.code].
    assert (Hcases :
              code = "P2002" \/ code = "P2025" \/ code = "P2003"
              \/ code = "P2000" \/ code = "P2004"
              \/ (code <> "P2002" /\ code <> "P2025" /\ code <> "P2003"
                  /\ code <> "P2000" /\ code <> "P2004")).
    { destruct (decide (code = "P2002")); [tauto|].
      destruct (decide (code = "P2025")); [tauto|].
      destruct (decide (code = "P2003")); [tauto|].
      destruct (decide (code = "P2000")); [tauto|].
      destruct (decide (code = "P2004")); tauto. }
    unfold handlePrismaError.
    destruct Hcases as [-> | [-> | [-> | [-> | [-> | (H1 & H2 & H3 & H4 & H5)]]]]];
      [cbn [bool_decide decide_rel]..|
       rewrite !bool_decide_eq_false_2 by done].
    all: repeat match goal with
           | |- context [bool_decide ?P] =>
               first [rewrite (bool_decide_eq_true_2 P) by done
                     |rewrite (bool_decide_eq_false_2 P) by done]
           end.
    all: cbn [newError newAppError ErrorObject.statusCode ErrorObject.message
                ErrorObject.errorCode statusCode default truthy negb].
    all: split; [rewrite !elem_of_cons; tauto|].
    all: split; [try done; apply append_nonempty; done|].
    all: split; [by eexists|].
    all: split;
      [intros code' target' m' [= <- _ _];
       rewrite !elem_of_cons, elem_of_nil;
       repeat split; intros; intuition (discriminate || congruence)|].
    all: split; [intros ? ? [=]|]. 
    all: split; [intros ? [=]|done].
  - cbn. split; [rewrite !elem_of_cons; tauto|]. split; [done|].
    split; [by eexists|]. split; [intros ? ? ? [=]|].
    split; [|split; [intros ? [=]|done]].
    intros issues' m' [= <- _]. split; [done|]. split; [done|].
    eexists. split; [reflexivity|]. apply length_fmap.
  - cbn. split; [rewrite !elem_of_cons; tauto|].
    split; [by apply orElse_nonempty|].
    split; [by eexists|]. split; [intros ? ? ? [=]|].
    split; [intros ? ? [=]|]. split; [|done].
    intros m' [= <-]. split; [done|]. split; [done|].
    intros Hm. unfold orElse, truthy. by rewrite bool_decide_eq_false_2.
Qed.

Lemma errorHandler_foreign_errors_witness :
  let sent :=
    errorHandler None "id1"
      {| Thrown.kind :=
           Thrown.OfPrismaClientKnownRequestError "P2002" (Some ["email"])
             "Unique constraint failed";
         Thrown.stack := None |}
      None in
  Handled.status sent = 409%Z
  /\ ErrorResponse.message (Handled.json sent)
     = "A record with this email already exists.".
Proof.
  cbv zeta.
  destruct (errorHandler_foreign_errors None "id1"
              {| Thrown.kind :=
                   Thrown.OfPrismaClientKnownRequestError "P2002"
                     (Some ["email"]) "Unique constraint failed";
                 Thrown.stack := None |}
              None eq_refl) as (_ & _ & _ & Hprisma & _).
  destruct (Hprisma _ _ _ eq_refl) as (H409 & _).
  split; [by apply H409|reflexivity].
Defined.

(* ------------------------------------------------------------------ *)
(** ** The failures of the service as responses *)

(** The six methods of the service whose body is a [try] with a [catch]
    that throws the error of the method. *)
Lemma serviceFailure_code convert e :
  serviceFailure convert e ->
  exists code, code ∈ serviceErrorCodes /\ e = AppError InternalServerError code.
Proof.
  unfold serviceErrorCodes.
  destruct 1 as [calculation ord creatorId w e w' H
                |orderId w e w' H
                |orderId reason w e w' H
                |creatorId currency w e w' H
                |commissionIds payoutId w e w' H
                |organizationId startDate endDate w e w' H];
    apply try_catch_throw in H as ->; eexists; (split; [|reflexivity]);
    rewrite !elem_of_cons; tauto.
Qed.

(** X22.  How a failure of a ledger method reaches the client.  Whatever
    is thrown inside [createLedgerEntries], [clearLedgerEntries],
    [cancelLedgerEntries], [getPendingCreatorCommissions],
    [markCommissionsAsPaid] or [reconcileCommissions] (by the persistence
    client, by the currency service or by the code itself), the method
    throws an [InternalServerError] with its own code, never the error that
    was thrown inside and never a conflict, and [errorHandler] answers it
    with status 500, with the code and the message of the error; in
    production its details are not sent.  In particular a payout that names
    an entry that does not exist is answered with 500
    [COMMISSION_PAYMENT_UPDATE_FAILED], not with the 404 the middleware
    gives to the record-not-found error of the persistence client. *)
Theorem service_failures_as_responses
    (convert : Q -> string -> string -> M Q) (e : Exn) :
  serviceFailure convert e ->
  exists code,
    code ∈ serviceErrorCodes
    /\ e = AppError InternalServerError code
    /\ isConflict e = false
    /\ forall nodeEnv errorId message details stack requestId,
         let sent :=
           errorHandler nodeEnv errorId (thrown e message details stack)
             requestId in
         let body := Handled.json sent in
         Handled.status sent = 500%Z
         /\ Handled.logLevel sent = LogError
         /\ ErrorResponse.statusCode body = 500%Z
         /\ ErrorResponse.code body = Some code
         /\ ErrorResponse.message body = message
         /\ (nodeEnv = Some "production" ->
             ErrorResponse.details body = JUndefined
             /\ ErrorResponse.stack body = None).
Proof.
  intros Hfail. destruct (serviceFailure_code _ _ Hfail) as (code & Hin & ->).
  exists code. split; [exact Hin|]. split; [reflexivity|]. split; [reflexivity|].
  intros nodeEnv errorId message details stack requestId. cbv zeta.
  assert (Hcode : truthy (Some code) = true).
  { unfold serviceErrorCodes in Hin. rewrite !elem_of_cons, elem_of_nil in Hin.
    repeat match type of Hin with
           | _ \/ _ => destruct Hin as [-> | Hin]
           | False => destruct Hin
           end; reflexivity. }
  unfold errorHandler.
  cbn [thrown Thrown.kind Thrown.stack newError newAppError statusCode
         isOperationalArgument Handled.status Handled.logLevel Handled.json
         ErrorObject.statusCode ErrorObject.errorCode ErrorObject.message
         ErrorObject.details ErrorObject.cls ErrorResponse.statusCode
         ErrorResponse.code ErrorResponse.message ErrorResponse.details
         ErrorResponse.stack default].
  rewrite Hcode. cbn [default].
  do 5 (split; [reflexivity|]).
  intros ->.
  rewrite (bool_decide_eq_true_2 (Some "production" = Some "production"))
    by done.
  cbn [negb orb]. by rewrite bool_decide_eq_false_2 by congruence.
Qed.

Lemma service_failures_as_responses_witness :
  exists e w',
    markCommissionsAsPaid ["e1"; "missing"] "payout1" Examples.worldLedger1
    = (Err e, w')
    /\ Handled.status
         (errorHandler (Some "production") "id1"
            (thrown e "Failed to mark commissions as paid"
               (JObject [("payoutId", JString "payout1")]) None) None)
       = 500%Z
    /\ Handled.status
         (errorHandler (Some "production") "id1"
            (thrown (PrismaError "P2025") "Record to update not found."
               JUndefined None) None)
       = 404%Z.
Proof.
  destruct (markCommissionsAsPaid ["e1"; "missing"] "payout1"
              Examples.worldLedger1) as [[rows|e] w'] eqn:Hrun;
    [vm_compute in Hrun; discriminate Hrun|].
  exists e, w'. split; [reflexivity|]. split; [|reflexivity].
  destruct (service_failures_as_responses
              (convertAtRates Scenarios.rates) e
              (markCommissionsAsPaid_fails _ _ _ _ _ _ Hrun))
    as (code & _ & _ & _ & Hsent).
  destruct (Hsent (Some "production") "id1"
              "Failed to mark commissions as paid"
              (JObject [("payoutId", JString "payout1")]) None None)
    as (Hstatus & _).
  exact Hstatus.
Defined.

(* ================================================================== *)
(** * Environment validation *)

Example validateEnv_complete :
  validateEnv Environments.complete
  = Returns {[ "DATABASE_URL" := "postgres://localhost/colink";
               "REDIS_URL" := "redis://localhost:6379";
               "NODE_ENV" := "development";
               "API_PORT" := "4000 # api";
               "LOG_LEVEL" := "info";
               "ENABLE_SWAGGER" := "true" ]}.
Proof. vm_compute. reflexivity. Qed.

Lemma truthy_Some (value : option string) :
  truthy value = true <-> exists v, value = Some v /\ v <> "".
Proof.
  unfold truthy. destruct value as [v|].
  - rewrite negb_true_iff, bool_decide_eq_false. split.
    + intros Hv. by exists v.
    + by intros (? & [= <-] & ?).
  - split; [done|]. by intros (? & ? & _).
Qed.

Lemma checkRequired_loop env names :
  forall missingVars config,
    fold_left (checkRequired env) names (missingVars, config)
    = (missingVars
       ++ List.filter (fun envVar => negb (truthy (env !! envVar))) names,
       fold_left (checkOptional env) names config).
Proof.
  induction names as [|v names IH]; intros missingVars config; cbn.
  - by rewrite app_nil_r.
  - unfold checkOptional at 2. destruct (truthy (env !! v)); cbn.
    + apply IH.
    + rewrite IH. by rewrite <- app_assoc.
Qed.

Lemma checkOptional_loop env names :
  forall config k,
    fold_left (checkOptional env) names config !! k
    = if bool_decide (k ∈ names) && truthy (env !! k) then env !! k
      else config !! k.
Proof.
  induction names as [|v names IH]; intros config k; cbn [fold_left].
  - rewrite bool_decide_eq_false_2; [done|]. apply not_elem_of_nil.
  - rewrite IH. unfold checkOptional.
    destruct (decide (k = v)) as [->|Hne].
    + rewrite (bool_decide_eq_true_2 (v ∈ v :: names))
        by apply list_elem_of_here.
      cbn [andb]. destruct (truthy (env !! v)) eqn:Ht.
      * apply truthy_Some in Ht as (x & Hx & _).
        rewrite Hx, lookup_insert_eq. cbn. by case_bool_decide.
      * by rewrite andb_false_r.
    + assert (Hin : bool_decide (k ∈ v :: names) = bool_decide (k ∈ names)).
      { apply bool_decide_ext. rewrite elem_of_cons. tauto. }
      rewrite Hin. destruct (truthy (env !! v));
        [rewrite lookup_insert_ne by done|]; done.
Qed.

Lemma collected_configOf env :
  fold_left (checkOptional env) knownEnvVars ∅ = configOf env.
Proof.
  apply map_eq. intros k. rewrite checkOptional_loop, lookup_empty.
  unfold configOf. rewrite map_lookup_filter.
  destruct (env !! k) as [v|] eqn:Hk; cbn.
  - case_bool_decide as Hin; cbn.
    + case_bool_decide as Hv; cbn.
      * subst v. rewrite option_guard_False; [done|]. cbn. tauto.
      * by rewrite option_guard_True.
    + rewrite option_guard_False; [done|]. cbn. tauto.
  - by rewrite andb_false_r.
Qed.

Lemma validateEnv_run env :
  validateEnv env
  = if (0 <? length (missingVarsOf env))%nat then
      Exits 1 "Missing required environment variables:" (missingVarsOf env)
    else
      andThen (validateDatabaseUrl (valueOf (configOf env) "DATABASE_URL"))
        (fun _ =>
      andThen (validateRedisUrl (valueOf (configOf env) "REDIS_URL"))
        (fun _ =>
      andThen (validatePort (valueOf (configOf env) "API_PORT"))
        (fun _ => Returns (configOf env)))).
Proof.
  unfold validateEnv. rewrite checkRequired_loop.
  rewrite <- fold_left_app. fold knownEnvVars. rewrite collected_configOf.
  reflexivity.
Qed.

Lemma missingVarsOf_nil env :
  missingVarsOf env = []
  <-> forall envVar, envVar ∈ requiredEnvVars -> truthy (env !! envVar) = true.
Proof.
  unfold missingVarsOf. split.
  - intros Hnil v Hv. destruct (truthy (env !! v)) eqn:Ht; [done|].
    assert (Hin : In v (List.filter (fun envVar => negb (truthy (env !! envVar)))
                          requiredEnvVars)).
    { apply filter_In. split; [by apply list_elem_of_In|by rewrite Ht]. }
    rewrite Hnil in Hin. destruct Hin.
  - intros Hall.
    destruct (List.filter _ requiredEnvVars) as [|v l] eqn:Hf; [done|].
    assert (Hin : In v (v :: l)) by apply in_eq.
    rewrite <- Hf in Hin. apply filter_In in Hin as [Hin Ht].
    rewrite (Hall v) in Ht by (by apply list_elem_of_In). discriminate Ht.
Qed.

Lemma configOf_required env envVar :
  envVar ∈ requiredEnvVars ->
  truthy (env !! envVar) = true ->
  valueOf (configOf env) envVar = valueOf env envVar.
Proof.
  intros Hin Ht. apply truthy_Some in Ht as (v & Hv & Hne).
  assert (Hknown : envVar ∈ knownEnvVars)
    by (unfold knownEnvVars; apply elem_of_app; by left).
  unfold valueOf, configOf. rewrite map_lookup_filter, Hv. cbn.
  rewrite option_guard_True; [done|]. split; [exact Hknown|exact Hne].
Qed.

Lemma validateEnv_checks env :
  missingVarsOf env = [] ->
  validateEnv env
  = andThen (validateDatabaseUrl (valueOf env "DATABASE_URL"))
      (fun _ =>
    andThen (validateRedisUrl (valueOf env "REDIS_URL"))
      (fun _ =>
    andThen (validatePort (valueOf env "API_PORT"))
      (fun _ => Returns (configOf env)))).
Proof.
  intros Hnil. rewrite validateEnv_run, Hnil. cbn [length Nat.ltb Nat.leb].
  pose proof (proj1 (missingVarsOf_nil env) Hnil) as Hall.
  rewrite !configOf_required; [done|..];
    try (apply Hall); unfold requiredEnvVars; rewrite !elem_of_cons; tauto.
Qed.

(** X23.  [validateEnv] returns a configuration exactly when each of the
    five required variables is set and not empty, the database URL starts
    with [postgresql://] or [postgres://], the Redis URL starts with
    [redis://] or [rediss://], and the port parses to a number from 1 to
    65535.  The configuration is then the environment restricted to the
    eleven known variables that are not empty: every value is the one of
    the environment, an optional variable that is empty is left out, and
    no other variable gets in. *)
Theorem validateEnv_returns (env config : gmap string string) :
  validateEnv env = Returns config
  <-> (forall envVar,
          envVar ∈ requiredEnvVars -> truthy (env !! envVar) = true)
      /\ (startsWith (valueOf env "DATABASE_URL") "postgresql://" = true
          \/ startsWith (valueOf env "DATABASE_URL") "postgres://" = true)
      /\ (startsWith (valueOf env "REDIS_URL") "redis://" = true
          \/ startsWith (valueOf env "REDIS_URL") "rediss://" = true)
      /\ (exists portNum,
             parseInt10 (valueOf env "API_PORT") = Some portNum
             /\ (1 <= portNum <= 65535)%Z)
      /\ config = configOf env.
Proof.
  rewrite <- missingVarsOf_nil.
  destruct (missingVarsOf env) as [|v missing] eqn:Hmissing.
  - rewrite (validateEnv_checks env Hmissing).
    unfold validateDatabaseUrl, validateRedisUrl, validatePort.
    destruct (startsWith (valueOf env "DATABASE_URL") "postgresql://");
      destruct (startsWith (valueOf env "DATABASE_URL") "postgres://");
      destruct (startsWith (valueOf env "REDIS_URL") "redis://");
      destruct (startsWith (valueOf env "REDIS_URL") "rediss://");
      cbn [negb andb andThen];
      try (split; [discriminate|intros (_ & H1 & H2 & _); by destruct H1, H2]).
    all: destruct (parseInt10 (valueOf env "API_PORT")) as [portNum|];
      [destruct (portNum <? 1)%Z eqn:Hlow;
       [|destruct (65535 <? portNum)%Z eqn:Hhigh]|];
      cbn [orb andThen];
      try apply Z.ltb_lt in Hlow; try apply Z.ltb_ge in Hlow;
      try apply Z.ltb_lt in Hhigh; try apply Z.ltb_ge in Hhigh.
    all: split;
      [intros [= <-] || discriminate
      |intros (_ & _ & _ & (n & Hn & Hrange) & Hconfig);
       try discriminate Hn; try (injection Hn as <-; lia);
       by rewrite Hconfig].
    all: split; [done|]; split; [tauto|]; split; [tauto|]; split; [|done];
      exists portNum; split; [done|lia].
  - rewrite validateEnv_run, Hmissing. cbn [length Nat.ltb Nat.leb].
    split; [discriminate|]. by intros [[=] _].
Qed.

Lemma validateEnv_returns_witness :
  validateEnv Environments.complete = Returns (configOf Environments.complete)
  /\ configOf Environments.complete !! "API_PORT" = Some "4000 # api"
  /\ configOf Environments.complete !! "RATE_LIMIT_MAX" = None
  /\ configOf Environments.complete !! "HOME" = None.
Proof.
  split; [|by vm_compute].
  apply validateEnv_returns. split.
  - intros envVar Hin. unfold requiredEnvVars in Hin.
    rewrite !elem_of_cons, elem_of_nil in Hin.
    destruct Hin as [-> | [-> | [-> | [-> | [-> | []]]]]]; reflexivity.
  - split; [right; reflexivity|]. split; [left; reflexivity|].
    split; [|reflexivity]. exists 4000%Z. split; [reflexivity|lia].
Defined.

(** X24.  [validateEnv] ends the process with status 1, and only with
    status 1.  The missing variables come first: when a required variable
    is not set or empty, all of them are reported, in the order they are
    declared in, and no format is checked.  Otherwise the first format that
    fails is reported: the database URL, then the Redis URL, then the
    port. *)
Theorem validateEnv_exits (env : gmap string string) :
  (forall status logged arguments,
      validateEnv env = Exits status logged arguments -> status = 1%Z)
  /\ (forall envVar,
        envVar ∈ requiredEnvVars ->
        truthy (env !! envVar) = false ->
        envVar ∈ missingVarsOf env
        /\ validateEnv env
           = Exits 1 "Missing required environment variables:"
               (missingVarsOf env))
  /\ (missingVarsOf env = [] ->
      let database :=
        startsWith (valueOf env "DATABASE_URL") "postgresql://"
        || startsWith (valueOf env "DATABASE_URL") "postgres://" in
      let redis :=
        startsWith (valueOf env "REDIS_URL") "redis://"
        || startsWith (valueOf env "REDIS_URL") "rediss://" in
      (database = false ->
       validateEnv env
       = Exits 1 "DATABASE_URL must be a valid PostgreSQL connection string"
           [])
      /\ (database = true -> redis = false ->
          validateEnv env
          = Exits 1 "REDIS_URL must be a valid Redis connection string" [])
      /\ (database = true -> redis = true ->
          validatePort (valueOf env "API_PORT") <> Returns () ->
          validateEnv env
          = Exits 1 "API_PORT must be a valid port number (1-65535)" [])).
Proof.
  split; [|split].
  - intros status logged arguments. rewrite validateEnv_run.
    destruct (0 <? length (missingVarsOf env))%nat; [by intros [= <- _ _]|].
    unfold validateDatabaseUrl, validateRedisUrl, validatePort.
    repeat match goal with
           | |- context [if ?b then _ else _] => destruct b; cbn [andThen]
           | |- context [match ?o with Some _ => _ | None => _ end] =>
               destruct o; cbn [andThen]
           end; by intros [= <- _ _] || discriminate.
  - intros envVar Hin Ht.
    assert (Hmissing : envVar ∈ missingVarsOf env).
    { apply list_elem_of_In, filter_In. split; [by apply list_elem_of_In|].
      by rewrite Ht. }
    split; [done|]. rewrite validateEnv_run.
    destruct (missingVarsOf env); [by apply elem_of_nil in Hmissing|done].
  - intros Hnil database redis. rewrite (validateEnv_checks env Hnil).
    unfold validateDatabaseUrl, validateRedisUrl. subst database redis.
    destruct (startsWith (valueOf env "DATABASE_URL") "postgresql://");
      destruct (startsWith (valueOf env "DATABASE_URL") "postgres://");
      destruct (startsWith (valueOf env "REDIS_URL") "redis://");
      destruct (startsWith (valueOf env "REDIS_URL") "rediss://");
      cbn [negb andb orb andThen];
      (split; [done || discriminate|]);
      (split; [done || discriminate|]);
      try discriminate; intros _ _; unfold validatePort;
      destruct (parseInt10 (valueOf env "API_PORT")) as [portNum|];
      try destruct ((portNum <? 1)%Z || (65535 <? portNum)%Z);
      cbn [andThen]; done.
Qed.

Lemma validateEnv_exits_witness :
  validateEnv Environments.incomplete
  = Exits 1 "Missing required environment variables:"
      ["REDIS_URL"; "LOG_LEVEL"].
Proof.
  destruct (validateEnv_exits Environments.incomplete) as (_ & Hmissing & _).
  destruct (Hmissing "LOG_LEVEL") as [_ Hrun].
  - unfold requiredEnvVars. rewrite !elem_of_cons. tauto.
  - reflexivity.
  - exact Hrun.
Defined.

(* ------------------------------------------------------------------ *)
(** ** The port *)

Lemma pretty_N_char_digit (d : N) :
  (d < 10)%N ->
  isDigit (pretty_N_char d) = true
  /\ (Ascii.N_of_ascii (pretty_N_char d) - 48 = d)%N.
Proof.
  intros Hd.
  assert (d = 0 \/ d = 1 \/ d = 2 \/ d = 3 \/ d = 4 \/ d = 5 \/ d = 6
          \/ d = 7 \/ d = 8 \/ d = 9)%N as Hcases by lia.
  repeat destruct Hcases as [-> | Hcases]; try subst d; by vm_compute.
Qed.

(** The digits [pretty] writes for [x], read back after [read]. *)
Lemma digitsValue_pretty_N_go (x : N) :
  exists k : N,
    forall s read,
      digitsValue (pretty_N_go x s) read
      = digitsValue s (read * 10 ^ k + x)%N.
Proof.
  induction (N.lt_wf_0 x) as [x _ IH].
  destruct (decide (x = 0)%N) as [->|Hx].
  - exists 0%N. intros s read. rewrite pretty_N_go_0. f_equal. lia.
  - destruct (IH (x `div` 10)%N) as [k Hk]; [apply N.div_lt; lia|].
    exists (N.succ k). intros s read.
    rewrite pretty_N_go_step by lia. rewrite Hk.
    destruct (pretty_N_char_digit (x `mod` 10)%N) as [Hdigit Hvalue];
      [apply N.mod_lt; lia|].
    cbn [digitsValue]. rewrite Hdigit, Hvalue. f_equal.
    rewrite N.pow_succ_r'. pose proof (N.div_mod x 10). lia.
Qed.

Lemma pretty_N_go_first (x : N) :
  (0 < x)%N ->
  forall s, exists a r, pretty_N_go x s = String a r /\ isDigit a = true.
Proof.
  induction (N.lt_wf_0 x) as [x _ IH]. intros Hx s.
  rewrite pretty_N_go_step by done.
  destruct (decide (x `div` 10 = 0)%N) as [Hz|Hnz].
  - rewrite Hz, pretty_N_go_0. eexists _, _. split; [reflexivity|].
    apply pretty_N_char_digit, N.mod_lt. lia.
  - apply IH; [apply N.div_lt; lia|by apply N.neq_0_lt_0].
Qed.

Lemma append_assoc (s1 s2 s3 : string) :
  (s1 +:+ s2) +:+ s3 = s1 +:+ s2 +:+ s3.
Proof.
  induction s1 as [|a s1 IH]; [reflexivity|].
  change (String a ((s1 +:+ s2) +:+ s3) = String a (s1 +:+ s2 +:+ s3)).
  by rewrite IH.
Qed.

Lemma pretty_N_go_app (x : N) :
  forall s, pretty_N_go x s = pretty_N_go x "" +:+ s.
Proof.
  induction (N.lt_wf_0 x) as [x _ IH]. intros s.
  destruct (decide (x = 0)%N) as [->|Hx]; [by rewrite !pretty_N_go_0|].
  rewrite (pretty_N_go_step x s), (pretty_N_go_step x "") by lia.
  assert (Hlt : (x `div` 10 < x)%N) by (apply N.div_lt; lia).
  rewrite (IH _ Hlt (String _ s)), (IH _ Hlt (String _ "")).
  by rewrite append_assoc.
Qed.

Lemma isDigit_code (a : Ascii.ascii) :
  isDigit a = true -> (48 <= Ascii.N_of_ascii a <= 57)%N.
Proof.
  unfold isDigit. rewrite andb_true_iff, !N.leb_le. lia.
Qed.

Lemma afterWhiteSpace_digit (a : Ascii.ascii) (r : string) :
  isDigit a = true -> afterWhiteSpace (String a r) = None.
Proof.
  intros Ha%isDigit_code. unfold afterWhiteSpace.
  rewrite bool_decide_eq_false_2
    by (rewrite !elem_of_cons, elem_of_nil; lia).
  destruct r as [|b r]; [done|].
  rewrite bool_decide_eq_false_2 by lia.
  destruct r as [|c r]; [done|].
  by rewrite bool_decide_eq_false_2 by lia.
Qed.

Lemma digitsValue_noDigitFirst (s : string) (read : N) :
  noDigitFirst s -> digitsValue s read = read.
Proof. destruct s as [|a r]; [done|]. cbn. by intros ->. Qed.

Lemma parseInt10_pretty (n : N) (rest : string) :
  noDigitFirst rest ->
  parseInt10 (pretty n +:+ rest) = Some (Z.of_N n).
Proof.
  intros Hrest.
  assert (Hdigits : exists a r,
             pretty n +:+ rest = String a r
             /\ isDigit a = true
             /\ digitsValue (String a r) 0 = n).
  { unfold pretty, pretty_N. case_decide as Hn.
    - subst n. destruct (pretty_N_char_digit 0 eq_refl) as [Hd Hv].
      exists (pretty_N_char 0), rest. split; [reflexivity|]. split; [exact Hd|].
      cbn [digitsValue]. rewrite Hd, Hv. by apply digitsValue_noDigitFirst.
    - rewrite <- pretty_N_go_app.
      destruct (pretty_N_go_first n ltac:(lia) rest) as (a & r & Heq & Ha).
      exists a, r. split; [done|]. split; [done|]. rewrite <- Heq.
      destruct (digitsValue_pretty_N_go n) as [k Hk]. rewrite Hk.
      rewrite digitsValue_noDigitFirst by done. lia. }
  destruct Hdigits as (a & r & -> & Ha & Hvalue).
  unfold parseInt10.
  assert (Htrim : forall fuel, trimStart fuel (String a r) = String a r).
  { intros [|fuel]; [done|]. cbn [trimStart].
    by rewrite afterWhiteSpace_digit. }
  rewrite Htrim. pose proof (isDigit_code a Ha) as Hcode.
  rewrite !bool_decide_eq_false_2 by lia.
  rewrite Ha, Hvalue. f_equal. lia.
Qed.

(** X25.  The port check reads the leading decimal number and ignores what
    follows it.  A port written as a decimal number, alone or followed by
    text that does not start with a digit, passes exactly when the number
    is between 1 and 65535: [4000] passes, and so do [4000abc] and
    [4000.5]; [0] and [65536] end the process. *)
Theorem validatePort_decimal (n : N) (rest : string) :
  noDigitFirst rest ->
  (validatePort (pretty n +:+ rest) = Returns () <-> (1 <= n <= 65535)%N)
  /\ (validatePort (pretty n +:+ rest) <> Returns () ->
      validatePort (pretty n +:+ rest)
      = Exits 1 "API_PORT must be a valid port number (1-65535)" []).
Proof.
  intros Hrest. unfold validatePort. rewrite (parseInt10_pretty n rest Hrest).
  destruct (Z.of_N n <? 1)%Z eqn:Hlow;
    [|destruct (65535 <? Z.of_N n)%Z eqn:Hhigh]; cbn [orb];
    try apply Z.ltb_lt in Hlow; try apply Z.ltb_ge in Hlow;
    try apply Z.ltb_lt in Hhigh; try apply Z.ltb_ge in Hhigh.
  - split; [|done]. split; [discriminate|lia].
  - split; [|done]. split; [discriminate|lia].
  - split; [|done]. split; [intros _; lia|done].
Qed.

Lemma validatePort_decimal_witness :
  validatePort "4000abc" = Returns ()
  /\ validatePort "65536"
     = Exits 1 "API_PORT must be a valid port number (1-65535)" [].
Proof.
  split.
  - apply (validatePort_decimal 4000 "abc"); [reflexivity|lia].
  - apply (validatePort_decimal 65536 ""); [exact I|].
    intros H. apply (validatePort_decimal 65536 "") in H; [lia|exact I].
Defined.

(** What else the port check lets through and what it stops: white space
    before the number and a plus sign pass, an exponent is not read, a
    port that is not a number, a negative one and an empty one end the
    process. *)
Example validatePort_examples :
  validatePort " 8080" = Returns ()
  /\ validatePort "+8080" = Returns ()
  /\ validatePort "1e3" = Returns ()
  /\ validatePort "0x50"
     = Exits 1 "API_PORT must be a valid port number (1-65535)" []
  /\ validatePort "-80"
     = Exits 1 "API_PORT must be a valid port number (1-65535)" []
  /\ validatePort "http"
     = Exits 1 "API_PORT must be a valid port number (1-65535)" [].
Proof. by vm_compute. Qed.
